(** * Portfolio accounting engine of the crypto tracker

    A shallow embedding of [crypto_tracker/services/metrics.py] (the three
    cost-basis engines and [compute_portfolio_metrics]), of
    [compute_realized_pnl_per_trade] and of the projection path of
    [legacy_crypto_tracker.py], with the properties the design document
    states about them.

    The second part ([Further functions], [Further properties]) adds the
    other functions of these files that compute on trades, accounts and
    metrics without widgets or files: the buy profit per trade, the
    quantities available and held, the scope of the metrics, the change
    over 24 hours and the order of the exchanges of
    [legacy_crypto_tracker.py], [color_for_value] of [ui/utils.py] and the
    account and fee functions of [services/storage.py], with properties
    read from the code.

    Numbers.  The Python code computes with floats (IEEE 754 binary64).
    The file has two models of the arithmetic.  In the main one every
    number is an exact rational ([Q]) and results are compared with [==]
    ([Qeq]): an equality or a bound on amounts proved there is what the
    code computes in exact arithmetic, and the statement says so.
    [Float64] repeats the engines and the aggregator with the kernel's
    binary64 floats and evaluates the code on concrete trades where the
    rounding matters ([cost_basis_rounding_counterexample],
    [rounding_separates_methods], [accounting_identity_rounding],
    [available_quantity_rounding], [portfolio_24h_pct_rounding]).  Which
    records are read, which keys a map has and which exception is raised
    do not depend on the arithmetic.

    Records.  A trade is a Python dict.  Each of its entries may be absent
    ([None] below); an entry that is present holds a value of the type the
    data model gives it.  With that reading [t.get(k) or 0] and
    [t.get(k, 0)] coincide and both are [num0]. *)

From Corelib Require Import PrimFloat.
From Stdlib Require Import QArith Qabs Qfield Lqa.
From stdpp Require Import gmap strings list.

Local Open Scope Q_scope.
Set Warnings "-inexact-float".

(** ** Exceptions *)

(** [KeyError] and [ZeroDivisionError] are the exceptions the modelled code
    can raise on records as described above.  [TypeError] is raised by the
    object store on a reference to an object of the wrong kind, and
    [LoopBound] when the bound given to a modelled [while] loop is too small
    (which [store_refines] below excludes). *)
Inductive exn := KeyError | ZeroDivisionError | TypeError | LoopBound.

Inductive result (A : Type) :=
| Ok (a : A)
| Raise (e : exn).
Arguments Ok {A} a.
Arguments Raise {A} e.

Definition result_bind {A B} (m : result A) (f : A → result B) : result B :=
  match m with Ok a => f a | Raise e => Raise e end.

Definition raises {A} (m : result A) : bool :=
  match m with Ok _ => false | Raise _ => true end.

(** ** Numbers *)

Definition Qltb (x y : Q) : bool := negb (Qle_bool y x).

(** [x / y] of Python: division by zero raises. *)
Definition py_div (x y : Q) : result Q :=
  if Qeq_bool y 0 then Raise ZeroDivisionError else Ok (x / y).

(** ** Trades *)

Record trade := {
  t_id : option string;
  t_date : option string;
  t_asset : option string;
  t_type : option string;
  t_price : option Q;
  t_quantity : option Q;
  t_fee : option Q;
  t_total_value : option Q
}.

(** [t.get(k) or 0] *)
Definition num0 (x : option Q) : Q := default 0 x.

(** [t.get("type") == s] *)
Definition is_type (t : trade) (s : string) : bool :=
  match t_type t with Some x => String.eqb x s | None => false end.

(** [t.get("asset") == a] *)
Definition is_asset (t : trade) (a : string) : bool :=
  match t_asset t with Some x => String.eqb x a | None => false end.

(** [t.get("type") in ("BUY", "Transfer")] *)
Definition is_acquisition (t : trade) : bool :=
  is_type t "BUY" || is_type t "Transfer".

(** [t.get("date", "")], the sort key *)
Definition date_key (t : trade) : string := default EmptyString (t_date t).

(** [(t.get("total_value") or 0) + (t.get("fee") or 0)] *)
Definition cost_in (t : trade) : Q := num0 (t_total_value t) + num0 (t_fee t).

(** [(t.get("total_value") or 0) - (t.get("fee") or 0)] *)
Definition proceeds_out (t : trade) : Q := num0 (t_total_value t) - num0 (t_fee t).

(** ** Sorting

    [list.sort] and [sorted] are stable.  The stable sort of a list is
    unique, so insertion from the right, which puts an element before the
    first one of the sorted tail whose key is not smaller, computes it. *)

Section Sort.
Context {A : Type} (key : A → string).

Fixpoint insert_by (x : A) (l : list A) : list A :=
  match l with
  | [] => [x]
  | y :: l' =>
      if String.leb (key x) (key y) then x :: y :: l' else y :: insert_by x l'
  end.

Definition sort_by (l : list A) : list A := foldr insert_by [] l.
End Sort.

(** ** Lot ledger: the cost-basis engines *)

Record lot := {
  lot_quantity : Q;
  lot_cost_per_unit : Q;
  lot_trade_id : option string;
  lot_date : string
}.

Definition lot_sub (l : lot) (q : Q) : lot :=
  {| lot_quantity := lot_quantity l - q;
     lot_cost_per_unit := lot_cost_per_unit l;
     lot_trade_id := lot_trade_id l;
     lot_date := lot_date l |}.

(** The running state of a replay: [(total_cost, units_held, lots)]. *)
Definition ledger : Type := Q * Q * list lot.

(** [asset_trades = [t for t in trades if t.get("asset") == asset]] followed
    by [asset_trades.sort(key=lambda x: x.get("date", ""))]. *)
Definition asset_history (trades : list trade) (asset : string) : list trade :=
  sort_by date_key (filter (λ t, is_asset t asset = true) trades).

(** The BUY / Transfer branch of FIFO and LIFO. *)
Definition acquire (st : ledger) (t : trade) : ledger :=
  let '(total_cost, units_held, lots) := st in
  let qty := num0 (t_quantity t) in
  let total_val := cost_in t in
  let cost_per_unit := if Qeq_bool qty 0 then 0 else total_val / qty in
  if Qltb 0 cost_per_unit && Qltb 0 qty then
    (total_cost + total_val,
     units_held + qty,
     lots ++ [ {| lot_quantity := qty;
                  lot_cost_per_unit := cost_per_unit;
                  lot_trade_id := t_id t;
                  lot_date := date_key t |} ])
  else st.

(** The [while sell_qty > 0 and lots:] loop, over the lots in the order in
    which they are consumed; returns [total_cost] and the lots left, in the
    same order. *)
Fixpoint match_lots (lots : list lot) (sell_qty total_cost : Q) : Q * list lot :=
  match lots with
  | [] => (total_cost, [])
  | l :: rest =>
      if Qltb 0 sell_qty then
        let q := lot_quantity l in
        if Qle_bool q sell_qty then
          match_lots rest (sell_qty - q) (total_cost - q * lot_cost_per_unit l)
        else
          (total_cost - sell_qty * lot_cost_per_unit l, lot_sub l sell_qty :: rest)
      else (total_cost, lots)
  end.

(** FIFO takes [lots[0]] and [lots.pop(0)]: the consumption order is the
    order of the list. *)
Definition sell_fifo (st : ledger) (t : trade) : ledger :=
  let '(total_cost, units_held, lots) := st in
  let sell_qty := num0 (t_quantity t) in
  let '(c, ls) := match_lots lots sell_qty total_cost in
  (c, units_held - sell_qty, ls).

(** LIFO takes [lots[-1]] and [lots.pop()]: the consumption order is the
    reverse of the list. *)
Definition sell_lifo (st : ledger) (t : trade) : ledger :=
  let '(total_cost, units_held, lots) := st in
  let sell_qty := num0 (t_quantity t) in
  let '(c, ls) := match_lots (rev lots) sell_qty total_cost in
  (c, units_held - sell_qty, rev ls).

Definition fifo_step (st : ledger) (t : trade) : ledger :=
  if is_acquisition t then acquire st t
  else if is_type t "SELL" then sell_fifo st t
  else st.

Definition lifo_step (st : ledger) (t : trade) : ledger :=
  if is_acquisition t then acquire st t
  else if is_type t "SELL" then sell_lifo st t
  else st.

Definition ledger0 : ledger := (0, 0, []).

Definition calculate_cost_basis_fifo (trades : list trade) (asset : string) : ledger :=
  foldl fifo_step ledger0 (asset_history trades asset).

Definition calculate_cost_basis_lifo (trades : list trade) (asset : string) : ledger :=
  foldl lifo_step ledger0 (asset_history trades asset).

(** Average cost: the state of the loop is [(total_cost, units_held)]; the
    division of the SELL branch is unguarded in the source. *)
Definition average_step (st : Q * Q) (t : trade) : result (Q * Q) :=
  let '(total_cost, units_held) := st in
  if is_acquisition t then
    Ok (total_cost + cost_in t, units_held + num0 (t_quantity t))
  else if is_type t "SELL" then
    let sell_qty := num0 (t_quantity t) in
    let units_held := units_held - sell_qty in
    if Qltb 0 units_held then
      result_bind (py_div total_cost (units_held + sell_qty))
        (λ avg, Ok (units_held * avg, units_held))
    else Ok (0, units_held)
  else Ok st.

Fixpoint average_loop (st : Q * Q) (ts : list trade) : result (Q * Q) :=
  match ts with
  | [] => Ok st
  | t :: ts' => result_bind (average_step st t) (λ st', average_loop st' ts')
  end.

Definition average_lots (total_cost units_held : Q) : list lot :=
  if Qltb 0 units_held then
    [ {| lot_quantity := units_held;
         lot_cost_per_unit := total_cost / units_held;
         lot_trade_id := Some "average"%string;
         lot_date := "average"%string |} ]
  else [].

Definition calculate_cost_basis_average (trades : list trade) (asset : string)
  : result ledger :=
  result_bind (average_loop (0, 0) (asset_history trades asset))
    (λ '(total_cost, units_held),
       Ok (total_cost, units_held, average_lots total_cost units_held)).

(** ** Portfolio metrics aggregator *)

Record asset_metrics := {
  am_units_held : Q;
  am_holding_qty : Q;
  am_price : option Q;
  am_current_value : Q;
  am_cost_basis : Q;
  am_unrealized_pnl : Q;
  am_realized_pnl : Q;
  am_lifetime_pnl : Q;
  am_roi_pct : Q
}.

Record portfolio_metrics := {
  per_asset : gmap string asset_metrics;
  usd_balance : Q;
  total_value : Q;
  total_external_cash : Q;
  total_cost_basis_assets : Q;
  realized_pnl : Q;
  unrealized_pnl : Q;
  total_pnl : Q;
  roi_pct : Q;
  roi_on_cost_pct : option Q
}.

(** [sum(...)]: starts from 0 and adds from the left. *)
Definition py_sum (l : list Q) : Q := foldl Qplus 0 l.

(** [x or y] on a number that may be absent. *)
Definition py_or (x : option Q) (y : Q) : Q :=
  match x with
  | Some v => if Qeq_bool v 0 then y else v
  | None => y
  end.

(** The snapshot returned for [not trades]. *)
Definition zero_metrics : portfolio_metrics :=
  {| per_asset := ∅; usd_balance := 0; total_value := 0;
     total_external_cash := 0; total_cost_basis_assets := 0;
     realized_pnl := 0; unrealized_pnl := 0; total_pnl := 0;
     roi_pct := 0; roi_on_cost_pct := None |}.

(** [{t["asset"] for t in trades_sorted if t.get("asset") != "USD"}]: the
    subscript [t["asset"]] raises on a record without that entry. *)
Fixpoint crypto_asset_set (ts : list trade) : result (gset string) :=
  match ts with
  | [] => Ok ∅
  | t :: ts' =>
      if negb (is_asset t "USD") then
        match t_asset t with
        | None => Raise KeyError
        | Some a => result_bind (crypto_asset_set ts') (λ s, Ok ({[a]} ∪ s))
        end
      else crypto_asset_set ts'
  end.

(** [sorted(s)] for a set of strings. *)
Definition sorted_set (s : gset string) : list string := sort_by id (elements s).

(** The dispatch on [method], after the fallback to ["average"]. *)
Definition effective_method (cost_basis_method : string) : string :=
  if String.eqb cost_basis_method "fifo" || String.eqb cost_basis_method "lifo"
     || String.eqb cost_basis_method "average"
  then cost_basis_method else "average"%string.

Definition cost_basis_by (cost_basis_method : string)
    (asset_trades : list trade) (asset : string) : result ledger :=
  let method := effective_method cost_basis_method in
  if String.eqb method "fifo" then Ok (calculate_cost_basis_fifo asset_trades asset)
  else if String.eqb method "lifo" then Ok (calculate_cost_basis_lifo asset_trades asset)
  else calculate_cost_basis_average asset_trades asset.

(** [realized_pnl_asset = sell_proceeds_asset - (buy_cost_asset - cost_basis)] *)
Definition buy_cost (ts : list trade) : Q :=
  py_sum (cost_in <$> filter (λ t, is_acquisition t = true) ts).

Definition sell_proceeds (ts : list trade) : Q :=
  py_sum (proceeds_out <$> filter (λ t, is_type t "SELL" = true) ts).

Definition realized_of (ts : list trade) (cost_basis : Q) : Q :=
  sell_proceeds ts - (buy_cost ts - cost_basis).

(** Lines 214-237: the metrics of one asset from its cost basis, its units
    and the price found for it. *)
Definition asset_entry (asset_trades : list trade) (cost_basis units_held : Q)
    (price : option Q) : asset_metrics :=
  let realized_pnl_asset := realized_of asset_trades cost_basis in
  let holding_qty :=
    py_sum ((λ t, num0 (t_quantity t)) <$>
            filter (λ t, is_type t "Holding" = true) asset_trades) in
  let total_units_for_value := units_held + holding_qty in
  let current_value :=
    match price with
    | None => cost_basis
    | Some p => if Qle_bool p 0 then cost_basis else total_units_for_value * p
    end in
  let unrealized := current_value - cost_basis in
  let roi_pct_asset :=
    if Qltb 0 cost_basis then unrealized / cost_basis * 100 else 0 in
  {| am_units_held := units_held;
     am_holding_qty := holding_qty;
     am_price := price;
     am_current_value := current_value;
     am_cost_basis := cost_basis;
     am_unrealized_pnl := unrealized;
     am_realized_pnl := realized_pnl_asset;
     am_lifetime_pnl := realized_pnl_asset + unrealized;
     am_roi_pct := roi_pct_asset |}.

(** The accumulators of the loop over [crypto_assets]:
    [(per_asset, total_cost_basis_assets, total_unrealized_pnl,
      total_value_assets)]. *)
Definition totals : Type := gmap string asset_metrics * Q * Q * Q.

Definition asset_step (cost_basis_method : string)
    (get_current_price : string → option Q) (trades_sorted : list trade)
    (acc : totals) (asset : string) : result totals :=
  let '(per_asset, total_cost_basis_assets, total_unrealized_pnl,
        total_value_assets) := acc in
  let asset_trades := filter (λ t, is_asset t asset = true) trades_sorted in
  match asset_trades with
  | [] => Ok acc
  | _ =>
      result_bind (cost_basis_by cost_basis_method asset_trades asset)
        (λ '(cost_basis, units_held, _),
           let e := asset_entry asset_trades cost_basis units_held
                      (get_current_price asset) in
           Ok (<[asset := e]> per_asset,
               total_cost_basis_assets + cost_basis,
               total_unrealized_pnl + am_unrealized_pnl e,
               total_value_assets + am_current_value e))
  end.

Fixpoint asset_loop (cost_basis_method : string)
    (get_current_price : string → option Q) (trades_sorted : list trade)
    (acc : totals) (assets : list string) : result totals :=
  match assets with
  | [] => Ok acc
  | a :: rest =>
      result_bind (asset_step cost_basis_method get_current_price trades_sorted acc a)
        (λ acc', asset_loop cost_basis_method get_current_price trades_sorted acc' rest)
  end.

(** The body of the [usd_balance] loop. *)
Definition usd_step (usd_balance : Q) (t : trade) : Q :=
  if is_asset t "USD" || negb (is_type t "BUY" || is_type t "SELL") then usd_balance
  else
    let total_val :=
      py_or (t_total_value t) (num0 (t_price t) * num0 (t_quantity t)) in
    let fee := num0 (t_fee t) in
    if is_type t "BUY" then usd_balance - (total_val + fee)
    else usd_balance + (total_val - fee).

Definition external_cash (trades_sorted : list trade) : Q :=
  let usd_deposits :=
    py_sum ((λ t, num0 (t_quantity t)) <$>
            filter (λ t, is_asset t "USD" && is_type t "Deposit" = true) trades_sorted) in
  let usd_withdrawals :=
    py_sum ((λ t, num0 (t_quantity t)) <$>
            filter (λ t, is_asset t "USD" && is_type t "Withdrawal" = true) trades_sorted) in
  usd_deposits - usd_withdrawals.

(** Lines 242-280: the cash replay and the aggregate figures. *)
Definition summarise (trades_sorted : list trade) (total_external_cash : Q)
    (acc : totals) : portfolio_metrics :=
  let '(per_asset, total_cost_basis_assets, total_unrealized_pnl,
        total_value_assets) := acc in
  let usd_balance := foldl usd_step total_external_cash trades_sorted in
  let total_value := total_value_assets + usd_balance in
  let total_buy_cost :=
    py_sum (cost_in <$>
            filter (λ t, is_acquisition t && negb (is_asset t "USD") = true)
              trades_sorted) in
  let total_sell_proceeds :=
    py_sum (proceeds_out <$>
            filter (λ t, is_type t "SELL" && negb (is_asset t "USD") = true)
              trades_sorted) in
  let realized_pnl :=
    total_sell_proceeds - (total_buy_cost - total_cost_basis_assets) in
  let total_pnl := realized_pnl + total_unrealized_pnl in
  let roi_pct :=
    if Qltb 0 total_external_cash
    then total_pnl / total_external_cash * 100 else 0 in
  let roi_on_cost_pct :=
    if Qltb 0 total_cost_basis_assets
    then Some (total_pnl / total_cost_basis_assets * 100) else None in
  {| per_asset := per_asset;
     usd_balance := usd_balance;
     total_value := total_value;
     total_external_cash := total_external_cash;
     total_cost_basis_assets := total_cost_basis_assets;
     realized_pnl := realized_pnl;
     unrealized_pnl := total_unrealized_pnl;
     total_pnl := total_pnl;
     roi_pct := roi_pct;
     roi_on_cost_pct := roi_on_cost_pct |}.

Definition totals0 : totals := (∅, 0, 0, 0).

Definition compute_portfolio_metrics (trades : list trade)
    (cost_basis_method : string) (get_current_price : string → option Q)
  : result portfolio_metrics :=
  match trades with
  | [] => Ok zero_metrics
  | _ =>
      let trades_sorted := sort_by date_key trades in
      let total_external_cash := external_cash trades_sorted in
      result_bind (crypto_asset_set trades_sorted) (λ s,
      let crypto_assets := sorted_set s in
      result_bind
        (asset_loop cost_basis_method get_current_price trades_sorted
           totals0 crypto_assets)
        (λ acc, Ok (summarise trades_sorted total_external_cash acc)))
  end.

(** ** Realized P&L per trade (average cost) *)

(** The three dictionaries of the loop: [units], [cost_basis], [result]. *)
Record pnl_state := {
  ps_units : gmap string Q;
  ps_cost_basis : gmap string Q;
  ps_result : gmap string Q
}.

(** [trade.get("id", "")] and [trade.get("asset", "")] *)
Definition tid_of (t : trade) : string := default EmptyString (t_id t).
Definition asset_of (t : trade) : string := default EmptyString (t_asset t).

(** Truth value of a string: non-empty. *)
Definition nonempty (s : string) : bool :=
  match s with EmptyString => false | _ => true end.

(** [ttype in ("BUY", "SELL", "Transfer")] *)
Definition is_tracked_type (t : trade) : bool :=
  is_type t "BUY" || is_type t "SELL" || is_type t "Transfer".

Definition pnl_step (st : pnl_state) (t : trade) : pnl_state :=
  let asset := asset_of t in
  let tid := tid_of t in
  if String.eqb asset "USD" || negb (is_tracked_type t) then
    if is_type t "SELL" && nonempty asset && nonempty tid then
      {| ps_units := ps_units st; ps_cost_basis := ps_cost_basis st;
         ps_result := <[tid := 0]> (ps_result st) |}
    else st
  else if is_acquisition t then
    let qty := num0 (t_quantity t) in
    let cost := cost_in t in
    {| ps_units := <[asset := default 0 (ps_units st !! asset) + qty]> (ps_units st);
       ps_cost_basis :=
         <[asset := default 0 (ps_cost_basis st !! asset) + cost]> (ps_cost_basis st);
       ps_result := ps_result st |}
  else if is_type t "SELL" then
    let qty := num0 (t_quantity t) in
    let price := num0 (t_price t) in
    let fee := num0 (t_fee t) in
    let u := default 0 (ps_units st !! asset) in
    let c := default 0 (ps_cost_basis st !! asset) in
    if Qle_bool u 0 then
      {| ps_units := ps_units st; ps_cost_basis := ps_cost_basis st;
         ps_result := <[tid := 0]> (ps_result st) |}
    else
      let sold := if Qle_bool qty u then qty else u in
      let cost_per_unit := c / u in
      let cost_of_sold := cost_per_unit * sold in
      let proceeds := price * sold in
      {| ps_units := <[asset := u - sold]> (ps_units st);
         ps_cost_basis := <[asset := c - cost_of_sold]> (ps_cost_basis st);
         ps_result := <[tid := proceeds - cost_of_sold - fee]> (ps_result st) |}
  else st.

Definition pnl_state0 : pnl_state :=
  {| ps_units := ∅; ps_cost_basis := ∅; ps_result := ∅ |}.

(** [sorted(trades, key=lambda t: t["date"])]: the key raises on a record
    without a date. *)
Definition sorted_by_date_strict (trades : list trade) : result (list trade) :=
  if forallb (λ t, bool_decide (is_Some (t_date t))) trades
  then Ok (sort_by date_key trades) else Raise KeyError.

(** The [method] argument is not read by the body. *)
Definition compute_realized_pnl_per_trade (trades : list trade) (method : string)
  : result (gmap string Q) :=
  result_bind (sorted_by_date_strict trades)
    (λ sorted_trades, Ok (ps_result (foldl pnl_step pnl_state0 sorted_trades))).

(** ** The object store

    Python lists and dicts are objects with identity: [list(x)] and a list
    comprehension make a new list that refers to the same dicts, [l.sort()],
    [l.append(x)], [l.pop()] and [d[k] -= v] change an object in place.  The
    store below holds the objects; a location is an index into it, and a new
    object goes to the end.  [Store] writes the engines, the aggregator and
    the projection over this store, every read and write of the source in
    its place. *)

Abbreviation loc := nat.

Inductive pyobj :=
| PTrade (t : trade)
| PLot (l : lot)
| PList (xs : list loc).

Abbreviation heap := (list pyobj).

Module Store.

(** A computation may change the store and may raise; the store is
    returned in both cases. *)
Definition M (A : Type) : Type := heap → heap * result A.

Definition ret {A} (a : A) : M A := λ h, (h, Ok a).

Definition bind {A B} (m : M A) (f : A → M B) : M B :=
  λ h, match m h with
       | (h', Ok a) => f a h'
       | (h', Raise e) => (h', Raise e)
       end.

Definition raise {A} (e : exn) : M A := λ h, (h, Raise e).

Definition lift {A} (r : result A) : M A := λ h, (h, r).

#[global] Instance M_ret : MRet M := @ret.
#[global] Instance M_bind : MBind M := λ A B f m, bind m f.

(** *** Primitive operations *)

(** A new object. *)
Definition alloc (o : pyobj) : M loc := λ h, (h ++ [o], Ok (length h)).

(** Reading a list object, a trade dict, a lot dict. *)
Definition load_list (r : loc) : M (list loc) :=
  λ h, match h !! r with
       | Some (PList xs) => (h, Ok xs)
       | _ => (h, Raise TypeError)
       end.

Definition load_trade (r : loc) : M trade :=
  λ h, match h !! r with
       | Some (PTrade t) => (h, Ok t)
       | _ => (h, Raise TypeError)
       end.

Definition load_lot (r : loc) : M lot :=
  λ h, match h !! r with
       | Some (PLot l) => (h, Ok l)
       | _ => (h, Raise TypeError)
       end.

(** Changing a list object in place. *)
Definition store_list (r : loc) (xs : list loc) : M unit :=
  λ h, match h !! r with
       | Some (PList _) => (<[r := PList xs]> h, Ok ())
       | _ => (h, Raise TypeError)
       end.

(** [lot[k] -= v]: changing a lot dict in place. *)
Definition update_lot (r : loc) (f : lot → lot) : M unit :=
  λ h, match h !! r with
       | Some (PLot l) => (<[r := PLot (f l)]> h, Ok ())
       | _ => (h, Raise TypeError)
       end.

(** *** List operations of the source *)

(** Reading the dicts a list refers to, in order. *)
Fixpoint load_trades (refs : list loc) : M (list trade) :=
  match refs with
  | [] => ret []
  | r :: refs' =>
      t ← load_trade r;
      ts ← load_trades refs';
      ret (t :: ts)
  end.

(** [list(x)] *)
Definition list_copy (r : loc) : M loc :=
  xs ← load_list r; alloc (PList xs).

(** [l.append(x)] *)
Definition list_append (r x : loc) : M unit :=
  xs ← load_list r; store_list r (xs ++ [x]).

(** [[t for t in trades if p(t)]] *)
Definition list_filter (p : trade → bool) (r : loc) : M loc :=
  xs ← load_list r;
  ts ← load_trades xs;
  alloc (PList (fst <$> filter (λ xt, p xt.2 = true) (zip xs ts))).

(** The order [sort] and [sorted] give to the references of a list. *)
Definition sorted_refs (xs : list loc) (ts : list trade) : list loc :=
  fst <$> sort_by (λ xt, date_key xt.2) (zip xs ts).

(** [l.sort(key=lambda x: x.get("date", ""))] *)
Definition sort_in_place (r : loc) : M unit :=
  xs ← load_list r;
  ts ← load_trades xs;
  store_list r (sorted_refs xs ts).

(** [sorted(l, key=lambda t: t.get("date", ""))] *)
Definition sorted (r : loc) : M loc :=
  xs ← load_list r;
  ts ← load_trades xs;
  alloc (PList (sorted_refs xs ts)).

(** *** The cost-basis engines *)

(** [asset_trades = [t for t in trades if t.get("asset") == asset]] and
    [asset_trades.sort(...)]. *)
Definition asset_history (trades : loc) (asset : string) : M loc :=
  asset_trades ← list_filter (λ t, is_asset t asset) trades;
  sort_in_place asset_trades;;
  ret asset_trades.

Definition acquire (lots : loc) (st : Q * Q) (t : trade) : M (Q * Q) :=
  let '(total_cost, units_held) := st in
  let qty := num0 (t_quantity t) in
  let total_val := cost_in t in
  let cost_per_unit := if Qeq_bool qty 0 then 0 else total_val / qty in
  if Qltb 0 cost_per_unit && Qltb 0 qty then
    (l ← alloc (PLot {| lot_quantity := qty;
                         lot_cost_per_unit := cost_per_unit;
                         lot_trade_id := t_id t;
                         lot_date := date_key t |});
     list_append lots l;;
     ret (total_cost + total_val, units_held + qty))
  else ret st.

(** The [while sell_qty > 0 and lots:] loop.  [front] tells which end of
    [lots] is taken: [lots[0]] and [pop(0)] for FIFO, [lots[-1]] and
    [pop()] for LIFO.  Every turn but the last removes a lot, so one more
    turn than there are lots is enough ([fuel]). *)
Definition pick (front : bool) (xs : list loc) : option (loc * list loc) :=
  if front then
    match xs with [] => None | x :: rest => Some (x, rest) end
  else
    match rev xs with [] => None | x :: rest => Some (x, rev rest) end.

Fixpoint match_lots (fuel : nat) (front : bool) (lots : loc)
    (sell_qty total_cost : Q) : M Q :=
  match fuel with
  | O => raise LoopBound
  | S fuel' =>
      xs ← load_list lots;
      match pick front xs with
      | None => ret total_cost
      | Some (x, rest) =>
          if Qltb 0 sell_qty then
            l ← load_lot x;
            let q := lot_quantity l in
            if Qle_bool q sell_qty then
              (store_list lots rest;;
               match_lots fuel' front lots (sell_qty - q)
                 (total_cost - q * lot_cost_per_unit l))
            else
              (update_lot x (λ l, lot_sub l sell_qty);;
               ret (total_cost - sell_qty * lot_cost_per_unit l))
          else ret total_cost
      end
  end.

Definition sell (front : bool) (lots : loc) (st : Q * Q) (t : trade)
  : M (Q * Q) :=
  let '(total_cost, units_held) := st in
  let sell_qty := num0 (t_quantity t) in
  let units_held := units_held - sell_qty in
  xs ← load_list lots;
  c ← match_lots (S (length xs)) front lots sell_qty total_cost;
  ret (c, units_held).

Definition lot_step (front : bool) (lots : loc) (st : Q * Q) (t : trade)
  : M (Q * Q) :=
  if is_acquisition t then acquire lots st t
  else if is_type t "SELL" then sell front lots st t
  else ret st.

(** [for trade in asset_trades:], each trade read when its turn comes. *)
Fixpoint lot_loop (front : bool) (lots : loc) (st : Q * Q) (refs : list loc)
  : M (Q * Q) :=
  match refs with
  | [] => ret st
  | r :: refs' =>
      t ← load_trade r;
      st' ← lot_step front lots st t;
      lot_loop front lots st' refs'
  end.

(** FIFO ([front = true]) and LIFO ([front = false]); the result is
    [(total_cost, units_held, lots)]. *)
Definition calculate_cost_basis_lots (front : bool) (trades : loc)
    (asset : string) : M (Q * Q * loc) :=
  asset_trades ← asset_history trades asset;
  lots ← alloc (PList []);
  refs ← load_list asset_trades;
  st ← lot_loop front lots (0, 0) refs;
  ret (st, lots).

Definition calculate_cost_basis_fifo := calculate_cost_basis_lots true.
Definition calculate_cost_basis_lifo := calculate_cost_basis_lots false.

Fixpoint average_loop (st : Q * Q) (refs : list loc) : M (Q * Q) :=
  match refs with
  | [] => ret st
  | r :: refs' =>
      t ← load_trade r;
      st' ← lift (average_step st t);
      average_loop st' refs'
  end.

Fixpoint alloc_lots (ls : list lot) : M (list loc) :=
  match ls with
  | [] => ret []
  | l :: ls' =>
      x ← alloc (PLot l);
      xs ← alloc_lots ls';
      ret (x :: xs)
  end.

Definition calculate_cost_basis_average (trades : loc) (asset : string)
  : M (Q * Q * loc) :=
  asset_trades ← asset_history trades asset;
  refs ← load_list asset_trades;
  st ← average_loop (0, 0) refs;
  xs ← alloc_lots (average_lots st.1 st.2);
  lots ← alloc (PList xs);
  ret (st, lots).

(** *** The aggregator *)

Definition cost_basis_by (cost_basis_method : string) (asset_trades : loc)
    (asset : string) : M (Q * Q * loc) :=
  let method := effective_method cost_basis_method in
  if String.eqb method "fifo" then calculate_cost_basis_fifo asset_trades asset
  else if String.eqb method "lifo" then calculate_cost_basis_lifo asset_trades asset
  else calculate_cost_basis_average asset_trades asset.

Definition asset_step (cost_basis_method : string)
    (get_current_price : string → option Q) (trades_sorted : loc)
    (acc : totals) (asset : string) : M totals :=
  let '(per_asset, total_cost_basis_assets, total_unrealized_pnl,
        total_value_assets) := acc in
  asset_trades ← list_filter (λ t, is_asset t asset) trades_sorted;
  refs ← load_list asset_trades;
  match refs with
  | [] => ret acc
  | _ =>
      '(cost_basis, units_held, _) ←
        cost_basis_by cost_basis_method asset_trades asset;
      ts ← load_trades refs;
      let e := asset_entry ts cost_basis units_held (get_current_price asset) in
      ret (<[asset := e]> per_asset,
           total_cost_basis_assets + cost_basis,
           total_unrealized_pnl + am_unrealized_pnl e,
           total_value_assets + am_current_value e)
  end.

Fixpoint asset_loop (cost_basis_method : string)
    (get_current_price : string → option Q) (trades_sorted : loc)
    (acc : totals) (assets : list string) : M totals :=
  match assets with
  | [] => ret acc
  | a :: rest =>
      acc' ← asset_step cost_basis_method get_current_price trades_sorted acc a;
      asset_loop cost_basis_method get_current_price trades_sorted acc' rest
  end.

Definition compute_portfolio_metrics (trades : loc)
    (cost_basis_method : string) (get_current_price : string → option Q)
  : M portfolio_metrics :=
  xs ← load_list trades;
  match xs with
  | [] => ret zero_metrics
  | _ =>
      trades_sorted ← sorted trades;
      refs ← load_list trades_sorted;
      ts ← load_trades refs;
      let total_external_cash := external_cash ts in
      s ← lift (crypto_asset_set ts);
      acc ← asset_loop cost_basis_method get_current_price trades_sorted
              totals0 (sorted_set s);
      ts' ← load_trades refs;
      ret (summarise ts' total_external_cash acc)
  end.

(** *** The projection

    [run_projection_from_table] without its widgets.  A row of the table
    is [Some] of its parsed cells, or [None] when parsing it raises
    ([ValueError], [IndexError]: the row is skipped).  [syn_date i] is the
    formatted [last_dt + timedelta(seconds=i + 1)] and [new_id i] the
    [uuid4] drawn for row [i]; the settings give [cost_basis_method] and
    the price provider [get_current_price].  The entries [exchange],
    [order_type] and [account_id] of a synthetic trade are read by none of
    the functions modelled and are left out. *)

Record proj_row := {
  pr_asset : string;
  pr_type : string;
  pr_price : Q;
  pr_quantity : Q
}.

Section Projection.
Variable cost_basis_method : string.
Variable get_current_price : string → option Q.
Variable syn_date : nat → string.
Variable new_id : nat → string.

Definition synthetic_trade (i : nat) (row : proj_row) : trade :=
  {| t_id := Some (new_id i);
     t_date := Some (syn_date i);
     t_asset := Some (pr_asset row);
     t_type := Some (pr_type row);
     t_price := Some (pr_price row);
     t_quantity := Some (pr_quantity row);
     t_fee := Some 0;
     t_total_value := Some (pr_price row * pr_quantity row) |}.

(** [for i, row in enumerate(...)] *)
Fixpoint add_rows (trades : loc) (i : nat) (rows : list (option proj_row))
  : M unit :=
  match rows with
  | [] => ret ()
  | row :: rest =>
      match row with
      | Some r =>
          if Qle_bool (pr_price r) 0 || Qle_bool (pr_quantity r) 0 then ret ()
          else (d ← alloc (PTrade (synthetic_trade i r));
                list_append trades d)
      | None => ret ()
      end;;
      add_rows trades (S i) rest
  end.

(** [data_trades] is the list object [self.data["trades"]].  The result
    is [None] when there is nothing to show. *)
Definition run_projection_from_table (data_trades : loc)
    (rows : list (option proj_row)) : M (option portfolio_metrics) :=
  real_trades ← list_copy data_trades;
  trades ← list_copy real_trades;
  add_rows trades 0 rows;;
  xs ← load_list trades;
  match xs with
  | [] => ret None
  | _ =>
      metrics ← compute_portfolio_metrics trades cost_basis_method
                  get_current_price;
      ret (Some metrics)
  end.
End Projection.

End Store.

(** ** The projection in the functional model *)

Section ProjectionModel.
Variable cost_basis_method : string.
Variable get_current_price : string → option Q.
Variable syn_date : nat → string.
Variable new_id : nat → string.

(** The trades the table adds, in the functional model. *)
Fixpoint synthetic_trades (i : nat) (rows : list (option Store.proj_row))
  : list trade :=
  match rows with
  | [] => []
  | row :: rest =>
      match row with
      | Some r =>
          if Qle_bool (Store.pr_price r) 0 || Qle_bool (Store.pr_quantity r) 0
          then []
          else [Store.synthetic_trade syn_date new_id i r]
      | None => []
      end ++ synthetic_trades (S i) rest
  end.

(** What the projection shows for the real trades and the table, in the
    functional model. *)
Definition projected_metrics (real_trades : list trade)
    (rows : list (option Store.proj_row)) : result (option portfolio_metrics) :=
  let trades := real_trades ++ synthetic_trades 0 rows in
  match trades with
  | [] => Ok None
  | _ :: _ =>
      result_bind
        (compute_portfolio_metrics trades cost_basis_method get_current_price)
        (λ metrics, Ok (Some metrics))
  end.
End ProjectionModel.

(** * Further functions

    The functions of [legacy_crypto_tracker.py], [ui/utils.py] and
    [services/storage.py] that compute on trades, accounts and metrics
    without widgets or files. *)

#[global] Instance result_ret : MRet result := @Ok.
#[global] Instance result_mbind : MBind result := λ A B f m, result_bind m f.

(** [d[k]]: the subscript raises on a missing entry. *)
Definition subscript {A} (x : option A) : result A :=
  match x with
  | Some v => Ok v
  | None => Raise KeyError
  end.

(** [max(0.0, x)] *)
Definition py_max0 (x : Q) : Q := if Qltb 0 x then x else 0.

(** ** Buy profit per trade *)

(** The two dictionaries of the loop: [last_sell_price], [result]. *)
Record buy_profit_state := {
  bp_last_sell_price : gmap string Q;
  bp_result : gmap string Q
}.

Definition buy_profit_step (st : buy_profit_state) (t : trade) : buy_profit_state :=
  let asset := asset_of t in
  let tid := tid_of t in
  if String.eqb asset "USD" then st
  else if is_type t "SELL" then
    let price := num0 (t_price t) in
    if Qltb 0 price then
      {| bp_last_sell_price := <[asset := price]> (bp_last_sell_price st);
         bp_result := bp_result st |}
    else st
  else if is_type t "BUY" then
    match bp_last_sell_price st !! asset with
    | Some last =>
        let buy_price := num0 (t_price t) in
        let qty := num0 (t_quantity t) in
        if Qltb 0 buy_price && Qltb 0 qty then
          {| bp_last_sell_price := bp_last_sell_price st;
             bp_result := <[tid := (last - buy_price) * qty]> (bp_result st) |}
        else st
    | None => st
    end
  else st.

Definition buy_profit_state0 : buy_profit_state :=
  {| bp_last_sell_price := ∅; bp_result := ∅ |}.

Definition compute_buy_profit_per_trade (trades : list trade)
  : result (gmap string Q) :=
  sorted_trades ← sorted_by_date_strict trades;
  Ok (bp_result (foldl buy_profit_step buy_profit_state0 sorted_trades)).

(** ** Available and held quantities

    Methods of the application on [self.data["trades"]]; the settings give
    [cost_basis_method] and the price provider [get_current_price]. *)

(** [[t for t in trades if t["asset"] == asset]] *)
Fixpoint strict_asset_filter (trades : list trade) (asset : string)
  : result (list trade) :=
  match trades with
  | [] => Ok []
  | t :: ts =>
      a ← subscript (t_asset t);
      rest ← strict_asset_filter ts asset;
      Ok (if String.eqb a asset then t :: rest else rest)
  end.

Definition available_step (qty : Q) (t : trade) : result Q :=
  ttype ← subscript (t_type t);
  if String.eqb ttype "BUY" || String.eqb ttype "Transfer" then
    q ← subscript (t_quantity t); Ok (qty + q)
  else if String.eqb ttype "SELL" then
    q ← subscript (t_quantity t); Ok (qty - q)
  else if String.eqb ttype "Holding" then
    q ← subscript (t_quantity t); Ok (qty - q)
  else Ok qty.

Fixpoint available_loop (qty : Q) (ts : list trade) : result Q :=
  match ts with
  | [] => Ok qty
  | t :: ts' => qty' ← available_step qty t; available_loop qty' ts'
  end.

Definition get_available_quantity (trades : list trade)
    (cost_basis_method : string) (get_current_price : string → option Q)
    (asset : string) : result Q :=
  if String.eqb asset "USD" then
    metrics ← compute_portfolio_metrics trades cost_basis_method get_current_price;
    Ok (py_max0 (usd_balance metrics))
  else
    asset_trades ← strict_asset_filter trades asset;
    asset_trades ← sorted_by_date_strict asset_trades;
    qty ← available_loop 0 asset_trades;
    Ok (py_max0 qty).

(** The terms of
    [sum(t["quantity"] for t in trades if t["asset"] == asset and t["type"] == "Holding")]. *)
Fixpoint holding_terms (trades : list trade) (asset : string) : result (list Q) :=
  match trades with
  | [] => Ok []
  | t :: ts =>
      a ← subscript (t_asset t);
      if String.eqb a asset then
        ttype ← subscript (t_type t);
        if String.eqb ttype "Holding" then
          q ← subscript (t_quantity t);
          rest ← holding_terms ts asset;
          Ok (q :: rest)
        else holding_terms ts asset
      else holding_terms ts asset
  end.

Definition get_holding_quantity (trades : list trade) (asset : string) : result Q :=
  terms ← holding_terms trades asset; Ok (py_sum terms).

(** [asset_filter] is [None] or a string; an empty string is false. *)
Definition _trades_for_metric_scope (trades : list trade)
    (asset_filter : option string) : list trade :=
  match asset_filter with
  | Some a =>
      if nonempty a then
        filter (λ t, is_asset t a || is_asset t "USD" = true) trades
      else trades
  | None => trades
  end.

(** ** The order of the exchanges

    [fee_structure] is a dict; [keys] are its keys in order. *)
Definition _ordered_exchanges {V} (fee_structure : list (string * V)) : list string :=
  let keys := fee_structure.*1 in
  let ordered :=
    filter (λ x, x ∈ keys) ["Bitstamp"; "Wallet"]%string
    ++ sort_by id (filter (λ x, x ∉ ["Bitstamp"; "Wallet"]%string) keys) in
  match ordered with
  | [] => keys
  | _ :: _ => ordered
  end.

(** ** Change of the portfolio over 24 hours

    [per_asset] are the items of the dict, in its order; [get_24h_pct] is
    the method of that name (the percentage from the price cache). *)
Definition pct_step (get_24h_pct : string → option Q) (acc : Q * Q)
    (item : string * asset_metrics) : Q * Q :=
  let '(total_value, weighted_sum) := acc in
  let val := am_current_value item.2 in
  match get_24h_pct item.1 with
  | Some pct =>
      if Qltb 0 val then (total_value + val, weighted_sum + val * pct)
      else acc
  | None => acc
  end.

Definition portfolio_24h_pct (get_24h_pct : string → option Q)
    (per_asset : list (string * asset_metrics)) : option Q :=
  let '(total_value, weighted_sum) :=
    foldl (pct_step get_24h_pct) (0, 0) per_asset in
  if Qle_bool total_value 0 then None else Some (weighted_sum / total_value).

Definition usd_24h_step (get_24h_pct : string → option Q) (total_usd : Q)
    (item : string * asset_metrics) : result Q :=
  let val := am_current_value item.2 in
  match get_24h_pct item.1 with
  | Some pct =>
      if Qltb 0 val then
        r ← py_div pct (100 + pct); Ok (total_usd + val * r)
      else Ok total_usd
  | None => Ok total_usd
  end.

Fixpoint usd_24h_loop (get_24h_pct : string → option Q) (total_usd : Q)
    (items : list (string * asset_metrics)) : result Q :=
  match items with
  | [] => Ok total_usd
  | item :: rest =>
      total_usd' ← usd_24h_step get_24h_pct total_usd item;
      usd_24h_loop get_24h_pct total_usd' rest
  end.

Definition portfolio_24h_usd (get_24h_pct : string → option Q)
    (per_asset : list (string * asset_metrics)) : result (option Q) :=
  total_usd ← usd_24h_loop get_24h_pct 0 per_asset;
  Ok (if Qeq_bool total_usd 0 then None else Some total_usd).

(** ** The colour of a value *)

Definition APPLE_COLOR_PROFIT : string := "#30D158".
Definition APPLE_COLOR_LOSS : string := "#FF3B30".
Definition SUMMARY_DESC_COLOR : string := "#888888".

(** [value] is [None] or a number; the threshold [1e-9] is taken as the
    rational it denotes. *)
Definition color_for_value (value : option Q) : string :=
  match value with
  | None => SUMMARY_DESC_COLOR
  | Some v =>
      if Qltb (Qabs v) (1 # 1000000000) then SUMMARY_DESC_COLOR
      else if Qltb 0 v then APPLE_COLOR_PROFIT else APPLE_COLOR_LOSS
  end.

(** ** Accounts and groups

    The part of the data dict the account functions read and write.  An
    id made by [uuid4] and the creation time are arguments. *)

Record account := {
  acc_id : option string;
  acc_name : option string;
  acc_group_id : option string;
  acc_created_date : option string
}.

Record account_group := {
  grp_id : option string;
  grp_name : option string;
  grp_accounts : option (list string)
}.

Record account_data := {
  d_account_groups : option (list account_group);
  d_accounts : option (list account)
}.

#[global] Instance account_eq_dec : EqDecision account.
Proof. solve_decision. Defined.

(** [x.get(k) == s] for a string [s] *)
Definition entry_is (x : option string) (s : string) : bool :=
  match x with Some v => String.eqb v s | None => false end.

(** [x.get(k) in ids] for a set of strings [ids] *)
Definition member_of (x : option string) (ids : list string) : bool :=
  match x with Some v => bool_decide (v ∈ ids) | None => false end.

(** [next((g for g in groups if g.get("id") == group_id), None)] *)
Definition find_group (groups : list account_group) (group_id : string)
  : option account_group :=
  head (filter (λ g, entry_is (grp_id g) group_id = true) groups).

Definition get_accounts (data : account_data) (group_id : option string)
  : list account :=
  let accounts := default [] (d_accounts data) in
  match group_id with
  | None => accounts
  | Some gid =>
      if negb (nonempty gid) then accounts
      else
        let group := find_group (default [] (d_account_groups data)) gid in
        let member_ids :=
          match group with
          | Some g => default [] (grp_accounts g)
          | None => []
          end in
        match member_ids with
        | _ :: _ =>
            filter (λ a, entry_is (acc_group_id a) gid
                         && member_of (acc_id a) member_ids = true)
              accounts
        | [] => filter (λ a, entry_is (acc_group_id a) gid = true) accounts
        end
  end.

Definition create_account_group_in_data (data : account_data) (name : string)
    (group_id : string) : account_data :=
  let group := {| grp_id := Some group_id; grp_name := Some name;
                  grp_accounts := Some [] |} in
  {| d_account_groups := Some (default [] (d_account_groups data) ++ [group]);
     d_accounts := d_accounts data |}.

(** The loop over the groups: the first group with the id gets the account,
    unless it has it. *)
Fixpoint add_member (groups : list account_group) (group_id account_id : string)
  : list account_group :=
  match groups with
  | [] => []
  | g :: rest =>
      if entry_is (grp_id g) group_id then
        (if bool_decide (account_id ∈ default [] (grp_accounts g)) then g
         else {| grp_id := grp_id g; grp_name := grp_name g;
                 grp_accounts := Some (default [] (grp_accounts g) ++ [account_id]) |})
        :: rest
      else g :: add_member rest group_id account_id
  end.

Definition create_account_in_data (data : account_data) (name : string)
    (group_id : option string) (account_id created_date : string) : account_data :=
  let account := {| acc_id := Some account_id; acc_name := Some name;
                    acc_group_id := group_id;
                    acc_created_date := Some created_date |} in
  let accounts := default [] (d_accounts data) ++ [account] in
  match group_id, d_account_groups data with
  | Some gid, Some groups =>
      if nonempty gid then
        {| d_account_groups := Some (add_member groups gid account_id);
           d_accounts := Some accounts |}
      else {| d_account_groups := Some groups; d_accounts := Some accounts |}
  | _, groups => {| d_account_groups := groups; d_accounts := Some accounts |}
  end.

(** A trade dict with its [account_id] entry; [trades] is
    [data.get("trades", [])]. *)
Fixpoint assign_trade_to_account (trades : list (trade * option string))
    (trade_id account_id : string) : list (trade * option string) * bool :=
  match trades with
  | [] => ([], false)
  | (t, acc) :: rest =>
      if entry_is (t_id t) trade_id then ((t, Some account_id) :: rest, true)
      else
        let '(rest', found) := assign_trade_to_account rest trade_id account_id in
        ((t, acc) :: rest', found)
  end.

(** ** Migration of the fees

    The fee of an exchange in the stored settings is a number (the old
    form) or a dict with the entries [maker] and [taker], either of which
    may be absent. *)
Inductive fee_value :=
| FeeNumber (fee : Q)
| FeeDict (maker taker : option Q).

Definition migrate_fee (fee : fee_value) : fee_value :=
  match fee with
  | FeeDict (Some m) (Some t) => FeeDict (Some m) (Some t)
  | FeeNumber f => FeeDict (Some f) (Some f)
  | FeeDict maker taker =>
      let f := py_or maker (num0 taker) in
      FeeDict (Some f) (Some f)
  end.

Definition migrate_exchange_fees (old_exchanges : gmap string fee_value)
  : gmap string fee_value :=
  migrate_fee <$> old_exchanges.

(** * The engines and the aggregator in binary64

    The same functions of [services/metrics.py] once more, statement by
    statement, with the numbers of the code: Python's [float] is IEEE 754
    binary64 with rounding to nearest, which is what the kernel's
    primitive floats are.  A division by zero raises, as in Python; the
    other operations never raise (they give an infinity or a NaN).  The
    integer [0] of [x or 0] and of an empty [sum] is the float [0]. *)

Module Float64.
Local Open Scope float_scope.

Record trade := {
  t_id : option string;
  t_date : option string;
  t_asset : option string;
  t_type : option string;
  t_price : option float;
  t_quantity : option float;
  t_fee : option float;
  t_total_value : option float
}.

(** [t.get(k) or 0]: a zero entry is false. *)
Definition num0 (x : option float) : float :=
  match x with
  | Some v => if v =? 0 then 0 else v
  | None => 0
  end.

(** [t.get(k, 0)] *)
Definition get0 (x : option float) : float := default 0 x.

(** [x / y] of Python: division by zero raises. *)
Definition py_div (x y : float) : result float :=
  if y =? 0 then Raise ZeroDivisionError else Ok (x / y).

Definition is_type (t : trade) (s : string) : bool :=
  match t_type t with Some x => String.eqb x s | None => false end.

Definition is_asset (t : trade) (a : string) : bool :=
  match t_asset t with Some x => String.eqb x a | None => false end.

Definition is_acquisition (t : trade) : bool :=
  is_type t "BUY" || is_type t "Transfer".

Definition date_key (t : trade) : string := default EmptyString (t_date t).

Definition cost_in (t : trade) : float := num0 (t_total_value t) + num0 (t_fee t).

Definition proceeds_out (t : trade) : float := num0 (t_total_value t) - num0 (t_fee t).

(** ** The cost-basis engines *)

Record lot := {
  lot_quantity : float;
  lot_cost_per_unit : float;
  lot_trade_id : option string;
  lot_date : string
}.

Definition lot_sub (l : lot) (q : float) : lot :=
  {| lot_quantity := lot_quantity l - q;
     lot_cost_per_unit := lot_cost_per_unit l;
     lot_trade_id := lot_trade_id l;
     lot_date := lot_date l |}.

Definition ledger : Type := float * float * list lot.

Definition asset_history (trades : list trade) (asset : string) : list trade :=
  sort_by date_key (filter (λ t, is_asset t asset = true) trades).

Definition acquire (st : ledger) (t : trade) : ledger :=
  let '(total_cost, units_held, lots) := st in
  let qty := num0 (t_quantity t) in
  let total_val := cost_in t in
  let cost_per_unit := if qty =? 0 then 0 else total_val / qty in
  if (0 <? cost_per_unit) && (0 <? qty) then
    (total_cost + total_val,
     units_held + qty,
     lots ++ [ {| lot_quantity := qty;
                  lot_cost_per_unit := cost_per_unit;
                  lot_trade_id := t_id t;
                  lot_date := date_key t |} ])
  else st.

Fixpoint match_lots (lots : list lot) (sell_qty total_cost : float)
  : float * list lot :=
  match lots with
  | [] => (total_cost, [])
  | l :: rest =>
      if 0 <? sell_qty then
        let q := lot_quantity l in
        if q <=? sell_qty then
          match_lots rest (sell_qty - q) (total_cost - q * lot_cost_per_unit l)
        else
          (total_cost - sell_qty * lot_cost_per_unit l, lot_sub l sell_qty :: rest)
      else (total_cost, lots)
  end.

Definition sell_fifo (st : ledger) (t : trade) : ledger :=
  let '(total_cost, units_held, lots) := st in
  let sell_qty := num0 (t_quantity t) in
  let '(c, ls) := match_lots lots sell_qty total_cost in
  (c, units_held - sell_qty, ls).

Definition sell_lifo (st : ledger) (t : trade) : ledger :=
  let '(total_cost, units_held, lots) := st in
  let sell_qty := num0 (t_quantity t) in
  let '(c, ls) := match_lots (rev lots) sell_qty total_cost in
  (c, units_held - sell_qty, rev ls).

Definition fifo_step (st : ledger) (t : trade) : ledger :=
  if is_acquisition t then acquire st t
  else if is_type t "SELL" then sell_fifo st t
  else st.

Definition lifo_step (st : ledger) (t : trade) : ledger :=
  if is_acquisition t then acquire st t
  else if is_type t "SELL" then sell_lifo st t
  else st.

Definition ledger0 : ledger := (0, 0, []).

Definition calculate_cost_basis_fifo (trades : list trade) (asset : string) : ledger :=
  foldl fifo_step ledger0 (asset_history trades asset).

Definition calculate_cost_basis_lifo (trades : list trade) (asset : string) : ledger :=
  foldl lifo_step ledger0 (asset_history trades asset).

Definition average_step (st : float * float) (t : trade) : result (float * float) :=
  let '(total_cost, units_held) := st in
  if is_acquisition t then
    Ok (total_cost + cost_in t, units_held + num0 (t_quantity t))
  else if is_type t "SELL" then
    let sell_qty := num0 (t_quantity t) in
    let units_held := units_held - sell_qty in
    if 0 <? units_held then
      result_bind (py_div total_cost (units_held + sell_qty))
        (λ avg, Ok (units_held * avg, units_held))
    else Ok (0, units_held)
  else Ok st.

Fixpoint average_loop (st : float * float) (ts : list trade) : result (float * float) :=
  match ts with
  | [] => Ok st
  | t :: ts' => result_bind (average_step st t) (λ st', average_loop st' ts')
  end.

Definition average_lots (total_cost units_held : float) : list lot :=
  if 0 <? units_held then
    [ {| lot_quantity := units_held;
         lot_cost_per_unit := total_cost / units_held;
         lot_trade_id := Some "average"%string;
         lot_date := "average"%string |} ]
  else [].

Definition calculate_cost_basis_average (trades : list trade) (asset : string)
  : result ledger :=
  result_bind (average_loop (0, 0) (asset_history trades asset))
    (λ '(total_cost, units_held),
       Ok (total_cost, units_held, average_lots total_cost units_held)).

(** ** The aggregator *)

Record asset_metrics := {
  am_units_held : float;
  am_holding_qty : float;
  am_price : option float;
  am_current_value : float;
  am_cost_basis : float;
  am_unrealized_pnl : float;
  am_realized_pnl : float;
  am_lifetime_pnl : float;
  am_roi_pct : float
}.

Record portfolio_metrics := {
  per_asset : gmap string asset_metrics;
  usd_balance : float;
  total_value : float;
  total_external_cash : float;
  total_cost_basis_assets : float;
  realized_pnl : float;
  unrealized_pnl : float;
  total_pnl : float;
  roi_pct : float;
  roi_on_cost_pct : option float
}.

(** [sum(...)]: starts from 0 and adds from the left.  (From version 3.12
    on CPython compensates the rounding error of a sum of floats; on a sum
    of at most one float, as in the evaluations of this file, the result
    is the same.) *)
Definition py_sum (l : list float) : float := foldl PrimFloat.add 0 l.

(** [x or y] on a number that may be absent. *)
Definition py_or (x : option float) (y : float) : float :=
  match x with
  | Some v => if v =? 0 then y else v
  | None => y
  end.

Definition zero_metrics : portfolio_metrics :=
  {| per_asset := ∅; usd_balance := 0; total_value := 0;
     total_external_cash := 0; total_cost_basis_assets := 0;
     realized_pnl := 0; unrealized_pnl := 0; total_pnl := 0;
     roi_pct := 0; roi_on_cost_pct := None |}.

Fixpoint crypto_asset_set (ts : list trade) : result (gset string) :=
  match ts with
  | [] => Ok ∅
  | t :: ts' =>
      if negb (is_asset t "USD") then
        match t_asset t with
        | None => Raise KeyError
        | Some a => result_bind (crypto_asset_set ts') (λ s, Ok ({[a]} ∪ s))
        end
      else crypto_asset_set ts'
  end.

Definition cost_basis_by (cost_basis_method : string)
    (asset_trades : list trade) (asset : string) : result ledger :=
  let method := effective_method cost_basis_method in
  if String.eqb method "fifo" then Ok (calculate_cost_basis_fifo asset_trades asset)
  else if String.eqb method "lifo" then Ok (calculate_cost_basis_lifo asset_trades asset)
  else calculate_cost_basis_average asset_trades asset.

Definition buy_cost (ts : list trade) : float :=
  py_sum (cost_in <$> filter (λ t, is_acquisition t = true) ts).

Definition sell_proceeds (ts : list trade) : float :=
  py_sum (proceeds_out <$> filter (λ t, is_type t "SELL" = true) ts).

Definition realized_of (ts : list trade) (cost_basis : float) : float :=
  sell_proceeds ts - (buy_cost ts - cost_basis).

Definition asset_entry (asset_trades : list trade) (cost_basis units_held : float)
    (price : option float) : asset_metrics :=
  let realized_pnl_asset := realized_of asset_trades cost_basis in
  let holding_qty :=
    py_sum ((λ t, get0 (t_quantity t)) <$>
            filter (λ t, is_type t "Holding" = true) asset_trades) in
  let total_units_for_value := units_held + holding_qty in
  let current_value :=
    match price with
    | None => cost_basis
    | Some p => if p <=? 0 then cost_basis else total_units_for_value * p
    end in
  let unrealized := current_value - cost_basis in
  let roi_pct_asset :=
    if 0 <? cost_basis then unrealized / cost_basis * 100 else 0 in
  {| am_units_held := units_held;
     am_holding_qty := holding_qty;
     am_price := price;
     am_current_value := current_value;
     am_cost_basis := cost_basis;
     am_unrealized_pnl := unrealized;
     am_realized_pnl := realized_pnl_asset;
     am_lifetime_pnl := realized_pnl_asset + unrealized;
     am_roi_pct := roi_pct_asset |}.

Definition totals : Type := gmap string asset_metrics * float * float * float.

Definition asset_step (cost_basis_method : string)
    (get_current_price : string → option float) (trades_sorted : list trade)
    (acc : totals) (asset : string) : result totals :=
  let '(per_asset, total_cost_basis_assets, total_unrealized_pnl,
        total_value_assets) := acc in
  let asset_trades := filter (λ t, is_asset t asset = true) trades_sorted in
  match asset_trades with
  | [] => Ok acc
  | _ =>
      result_bind (cost_basis_by cost_basis_method asset_trades asset)
        (λ '(cost_basis, units_held, _),
           let e := asset_entry asset_trades cost_basis units_held
                      (get_current_price asset) in
           Ok (<[asset := e]> per_asset,
               total_cost_basis_assets + cost_basis,
               total_unrealized_pnl + am_unrealized_pnl e,
               total_value_assets + am_current_value e))
  end.

Fixpoint asset_loop (cost_basis_method : string)
    (get_current_price : string → option float) (trades_sorted : list trade)
    (acc : totals) (assets : list string) : result totals :=
  match assets with
  | [] => Ok acc
  | a :: rest =>
      result_bind (asset_step cost_basis_method get_current_price trades_sorted acc a)
        (λ acc', asset_loop cost_basis_method get_current_price trades_sorted acc' rest)
  end.

Definition usd_step (usd_balance : float) (t : trade) : float :=
  if is_asset t "USD" || negb (is_type t "BUY" || is_type t "SELL") then usd_balance
  else
    let total_val :=
      py_or (t_total_value t) (num0 (t_price t) * num0 (t_quantity t)) in
    let fee := num0 (t_fee t) in
    if is_type t "BUY" then usd_balance - (total_val + fee)
    else usd_balance + (total_val - fee).

Definition external_cash (trades_sorted : list trade) : float :=
  let usd_deposits :=
    py_sum ((λ t, get0 (t_quantity t)) <$>
            filter (λ t, is_asset t "USD" && is_type t "Deposit" = true) trades_sorted) in
  let usd_withdrawals :=
    py_sum ((λ t, get0 (t_quantity t)) <$>
            filter (λ t, is_asset t "USD" && is_type t "Withdrawal" = true) trades_sorted) in
  usd_deposits - usd_withdrawals.

Definition summarise (trades_sorted : list trade) (total_external_cash : float)
    (acc : totals) : portfolio_metrics :=
  let '(per_asset, total_cost_basis_assets, total_unrealized_pnl,
        total_value_assets) := acc in
  let usd_balance := foldl usd_step total_external_cash trades_sorted in
  let total_value := total_value_assets + usd_balance in
  let total_buy_cost :=
    py_sum (cost_in <$>
            filter (λ t, is_acquisition t && negb (is_asset t "USD") = true)
              trades_sorted) in
  let total_sell_proceeds :=
    py_sum (proceeds_out <$>
            filter (λ t, is_type t "SELL" && negb (is_asset t "USD") = true)
              trades_sorted) in
  let realized_pnl :=
    total_sell_proceeds - (total_buy_cost - total_cost_basis_assets) in
  let total_pnl := realized_pnl + total_unrealized_pnl in
  let roi_pct :=
    if 0 <? total_external_cash
    then total_pnl / total_external_cash * 100 else 0 in
  let roi_on_cost_pct :=
    if 0 <? total_cost_basis_assets
    then Some (total_pnl / total_cost_basis_assets * 100) else None in
  {| per_asset := per_asset;
     usd_balance := usd_balance;
     total_value := total_value;
     total_external_cash := total_external_cash;
     total_cost_basis_assets := total_cost_basis_assets;
     realized_pnl := realized_pnl;
     unrealized_pnl := total_unrealized_pnl;
     total_pnl := total_pnl;
     roi_pct := roi_pct;
     roi_on_cost_pct := roi_on_cost_pct |}.

Definition totals0 : totals := (∅, 0, 0, 0).

Definition compute_portfolio_metrics (trades : list trade)
    (cost_basis_method : string) (get_current_price : string → option float)
  : result portfolio_metrics :=
  match trades with
  | [] => Ok zero_metrics
  | _ =>
      let trades_sorted := sort_by date_key trades in
      let total_external_cash := external_cash trades_sorted in
      result_bind (crypto_asset_set trades_sorted) (λ s,
      let crypto_assets := sorted_set s in
      result_bind
        (asset_loop cost_basis_method get_current_price trades_sorted
           totals0 crypto_assets)
        (λ acc, Ok (summarise trades_sorted total_external_cash acc)))
  end.
(** ** Quantities available and held, change over 24 hours *)

(** [max(0.0, x)] *)
Definition py_max0 (x : float) : float := if 0 <? x then x else 0.

Fixpoint strict_asset_filter (trades : list trade) (asset : string)
  : result (list trade) :=
  match trades with
  | [] => Ok []
  | t :: ts =>
      a ← subscript (t_asset t);
      rest ← strict_asset_filter ts asset;
      Ok (if String.eqb a asset then t :: rest else rest)
  end.

Definition sorted_by_date_strict (trades : list trade) : result (list trade) :=
  if forallb (λ t, bool_decide (is_Some (t_date t))) trades
  then Ok (sort_by date_key trades) else Raise KeyError.

Definition available_step (qty : float) (t : trade) : result float :=
  ttype ← subscript (t_type t);
  if String.eqb ttype "BUY" || String.eqb ttype "Transfer" then
    q ← subscript (t_quantity t); Ok (qty + q)
  else if String.eqb ttype "SELL" then
    q ← subscript (t_quantity t); Ok (qty - q)
  else if String.eqb ttype "Holding" then
    q ← subscript (t_quantity t); Ok (qty - q)
  else Ok qty.

Fixpoint available_loop (qty : float) (ts : list trade) : result float :=
  match ts with
  | [] => Ok qty
  | t :: ts' => qty' ← available_step qty t; available_loop qty' ts'
  end.

Definition get_available_quantity (trades : list trade)
    (cost_basis_method : string) (get_current_price : string → option float)
    (asset : string) : result float :=
  if String.eqb asset "USD" then
    metrics ← compute_portfolio_metrics trades cost_basis_method get_current_price;
    Ok (py_max0 (usd_balance metrics))
  else
    asset_trades ← strict_asset_filter trades asset;
    asset_trades ← sorted_by_date_strict asset_trades;
    qty ← available_loop 0 asset_trades;
    Ok (py_max0 qty).

Fixpoint holding_terms (trades : list trade) (asset : string) : result (list float) :=
  match trades with
  | [] => Ok []
  | t :: ts =>
      a ← subscript (t_asset t);
      if String.eqb a asset then
        ttype ← subscript (t_type t);
        if String.eqb ttype "Holding" then
          q ← subscript (t_quantity t);
          rest ← holding_terms ts asset;
          Ok (q :: rest)
        else holding_terms ts asset
      else holding_terms ts asset
  end.

Definition get_holding_quantity (trades : list trade) (asset : string)
  : result float :=
  terms ← holding_terms trades asset; Ok (py_sum terms).

Definition pct_step (get_24h_pct : string → option float) (acc : float * float)
    (item : string * asset_metrics) : float * float :=
  let '(total_value, weighted_sum) := acc in
  (* data.get("current_value") or 0.0 *)
  let val := num0 (Some (am_current_value item.2)) in
  match get_24h_pct item.1 with
  | Some pct =>
      if 0 <? val then (total_value + val, weighted_sum + val * pct)
      else acc
  | None => acc
  end.

Definition portfolio_24h_pct (get_24h_pct : string → option float)
    (per_asset : list (string * asset_metrics)) : option float :=
  let '(total_value, weighted_sum) :=
    foldl (pct_step get_24h_pct) (0, 0) per_asset in
  if total_value <=? 0 then None else Some (weighted_sum / total_value).
End Float64.

(** * Properties *)

(** ** Comparisons and sorting *)

Lemma Qltb_lt x y : Qltb x y = true ↔ x < y.
Proof.
  unfold Qltb. rewrite negb_true_iff, <- not_true_iff_false, Qle_bool_iff.
  split; [apply Qnot_le_lt | apply Qlt_not_le].
Qed.

Lemma Qltb_ge x y : Qltb x y = false ↔ y <= x.
Proof. unfold Qltb. rewrite negb_false_iff. apply Qle_bool_iff. Qed.

Lemma Qle_bool_gt x y : Qle_bool x y = false ↔ y < x.
Proof.
  rewrite <- not_true_iff_false, Qle_bool_iff.
  split; [apply Qnot_le_lt | apply Qlt_not_le].
Qed.

Section SortFacts.
Context {A : Type} (key : A → string).

Lemma insert_by_perm x l : insert_by key x l ≡ₚ x :: l.
Proof.
  induction l as [|y l IH]; simpl; [done|].
  destruct (String.leb _ _); [done|]. rewrite IH. apply Permutation_swap.
Qed.

Lemma sort_by_perm l : sort_by key l ≡ₚ l.
Proof.
  induction l as [|x l IH]; simpl; [done|].
  rewrite insert_by_perm. by rewrite IH.
Qed.


Lemma sort_by_length l : length (sort_by key l) = length l.
Proof. by rewrite sort_by_perm. Qed.

Lemma sort_by_Forall (P : A → Prop) l : Forall P l → Forall P (sort_by key l).
Proof. by rewrite sort_by_perm. Qed.

Lemma sort_by_pair x y :
  sort_by key [x; y] = if String.leb (key x) (key y) then [x; y] else [y; x].
Proof. reflexivity. Qed.

Lemma sort_by_nil_inv l : sort_by key l = [] → l = [].
Proof.
  intros H. apply Permutation_nil_r. rewrite <- H. symmetry. apply sort_by_perm.
Qed.
End SortFacts.

(** Equal keys keep the order they came in. *)
Example sort_by_keeps_ties :
  sort_by snd [(1%nat, "b"); (2%nat, "a"); (3%nat, "b"); (4%nat, "a")]%string
  = [(2%nat, "a"); (4%nat, "a"); (1%nat, "b"); (3%nat, "b")]%string.
Proof. reflexivity. Qed.

(** ** The lots of FIFO and LIFO carry the cost basis *)

(** The sum over the lots of quantity times unit cost. *)
Definition lots_cost (ls : list lot) : Q :=
  foldr (λ l acc, lot_quantity l * lot_cost_per_unit l + acc) 0 ls.

Definition lot_pos (l : lot) : Prop :=
  0 < lot_quantity l ∧ 0 < lot_cost_per_unit l.

Definition ledger_inv (st : ledger) : Prop :=
  st.1.1 == lots_cost st.2 ∧ Forall lot_pos st.2.

Lemma lots_cost_cons l ls :
  lots_cost (l :: ls) = lot_quantity l * lot_cost_per_unit l + lots_cost ls.
Proof. reflexivity. Qed.

Lemma lots_cost_app ls1 ls2 :
  lots_cost (ls1 ++ ls2) == lots_cost ls1 + lots_cost ls2.
Proof.
  induction ls1 as [|l ls1 IH].
  - cbn [app]. unfold lots_cost at 2. cbn [foldr]. lra.
  - change ((l :: ls1) ++ ls2) with (l :: (ls1 ++ ls2)).
    rewrite !lots_cost_cons, IH. lra.
Qed.

Lemma lots_cost_rev ls : lots_cost (rev ls) == lots_cost ls.
Proof.
  induction ls as [|l ls IH]; [reflexivity|].
  cbn [rev]. rewrite lots_cost_app, IH, !lots_cost_cons.
  unfold lots_cost at 2. cbn [foldr]. lra.
Qed.

Lemma lots_cost_nonneg ls : Forall lot_pos ls → 0 <= lots_cost ls.
Proof.
  induction 1 as [|l ls [Hq Hc] _ IH]; [apply Qle_refl|].
  rewrite lots_cost_cons.
  pose proof (Qmult_lt_0_compat _ _ Hq Hc). lra.
Qed.

Lemma match_lots_inv lots sell_qty total_cost :
  Forall lot_pos lots →
  (match_lots lots sell_qty total_cost).1 - lots_cost (match_lots lots sell_qty total_cost).2
    == total_cost - lots_cost lots
  ∧ Forall lot_pos (match_lots lots sell_qty total_cost).2.
Proof.
  intros Hpos. revert sell_qty total_cost.
  induction Hpos as [|l rest [Hq Hc] Hrest IH]; intros sell_qty total_cost.
  - cbn [match_lots fst snd]. split; [reflexivity | constructor].
  - cbn [match_lots].
    destruct (Qltb 0 sell_qty) eqn:Hs; cbn [fst snd].
    + destruct (Qle_bool (lot_quantity l) sell_qty) eqn:Hle.
      * destruct (IH (sell_qty - lot_quantity l)
                     (total_cost - lot_quantity l * lot_cost_per_unit l)) as [E F].
        split; [|exact F]. rewrite E, lots_cost_cons. lra.
      * cbn [fst snd]. apply Qle_bool_gt in Hle. split.
        -- rewrite !lots_cost_cons. unfold lot_sub. cbn [lot_quantity lot_cost_per_unit].
           ring.
        -- constructor; [|exact Hrest]. split; cbn [lot_sub lot_quantity lot_cost_per_unit].
           ++ unfold lot_sub. cbn [lot_quantity]. lra.
           ++ exact Hc.
    + split; [reflexivity|]. constructor; [split|]; assumption.
Qed.

Lemma acquire_inv st t : ledger_inv st → ledger_inv (acquire st t).
Proof.
  destruct st as [[c u] ls]. intros [E F]. cbn [fst snd] in E, F.
  unfold acquire.
  destruct (Qeq_bool (num0 (t_quantity t)) 0) eqn:Hz.
  - replace (Qltb 0 0) with false by reflexivity. cbn [andb]. by split.
  - destruct (Qltb 0 (cost_in t / num0 (t_quantity t))) eqn:Hc; cbn [andb]; [|by split].
    destruct (Qltb 0 (num0 (t_quantity t))) eqn:Hq; [|by split].
    apply Qltb_lt in Hc, Hq. apply Qeq_bool_neq in Hz.
    split; cbn [fst snd].
    + rewrite lots_cost_app, <- E. rewrite lots_cost_cons.
      cbn [lot_quantity lot_cost_per_unit]. unfold lots_cost. cbn [foldr].
      field. exact Hz.
    + apply Forall_app. split; [exact F|]. constructor; [|constructor].
      by split.
Qed.

Lemma sell_fifo_inv st t : ledger_inv st → ledger_inv (sell_fifo st t).
Proof.
  destruct st as [[c u] ls]. intros [E F]. cbn [fst snd] in E, F.
  unfold sell_fifo.
  destruct (match_lots_inv ls (num0 (t_quantity t)) c F) as [E' F'].
  destruct (match_lots ls (num0 (t_quantity t)) c) as [c' ls'].
  cbn [fst snd] in *. split; cbn [fst snd]; [lra | exact F'].
Qed.

Lemma sell_lifo_inv st t : ledger_inv st → ledger_inv (sell_lifo st t).
Proof.
  destruct st as [[c u] ls]. intros [E F]. cbn [fst snd] in E, F.
  unfold sell_lifo.
  assert (Frev : Forall lot_pos (rev ls)) by (by apply Forall_rev).
  destruct (match_lots_inv (rev ls) (num0 (t_quantity t)) c Frev) as [E' F'].
  destruct (match_lots (rev ls) (num0 (t_quantity t)) c) as [c' ls'].
  cbn [fst snd] in *. split; cbn [fst snd].
  - rewrite lots_cost_rev. rewrite lots_cost_rev in E'. lra.
  - by apply Forall_rev.
Qed.

Lemma fifo_step_inv st t : ledger_inv st → ledger_inv (fifo_step st t).
Proof.
  intros H. unfold fifo_step.
  destruct (is_acquisition t); [by apply acquire_inv|].
  destruct (is_type t "SELL"); [by apply sell_fifo_inv | exact H].
Qed.

Lemma lifo_step_inv st t : ledger_inv st → ledger_inv (lifo_step st t).
Proof.
  intros H. unfold lifo_step.
  destruct (is_acquisition t); [by apply acquire_inv|].
  destruct (is_type t "SELL"); [by apply sell_lifo_inv | exact H].
Qed.

Lemma foldl_inv {S T : Type} (P : S → Prop) (f : S → T → S) (l : list T) (s : S) :
  (∀ s t, P s → P (f s t)) → P s → P (foldl f s l).
Proof. intros Hf. revert s. induction l as [|x l IH]; intros s Hs; cbn; auto. Qed.

Lemma ledger0_inv : ledger_inv ledger0.
Proof. split; [reflexivity | constructor]. Qed.

Lemma fifo_inv trades asset : ledger_inv (calculate_cost_basis_fifo trades asset).
Proof.
  unfold calculate_cost_basis_fifo.
  apply foldl_inv; [apply fifo_step_inv | apply ledger0_inv].
Qed.

Lemma lifo_inv trades asset : ledger_inv (calculate_cost_basis_lifo trades asset).
Proof.
  unfold calculate_cost_basis_lifo.
  apply foldl_inv; [apply lifo_step_inv | apply ledger0_inv].
Qed.

(** C10.  After the replay of any trade list for any asset, the total cost
    basis that FIFO returns is the sum over the lots it returns of quantity
    times unit cost, and it is not negative; the same holds for LIFO. *)
Theorem lots_carry_cost_basis (trades : list trade) (asset : string) :
  let '(fifo_cost, _, fifo_lots) := calculate_cost_basis_fifo trades asset in
  let '(lifo_cost, _, lifo_lots) := calculate_cost_basis_lifo trades asset in
  (fifo_cost == lots_cost fifo_lots ∧ 0 <= fifo_cost)
  ∧ (lifo_cost == lots_cost lifo_lots ∧ 0 <= lifo_cost).
Proof.
  pose proof (fifo_inv trades asset) as [Ef Ff].
  pose proof (lifo_inv trades asset) as [El Fl].
  destruct (calculate_cost_basis_fifo trades asset) as [[cf uf] lf].
  destruct (calculate_cost_basis_lifo trades asset) as [[cl ul] ll].
  cbn [fst snd] in *.
  split; (split; [assumption|]).
  - rewrite Ef. by apply lots_cost_nonneg.
  - rewrite El. by apply lots_cost_nonneg.
Qed.

(** ** The aggregator on the empty list and on the third scenario *)

(** C6.  Whatever the method and the price lookup, the aggregator returns
    for the empty trade list the snapshot whose figures are all zero, whose
    [roi_on_cost_pct] is [None] and whose [per_asset] map is empty. *)
Theorem zero_trades_identity (m : string) (get_current_price : string → option Q) :
  ∃ snap, compute_portfolio_metrics [] m get_current_price = Ok snap
    ∧ total_value snap = 0 ∧ total_external_cash snap = 0
    ∧ realized_pnl snap = 0 ∧ unrealized_pnl snap = 0 ∧ total_pnl snap = 0
    ∧ roi_pct snap = 0 ∧ roi_on_cost_pct snap = None ∧ per_asset snap = ∅.
Proof. exists zero_metrics. by repeat split. Qed.

Lemma effective_method_cases m :
  effective_method m = "fifo"%string ∨ effective_method m = "lifo"%string
  ∨ effective_method m = "average"%string.
Proof.
  unfold effective_method.
  destruct (String.eqb m "fifo") eqn:E1; [apply String.eqb_eq in E1; auto|].
  destruct (String.eqb m "lifo") eqn:E2; [apply String.eqb_eq in E2; auto|].
  destruct (String.eqb m "average") eqn:E3; [apply String.eqb_eq in E3; auto|].
  auto.
Qed.

Lemma effective_method_idem m : effective_method (effective_method m) = effective_method m.
Proof. destruct (effective_method_cases m) as [-> | [-> | ->]]; reflexivity. Qed.

Lemma cost_basis_by_effective m ats a :
  cost_basis_by m ats a = cost_basis_by (effective_method m) ats a.
Proof. unfold cost_basis_by. by rewrite effective_method_idem. Qed.

Lemma asset_loop_effective m look ts assets acc :
  asset_loop m look ts acc assets = asset_loop (effective_method m) look ts acc assets.
Proof.
  revert acc. induction assets as [|a rest IH]; intros acc; [reflexivity|].
  cbn [asset_loop]. unfold asset_step. rewrite <- cost_basis_by_effective.
  destruct acc as [[[pa c] u] v].
  destruct (filter _ ts); [apply IH|].
  destruct (cost_basis_by m _ a) as [[[cb un] ls]|e]; cbn [result_bind]; [apply IH | reflexivity].
Qed.

Lemma compute_portfolio_metrics_effective trades m look :
  compute_portfolio_metrics trades m look
  = compute_portfolio_metrics trades (effective_method m) look.
Proof.
  unfold compute_portfolio_metrics. destruct trades; [reflexivity|].
  destruct (crypto_asset_set _); cbn [result_bind]; [|reflexivity].
  by rewrite asset_loop_effective.
Qed.

(** The two trades of the scenario; what the scenario leaves open (the
    identifiers, the two dates) is arbitrary. *)
Definition scenario_deposit (i t1 : string) : trade :=
  {| t_id := Some i; t_date := Some t1; t_asset := Some "USD"%string;
     t_type := Some "Deposit"%string; t_price := None;
     t_quantity := Some 1000; t_fee := None; t_total_value := None |}.

Definition scenario_buy (i t2 : string) : trade :=
  {| t_id := Some i; t_date := Some t2; t_asset := Some "BTC"%string;
     t_type := Some "BUY"%string; t_price := Some 50000;
     t_quantity := Some (1 # 100); t_fee := Some 5; t_total_value := Some 500 |}.

(** C1.  A deposit of 1000 USD and a purchase of 0.01 BTC at 50000 (value
    500, fee 5), with BTC quoted at 60000: under every method the snapshot
    has external cash 1000, cash balance 495, the BTC position valued 600
    with cost basis 505 and unrealized gain 95, total value 1095, total
    P&L 95 and ROI 9.5 percent. *)
Theorem deposit_then_buy (m i1 i2 t1 t2 : string) (other : string → option Q) :
  let trades := [scenario_deposit i1 t1; scenario_buy i2 t2] in
  let price_lookup a := if String.eqb a "BTC" then Some 60000 else other a in
  ∃ snap btc,
    compute_portfolio_metrics trades m price_lookup = Ok snap
    ∧ per_asset snap !! "BTC"%string = Some btc
    ∧ total_external_cash snap == 1000
    ∧ usd_balance snap == 495
    ∧ am_current_value btc == 600
    ∧ am_cost_basis btc == 505
    ∧ am_unrealized_pnl btc == 95
    ∧ total_value snap == 1095
    ∧ total_pnl snap == 95
    ∧ roi_pct snap == 95 / 10.
Proof.
  intros trades price_lookup.
  assert (H : match compute_portfolio_metrics trades m price_lookup with
              | Ok snap =>
                  match per_asset snap !! "BTC"%string with
                  | Some btc =>
                      total_external_cash snap == 1000
                      ∧ usd_balance snap == 495
                      ∧ am_current_value btc == 600
                      ∧ am_cost_basis btc == 505
                      ∧ am_unrealized_pnl btc == 95
                      ∧ total_value snap == 1095
                      ∧ total_pnl snap == 95
                      ∧ roi_pct snap == 95 / 10
                  | None => False
                  end
              | Raise _ => False
              end).
  { rewrite compute_portfolio_metrics_effective.
    subst trades price_lookup. unfold compute_portfolio_metrics.
    rewrite sort_by_pair.
    destruct (effective_method_cases m) as [-> | [-> | ->]];
      destruct (String.leb _ _); vm_compute; repeat split. }
  destruct (compute_portfolio_metrics trades m price_lookup) as [snap|]; [|done].
  destruct (per_asset snap !! "BTC"%string) as [btc|] eqn:Hbtc; [|done].
  exists snap, btc. split; [reflexivity|]. split; [exact Hbtc | exact H].
Qed.

(** ** A record without an asset *)

Definition no_asset_trade : trade :=
  {| t_id := Some "1"%string; t_date := Some "2024-01-01 00:00:00"%string;
     t_asset := None; t_type := Some "BUY"%string; t_price := Some 1;
     t_quantity := Some 1; t_fee := Some 0; t_total_value := Some 1 |}.

(** C3 fails.  On a list with a record that has no [asset] entry the
    aggregator raises [KeyError] (the subscript in the set of crypto
    assets), under every method and price lookup. *)
Theorem missing_asset_raises (m : string) (get_current_price : string → option Q) :
  compute_portfolio_metrics [no_asset_trade] m get_current_price = Raise KeyError.
Proof. reflexivity. Qed.

(** ** One purchase followed by one sale *)

Lemma is_type_inj t a b : is_type t a = true → is_type t b = true → a = b.
Proof.
  unfold is_type. destruct (t_type t) as [x|]; [|done].
  intros Ha Hb. apply String.eqb_eq in Ha, Hb. congruence.
Qed.

Lemma sell_not_acquisition t : is_type t "SELL" = true → is_acquisition t = false.
Proof.
  intros H. unfold is_acquisition.
  destruct (is_type t "BUY") eqn:E1; [by pose proof (is_type_inj _ _ _ H E1)|].
  destruct (is_type t "Transfer") eqn:E2; [by pose proof (is_type_inj _ _ _ H E2)|].
  reflexivity.
Qed.

Lemma buy_acquisition t : is_type t "BUY" = true → is_acquisition t = true.
Proof. intros H. unfold is_acquisition. by rewrite H. Qed.

Lemma acquire_recorded c u ls t :
  0 < num0 (t_quantity t) → 0 < cost_in t →
  acquire (c, u, ls) t
  = (c + cost_in t, u + num0 (t_quantity t),
     ls ++ [ {| lot_quantity := num0 (t_quantity t);
                lot_cost_per_unit := cost_in t / num0 (t_quantity t);
                lot_trade_id := t_id t;
                lot_date := date_key t |} ]).
Proof.
  intros Hq Hc. unfold acquire.
  assert (Hz : Qeq_bool (num0 (t_quantity t)) 0 = false).
  { apply not_true_iff_false. rewrite Qeq_bool_iff. lra. }
  rewrite Hz.
  assert (Hcpu : 0 < cost_in t / num0 (t_quantity t)).
  { apply Qlt_shift_div_l; lra. }
  apply Qltb_lt in Hcpu, Hq. by rewrite Hcpu, Hq.
Qed.

Lemma acquire_skipped st t : cost_in t <= 0 → acquire st t = st.
Proof.
  intros Hc. destruct st as [[c u] ls]. unfold acquire.
  destruct (Qeq_bool (num0 (t_quantity t)) 0) eqn:Hz; [reflexivity|].
  destruct (Qltb 0 (num0 (t_quantity t))) eqn:Hq; [|by rewrite andb_false_r].
  apply Qltb_lt in Hq.
  assert (Hcpu : Qltb 0 (cost_in t / num0 (t_quantity t)) = false).
  { apply Qltb_ge. apply Qle_shift_div_r; lra. }
  by rewrite Hcpu.
Qed.

Section BuySell.
Variables (trades : list trade) (asset : string) (b s : trade).
Hypothesis history : asset_history trades asset = [b; s].
Hypothesis b_buy : is_type b "BUY" = true.
Hypothesis s_sell : is_type s "SELL" = true.

Let q1 := num0 (t_quantity b).
Let q2 := num0 (t_quantity s).

Lemma fifo_buy_sell :
  calculate_cost_basis_fifo trades asset = sell_fifo (acquire ledger0 b) s.
Proof.
  unfold calculate_cost_basis_fifo. rewrite history. cbn [foldl].
  unfold fifo_step. rewrite (buy_acquisition b b_buy).
  by rewrite (sell_not_acquisition s s_sell), s_sell.
Qed.

Lemma lifo_buy_sell :
  calculate_cost_basis_lifo trades asset = sell_lifo (acquire ledger0 b) s.
Proof.
  unfold calculate_cost_basis_lifo. rewrite history. cbn [foldl].
  unfold lifo_step. rewrite (buy_acquisition b b_buy).
  by rewrite (sell_not_acquisition s s_sell), s_sell.
Qed.

Lemma average_buy_sell :
  calculate_cost_basis_average trades asset
  = result_bind
      (result_bind (average_step (0 + cost_in b, 0 + q1) s) (λ st, Ok st))
      (λ '(total_cost, units_held),
         Ok (total_cost, units_held, average_lots total_cost units_held)).
Proof.
  unfold calculate_cost_basis_average. rewrite history. cbn [average_loop].
  unfold average_step at 1. rewrite (buy_acquisition b b_buy).
  cbn [result_bind average_loop]. reflexivity.
Qed.

(** What the three engines return when the purchase is recorded as a lot
    and the sale is smaller than it. *)
Lemma fifo_partial_sale :
  0 < cost_in b → 0 <= q2 → q2 < q1 →
  ∃ c u ls, calculate_cost_basis_fifo trades asset = (c, u, ls)
    ∧ c == cost_in b - q2 * (cost_in b / q1) ∧ u == q1 - q2.
Proof.
  intros Hc H0 Hlt. rewrite fifo_buy_sell. unfold ledger0.
  rewrite acquire_recorded by (fold q1; lra). fold q1.
  unfold sell_fifo. fold q2. cbn [app match_lots lot_quantity lot_cost_per_unit].
  destruct (Qltb 0 q2) eqn:Hs.
  - assert (Hle : Qle_bool q1 q2 = false) by (apply Qle_bool_gt; lra).
    rewrite Hle. eexists _, _, _. split; [reflexivity|]. split; ring.
  - apply Qltb_ge in Hs. assert (E : q2 == 0) by lra.
    eexists _, _, _. split; [reflexivity|]. split; [rewrite E|]; ring.
Qed.

Lemma lifo_partial_sale :
  0 < cost_in b → 0 <= q2 → q2 < q1 →
  ∃ c u ls, calculate_cost_basis_lifo trades asset = (c, u, ls)
    ∧ c == cost_in b - q2 * (cost_in b / q1) ∧ u == q1 - q2.
Proof.
  intros Hc H0 Hlt. rewrite lifo_buy_sell. unfold ledger0.
  rewrite acquire_recorded by (fold q1; lra). fold q1.
  unfold sell_lifo. fold q2. cbn [app rev match_lots lot_quantity lot_cost_per_unit].
  destruct (Qltb 0 q2) eqn:Hs.
  - assert (Hle : Qle_bool q1 q2 = false) by (apply Qle_bool_gt; lra).
    rewrite Hle. eexists _, _, _. split; [reflexivity|]. split; ring.
  - apply Qltb_ge in Hs. assert (E : q2 == 0) by lra.
    eexists _, _, _. split; [reflexivity|]. split; [rewrite E|]; ring.
Qed.

Lemma average_partial_sale :
  0 <= q2 → q2 < q1 →
  ∃ c u ls, calculate_cost_basis_average trades asset = Ok (c, u, ls)
    ∧ c == cost_in b - q2 * (cost_in b / q1) ∧ u == q1 - q2.
Proof.
  intros H0 Hlt. rewrite average_buy_sell.
  unfold average_step. rewrite (sell_not_acquisition s s_sell), s_sell. fold q2.
  assert (Hu : Qltb 0 (0 + q1 - q2) = true) by (apply Qltb_lt; lra).
  rewrite Hu. unfold py_div.
  assert (Hz : Qeq_bool (0 + q1 - q2 + q2) 0 = false).
  { apply not_true_iff_false. rewrite Qeq_bool_iff. lra. }
  rewrite Hz. cbn [result_bind].
  eexists _, _, _. split; [reflexivity|]. split; [|ring].
  field. repeat split; lra.
Qed.

(** What they return when the sale is of the whole purchase. *)
Lemma fifo_full_sale :
  0 < cost_in b → 0 < q1 → q2 == q1 →
  ∃ c u ls, calculate_cost_basis_fifo trades asset = (c, u, ls) ∧ u == 0.
Proof.
  intros Hc Hq E. rewrite fifo_buy_sell. unfold ledger0.
  rewrite acquire_recorded by (fold q1; lra). fold q1.
  unfold sell_fifo. fold q2.
  destruct (match_lots _ q2 _) as [c ls].
  eexists _, _, _. split; [reflexivity|]. rewrite E. ring.
Qed.

Lemma lifo_full_sale :
  0 < cost_in b → 0 < q1 → q2 == q1 →
  ∃ c u ls, calculate_cost_basis_lifo trades asset = (c, u, ls) ∧ u == 0.
Proof.
  intros Hc Hq E. rewrite lifo_buy_sell. unfold ledger0.
  rewrite acquire_recorded by (fold q1; lra). fold q1.
  unfold sell_lifo. fold q2.
  destruct (match_lots _ q2 _) as [c ls].
  eexists _, _, _. split; [reflexivity|]. rewrite E. ring.
Qed.

Lemma average_full_sale :
  q2 == q1 →
  ∃ c u ls, calculate_cost_basis_average trades asset = Ok (c, u, ls) ∧ u == 0.
Proof.
  intros E. rewrite average_buy_sell.
  unfold average_step. rewrite (sell_not_acquisition s s_sell), s_sell. fold q2.
  assert (Hu : Qltb 0 (0 + q1 - q2) = false) by (apply Qltb_ge; lra).
  rewrite Hu. cbn [result_bind].
  eexists _, _, _. split; [reflexivity|]. rewrite E. ring.
Qed.
End BuySell.

Lemma realized_of_proper ts c c' : c == c' → realized_of ts c == realized_of ts c'.
Proof. intros E. unfold realized_of. by rewrite E. Qed.


(** A purchase booked at no cost, and a sale of half of it. *)
Definition free_buy : trade :=
  {| t_id := Some "b"%string; t_date := Some "2024-01-01 00:00:00"%string;
     t_asset := Some "BTC"%string; t_type := Some "BUY"%string;
     t_price := Some 0; t_quantity := Some 2; t_fee := Some 0;
     t_total_value := Some 0 |}.

Definition sale_of (q : Q) : trade :=
  {| t_id := Some "s"%string; t_date := Some "2024-01-02 00:00:00"%string;
     t_asset := Some "BTC"%string; t_type := Some "SELL"%string;
     t_price := Some 15000; t_quantity := Some q; t_fee := Some 0;
     t_total_value := Some (15000 * q) |}.

(** The second scenario of the design document: two units bought for
    20000. *)
Definition paid_buy : trade :=
  {| t_id := Some "b"%string; t_date := Some "2024-01-01 00:00:00"%string;
     t_asset := Some "BTC"%string; t_type := Some "BUY"%string;
     t_price := Some 10000; t_quantity := Some 2; t_fee := Some 0;
     t_total_value := Some 20000 |}.

(** A trade of the binary64 model with every entry present. *)
Definition trade64 (i date asset type : string) (price quantity fee total_value : float)
  : Float64.trade :=
  {| Float64.t_id := Some i; Float64.t_date := Some date;
     Float64.t_asset := Some asset; Float64.t_type := Some type;
     Float64.t_price := Some price; Float64.t_quantity := Some quantity;
     Float64.t_fee := Some fee; Float64.t_total_value := Some total_value |}.

(** [free_buy] and [sale_of] in binary64. *)
Definition free_buy64 : Float64.trade :=
  trade64 "b" "2024-01-01 00:00:00" "BTC" "BUY" 0 2 0 0.

Definition sale64 (q : float) : Float64.trade :=
  trade64 "s" "2024-01-02 00:00:00" "BTC" "SELL" 15000 q 0 (15000 * q)%float.

(** C4 fails on the code.  A purchase of 2 units with total value 0 and no
    fee followed by a sale of 1 unit is a history of one BUY and one
    smaller SELL.  FIFO and LIFO count a purchase only under
    [cost_per_unit > 0 and qty > 0] and end with -1 unit; Average counts
    every purchase and ends with 1 unit.  The figures are the same in the
    exact model and in binary64. *)
Theorem zero_cost_buy_disagreement :
  let trades := [free_buy; sale_of 1] in
  let trades64 := [free_buy64; sale64 1] in
  (asset_history trades "BTC" = trades
   ∧ is_type free_buy "BUY" = true ∧ is_type (sale_of 1) "SELL" = true
   ∧ num0 (t_quantity (sale_of 1)) < num0 (t_quantity free_buy))
  ∧ ((calculate_cost_basis_fifo trades "BTC").1.2 == -1
     ∧ (calculate_cost_basis_lifo trades "BTC").1.2 == -1
     ∧ ∃ c u l, calculate_cost_basis_average trades "BTC" = Ok (c, u, l) ∧ u == 1)
  ∧ ((Float64.calculate_cost_basis_fifo trades64 "BTC").1.2 = (-1)%float
     ∧ (Float64.calculate_cost_basis_lifo trades64 "BTC").1.2 = (-1)%float
     ∧ ∃ c l, Float64.calculate_cost_basis_average trades64 "BTC" = Ok (c, 1%float, l)).
Proof.
  cbv zeta. split; [by repeat split|]. split.
  - split; [reflexivity|]. split; [reflexivity|].
    eexists _, _, _. split; [vm_compute; reflexivity | reflexivity].
  - split; [vm_compute; reflexivity|]. split; [vm_compute; reflexivity|].
    eexists _, _. vm_compute. reflexivity.
Qed.

(** Three units bought for 10, one of them sold. *)
Definition buy_three : Float64.trade :=
  trade64 "b" "2024-01-01 00:00:00" "BTC" "BUY" 3.33 3 0 10.

Definition sell_one : Float64.trade :=
  trade64 "s" "2024-01-02 00:00:00" "BTC" "SELL" 5 1 0 5.

(** Rounding separates the methods too, in the last place: three units
    bought for 10 and one of them sold leave the cost basis
    [10 - 1 * (10 / 3)] under FIFO and LIFO and [2 * (10 / (2 + 1))] under
    Average, which are different binary64 numbers. *)
Example rounding_separates_methods :
  (Float64.calculate_cost_basis_fifo [buy_three; sell_one] "BTC").1.1
  = 6.666666666666666%float
  ∧ (Float64.calculate_cost_basis_lifo [buy_three; sell_one] "BTC").1.1
    = 6.666666666666666%float
  ∧ ∃ l, Float64.calculate_cost_basis_average [buy_three; sell_one] "BTC"
         = Ok (6.666666666666667%float, 2%float, l).
Proof.
  split; [vm_compute; reflexivity|]. split; [vm_compute; reflexivity|].
  eexists. vm_compute. reflexivity.
Qed.

(** A negative quantity sold (which is "smaller" too) separates the methods
    as well: FIFO and LIFO keep the cost basis, Average rescales it. *)
Lemma negative_sale_disagreement :
  let trades := [paid_buy; sale_of (-1)] in
  ∃ cf uf lf ca ua la,
    calculate_cost_basis_fifo trades "BTC" = (cf, uf, lf)
    ∧ calculate_cost_basis_average trades "BTC" = Ok (ca, ua, la)
    ∧ cf == 20000 ∧ ca == 30000.
Proof.
  cbv zeta. eexists _, _, _, _, _, _.
  split; [vm_compute; reflexivity|]. split; [vm_compute; reflexivity|].
  by split.
Qed.

(** In exact arithmetic the methods agree where the purchase is counted:
    for a history of one BUY followed by one SELL of the same asset, when
    the purchase has a positive cost (total value plus fee) and the
    quantity sold is not negative and strictly smaller than the quantity
    bought, FIFO, LIFO and Average return the same cost basis and the same
    units held, and the realized P&L derived from them is the same. *)
Lemma method_agreement (trades : list trade) (asset : string) (b s : trade) :
  asset_history trades asset = [b; s] →
  is_type b "BUY" = true → is_type s "SELL" = true →
  0 < cost_in b →
  0 <= num0 (t_quantity s) →
  num0 (t_quantity s) < num0 (t_quantity b) →
  ∃ cf uf lf cl ul ll ca ua la,
    calculate_cost_basis_fifo trades asset = (cf, uf, lf)
    ∧ calculate_cost_basis_lifo trades asset = (cl, ul, ll)
    ∧ calculate_cost_basis_average trades asset = Ok (ca, ua, la)
    ∧ cf == cl ∧ cl == ca ∧ uf == ul ∧ ul == ua
    ∧ ∀ asset_trades,
        realized_of asset_trades cf == realized_of asset_trades cl
        ∧ realized_of asset_trades cl == realized_of asset_trades ca.
Proof.
  intros Hh Hb Hs Hc H0 Hlt.
  destruct (fifo_partial_sale _ _ _ _ Hh Hb Hs Hc H0 Hlt) as (cf & uf & lf & Ef & Hcf & Huf).
  destruct (lifo_partial_sale _ _ _ _ Hh Hb Hs Hc H0 Hlt) as (cl & ul & ll & El & Hcl & Hul).
  destruct (average_partial_sale _ _ _ _ Hh Hb Hs H0 Hlt) as (ca & ua & la & Ea & Hca & Hua).
  exists cf, uf, lf, cl, ul, ll, ca, ua, la.
  assert (cf == cl) by (by rewrite Hcf, Hcl).
  assert (cl == ca) by (by rewrite Hcl, Hca).
  repeat split; try assumption.
  - by rewrite Huf, Hul.
  - by rewrite Hul, Hua.
  - by apply realized_of_proper.
  - by apply realized_of_proper.
Qed.

(** C5 fails on the code.  A purchase of 2 units with total value 0 and no
    fee followed by a sale of the 2 units, without fee: FIFO and LIFO do
    not count the purchase and end with -2 units held, Average ends with
    0.  The figures are the same in the exact model and in binary64. *)
Theorem zero_cost_buy_units :
  let trades := [free_buy; sale_of 2] in
  let trades64 := [free_buy64; sale64 2] in
  (asset_history trades "BTC" = trades
   ∧ is_type free_buy "BUY" = true ∧ is_type (sale_of 2) "SELL" = true
   ∧ 0 < num0 (t_quantity free_buy)
   ∧ num0 (t_quantity (sale_of 2)) == num0 (t_quantity free_buy)
   ∧ num0 (t_fee free_buy) == 0 ∧ num0 (t_fee (sale_of 2)) == 0)
  ∧ ((calculate_cost_basis_fifo trades "BTC").1.2 == -2
     ∧ (calculate_cost_basis_lifo trades "BTC").1.2 == -2
     ∧ ∃ c u l, calculate_cost_basis_average trades "BTC" = Ok (c, u, l) ∧ u == 0)
  ∧ ((Float64.calculate_cost_basis_fifo trades64 "BTC").1.2 = (-2)%float
     ∧ (Float64.calculate_cost_basis_lifo trades64 "BTC").1.2 = (-2)%float
     ∧ ∃ c l, Float64.calculate_cost_basis_average trades64 "BTC" = Ok (c, 0%float, l)).
Proof.
  cbv zeta. split; [by repeat split|]. split.
  - split; [reflexivity|]. split; [reflexivity|].
    eexists _, _, _. split; [vm_compute; reflexivity | reflexivity].
  - split; [vm_compute; reflexivity|]. split; [vm_compute; reflexivity|].
    eexists _, _. vm_compute. reflexivity.
Qed.

(** Where the purchase is counted the units are conserved: for every
    quantity [q1 > 0] and a history of one BUY of [q1] units with a
    positive total value followed by one SELL of [q1] units of the same
    asset, both without fee, the units held that FIFO, LIFO and Average
    return are 0. *)
Lemma units_conservation (q1 : Q) (trades : list trade) (asset : string)
    (b s : trade) :
  0 < q1 →
  asset_history trades asset = [b; s] →
  is_type b "BUY" = true → is_type s "SELL" = true →
  num0 (t_quantity b) == q1 → num0 (t_quantity s) == q1 →
  num0 (t_fee b) == 0 → num0 (t_fee s) == 0 →
  0 < num0 (t_total_value b) →
  ∃ cf uf lf cl ul ll ca ua la,
    calculate_cost_basis_fifo trades asset = (cf, uf, lf)
    ∧ calculate_cost_basis_lifo trades asset = (cl, ul, ll)
    ∧ calculate_cost_basis_average trades asset = Ok (ca, ua, la)
    ∧ uf == 0 ∧ ul == 0 ∧ ua == 0.
Proof.
  intros Hq Hh Hb Hs Eb Es Fb Fs Hv.
  assert (Hc : 0 < cost_in b) by (unfold cost_in; lra).
  assert (Hq1 : 0 < num0 (t_quantity b)) by lra.
  assert (E : num0 (t_quantity s) == num0 (t_quantity b)) by lra.
  destruct (fifo_full_sale _ _ _ _ Hh Hb Hs Hc Hq1 E) as (cf & uf & lf & Ef & Huf).
  destruct (lifo_full_sale _ _ _ _ Hh Hb Hs Hc Hq1 E) as (cl & ul & ll & El & Hul).
  destruct (average_full_sale _ _ _ _ Hh Hb Hs E) as (ca & ua & la & Ea & Hua).
  by exists cf, uf, lf, cl, ul, ll, ca, ua, la.
Qed.

(** ** The loop over the assets *)

Lemma cost_basis_by_cases m ats a :
  cost_basis_by m ats a = Ok (calculate_cost_basis_fifo ats a)
  ∨ cost_basis_by m ats a = Ok (calculate_cost_basis_lifo ats a)
  ∨ cost_basis_by m ats a = calculate_cost_basis_average ats a.
Proof.
  unfold cost_basis_by.
  destruct (effective_method_cases m) as [-> | [-> | ->]]; cbn; auto.
Qed.

(** One turn of the loop either skips the asset or adds its entry. *)
Lemma asset_step_cases m look ts pa cb up va a acc' :
  asset_step m look ts (pa, cb, up, va) a = Ok acc' →
  acc' = (pa, cb, up, va)
  ∨ ∃ c u ls,
      cost_basis_by m (filter (λ t, is_asset t a = true) ts) a = Ok (c, u, ls)
      ∧ acc' =
          (<[a := asset_entry (filter (λ t, is_asset t a = true) ts) c u (look a)]> pa,
           cb + c,
           up + am_unrealized_pnl
                  (asset_entry (filter (λ t, is_asset t a = true) ts) c u (look a)),
           va + am_current_value
                  (asset_entry (filter (λ t, is_asset t a = true) ts) c u (look a))).
Proof.
  unfold asset_step.
  destruct (filter (λ t, is_asset t a = true) ts) as [|t0 ats] eqn:Hf.
  - intros [= <-]. by left.
  - destruct (cost_basis_by m (t0 :: ats) a) as [[[c u] ls]|e] eqn:Hc;
      cbn [result_bind]; [|discriminate].
    intros [= <-]. right. by exists c, u, ls.
Qed.

Lemma asset_loop_inv m look ts (Inv : totals → Prop) :
  (∀ acc a acc', Inv acc → asset_step m look ts acc a = Ok acc' → Inv acc') →
  ∀ assets acc acc',
    Inv acc → asset_loop m look ts acc assets = Ok acc' → Inv acc'.
Proof.
  intros Hstep assets. induction assets as [|a rest IH]; intros acc acc' HI H.
  - cbn [asset_loop] in H. by injection H as <-.
  - cbn [asset_loop] in H.
    destruct (asset_step m look ts acc a) as [acc1|e] eqn:E;
      cbn [result_bind] in H; [|discriminate].
    eapply IH; [|exact H]. eapply Hstep; eauto.
Qed.

(** Whether the loop raises depends neither on the price lookup nor on the
    accumulators. *)
Lemma asset_step_raises m look look' ts acc acc' a :
  raises (asset_step m look ts acc a) = raises (asset_step m look' ts acc' a).
Proof.
  unfold asset_step.
  destruct acc as [[[pa cb] up] va], acc' as [[[pa' cb'] up'] va'].
  destruct (filter _ ts); [reflexivity|].
  by destruct (cost_basis_by m _ a) as [[[c u] ls]|e].
Qed.

Lemma asset_loop_raises m look look' ts assets acc acc' :
  raises (asset_loop m look ts acc assets) = raises (asset_loop m look' ts acc' assets).
Proof.
  revert acc acc'. induction assets as [|a rest IH]; intros acc acc'; [reflexivity|].
  cbn [asset_loop].
  pose proof (asset_step_raises m look look' ts acc acc' a) as Hr.
  destruct (asset_step m look ts acc a), (asset_step m look' ts acc' a);
    cbn [result_bind raises] in *; try discriminate; auto.
Qed.

Lemma metrics_raises trades m look look' :
  raises (compute_portfolio_metrics trades m look)
  = raises (compute_portfolio_metrics trades m look').
Proof.
  unfold compute_portfolio_metrics. destruct trades as [|t0 ts]; [reflexivity|].
  destruct (crypto_asset_set _) as [s|e]; cbn [result_bind]; [|reflexivity].
  pose proof (asset_loop_raises m look look' (sort_by date_key (t0 :: ts))
                (sorted_set s) totals0 totals0) as Hr.
  destruct (asset_loop m look _ _ _), (asset_loop m look' _ _ _);
    cbn [result_bind raises] in *; try discriminate; auto.
Qed.


(** ** Valuation at cost when no price is available *)

(** [price is None or price <= 0] *)
Definition price_unavailable (p : option Q) : Prop :=
  match p with None => True | Some v => v <= 0 end.

Definition valued_at_cost (look : string → option Q) (a : string)
    (e : asset_metrics) : Prop :=
  price_unavailable (look a) →
  am_current_value e = am_cost_basis e ∧ am_unrealized_pnl e == 0.

Lemma asset_entry_at_cost look a ats c u :
  valued_at_cost look a (asset_entry ats c u (look a)).
Proof.
  unfold valued_at_cost, asset_entry, price_unavailable.
  cbn [am_current_value am_cost_basis am_unrealized_pnl].
  destruct (look a) as [p|]; intros Hp.
  - apply Qle_bool_iff in Hp. rewrite Hp. split; [reflexivity | ring].
  - split; [reflexivity | ring].
Qed.

Lemma asset_loop_at_cost m look ts assets acc acc' :
  map_Forall (valued_at_cost look) acc.1.1.1 →
  asset_loop m look ts acc assets = Ok acc' →
  map_Forall (valued_at_cost look) acc'.1.1.1.
Proof.
  apply (asset_loop_inv m look ts (λ acc, map_Forall (valued_at_cost look) acc.1.1.1)).
  clear. intros [[[pa cb] up] va] a acc1 HI Hs.
  apply asset_step_cases in Hs as [-> | (c & u & ls & _ & ->)]; [exact HI|].
  cbn [fst snd] in *. apply map_Forall_insert_2; [|exact HI].
  apply asset_entry_at_cost.
Qed.

(** C7 fails on the code.  With no price for any asset, a list that holds
    a purchase of BTC and a record without an [asset] entry is not valued
    at cost: the aggregator raises [KeyError] (the subscript of C3), under
    every method.  [fallback_at_engine_cost] below is what holds whenever
    a snapshot is returned. *)
Theorem fallback_raises_without_asset (m : string) :
  compute_portfolio_metrics [paid_buy; no_asset_trade] m (λ _, None) = Raise KeyError.
Proof. reflexivity. Qed.

(** ** Sign of the cost basis *)

(** The amounts of a trade as the data model wants them. *)
Definition nonneg_amounts (t : trade) : Prop :=
  0 <= num0 (t_quantity t) ∧ 0 <= num0 (t_total_value t) ∧ 0 <= num0 (t_fee t).


Lemma average_step_returns c u t :
  nonneg_amounts t → ∃ st, average_step (c, u) t = Ok st.
Proof.
  intros (Hq & Hv & Hf). unfold average_step.
  destruct (is_acquisition t); [eauto|].
  destruct (is_type t "SELL"); [|eauto].
  destruct (Qltb 0 (u - num0 (t_quantity t))) eqn:Hu; [|eauto].
  apply Qltb_lt in Hu. unfold py_div.
  assert (Hz : Qeq_bool (u - num0 (t_quantity t) + num0 (t_quantity t)) 0 = false).
  { apply not_true_iff_false. rewrite Qeq_bool_iff. lra. }
  rewrite Hz. cbn [result_bind]. eauto.
Qed.


Lemma average_loop_returns ts st :
  Forall nonneg_amounts ts → ∃ st', average_loop st ts = Ok st'.
Proof.
  intros Hts. revert st. induction Hts as [|t ts Ht _ IH]; intros [c u]; [by eexists|].
  cbn [average_loop].
  destruct (average_step_returns c u t Ht) as [st1 ->]. cbn [result_bind]. apply IH.
Qed.

Lemma asset_history_Forall (P : trade → Prop) ts a :
  Forall P ts → Forall P (asset_history ts a).
Proof.
  intros H. unfold asset_history. apply sort_by_Forall.
  rewrite Forall_forall in *. intros t Ht.
  apply list_elem_of_filter in Ht as [_ Ht]. by apply H.
Qed.

Lemma filter_Forall (P : trade → Prop) (p : trade → bool) ts :
  Forall P ts → Forall P (filter (λ t, p t = true) ts).
Proof.
  rewrite !Forall_forall. intros H t Ht.
  apply list_elem_of_filter in Ht as [_ Ht]. by apply H.
Qed.


Lemma cost_basis_by_returns m ats a :
  Forall nonneg_amounts ats → ∃ r, cost_basis_by m ats a = Ok r.
Proof.
  intros Hts.
  destruct (cost_basis_by_cases m ats a) as [-> | [-> | ->]]; [eauto | eauto |].
  unfold calculate_cost_basis_average.
  destruct (average_loop_returns (asset_history ats a) (0, 0)) as [[c u] ->];
    [by apply asset_history_Forall|].
  cbn [result_bind]. eauto.
Qed.



Lemma asset_loop_returns m look ts assets acc :
  Forall nonneg_amounts ts → ∃ acc', asset_loop m look ts acc assets = Ok acc'.
Proof.
  intros Hts. revert acc. induction assets as [|a rest IH]; intros acc; [by eexists|].
  cbn [asset_loop].
  assert (∃ acc1, asset_step m look ts acc a = Ok acc1) as [acc1 ->].
  { unfold asset_step. destruct acc as [[[pa cb] up] va].
    destruct (filter (λ t, is_asset t a = true) ts) as [|t0 ats] eqn:Hf; [eauto|].
    destruct (cost_basis_by_returns m (t0 :: ats) a) as [[[c u] ls] ->].
    - rewrite <- Hf. by apply filter_Forall.
    - cbn [result_bind]. eauto. }
  cbn [result_bind]. apply IH.
Qed.

Lemma crypto_asset_set_returns ts :
  Forall (λ t, is_Some (t_asset t)) ts → ∃ s, crypto_asset_set ts = Ok s.
Proof.
  induction 1 as [|t ts [a Ha] _ [s IH]]; [by eexists|].
  cbn [crypto_asset_set]. rewrite Ha, IH. cbn [result_bind].
  destruct (negb _); eauto.
Qed.

(** On records that all have an asset and amounts that are not negative the
    aggregator returns a snapshot. *)
Lemma metrics_returned trades m look :
  Forall (λ t, is_Some (t_asset t)) trades →
  Forall nonneg_amounts trades →
  ∃ snap, compute_portfolio_metrics trades m look = Ok snap.
Proof.
  intros Ha Hn. unfold compute_portfolio_metrics.
  destruct trades as [|t0 ts]; [eauto|].
  destruct (crypto_asset_set_returns (sort_by date_key (t0 :: ts))) as [s ->];
    [by apply sort_by_Forall|].
  cbn [result_bind].
  destruct (asset_loop_returns m look (sort_by date_key (t0 :: ts)) (sorted_set s) totals0)
    as [acc ->]; [by apply sort_by_Forall|].
  cbn [result_bind]. eauto.
Qed.

(** A purchase booked with a negative total value. *)
Definition refund_buy : trade :=
  {| t_id := Some "b"%string; t_date := Some "2024-01-01 00:00:00"%string;
     t_asset := Some "BTC"%string; t_type := Some "BUY"%string;
     t_price := Some (-5); t_quantity := Some 1; t_fee := Some 0;
     t_total_value := Some (-5) |}.

(** Nothing is clamped: with the average method a purchase booked with the
    total value -5 is reported with cost basis -5. *)
Lemma cost_basis_clamp_counterexample :
  ∃ snap e,
    compute_portfolio_metrics [refund_buy] "average" (λ _, None) = Ok snap
    ∧ per_asset snap !! "BTC"%string = Some e
    ∧ am_cost_basis e == -5 ∧ am_cost_basis e < 0
    ∧ total_cost_basis_assets snap < 0.
Proof.
  eexists _, _.
  split; [vm_compute; reflexivity|]. split; [vm_compute; reflexivity|].
  by repeat split.
Qed.


(** ** The entries of the realized P&L map *)









Lemma realized_pnl_returns trades method :
  Forall (λ t, is_Some (t_date t)) trades →
  ∃ res, compute_realized_pnl_per_trade trades method = Ok res.
Proof.
  intros H. unfold compute_realized_pnl_per_trade, sorted_by_date_strict.
  assert (E : forallb (λ t, bool_decide (is_Some (t_date t))) trades = true).
  { apply forallb_forall. intros t Ht. apply bool_decide_eq_true.
    rewrite Forall_forall in H. apply H. by apply list_elem_of_In. }
  rewrite E. cbn [result_bind]. eauto.
Qed.

(** A sale booked on the fiat symbol. *)
Definition usd_sell : trade :=
  {| t_id := Some "u"%string; t_date := Some "2024-01-01 00:00:00"%string;
     t_asset := Some "USD"%string; t_type := Some "SELL"%string;
     t_price := Some 1; t_quantity := Some 10; t_fee := Some 0;
     t_total_value := Some 10 |}.




(** ** The store model against the functional model *)

(** [m], run in the store [h], ends with result [r] in a store that
    satisfies [Post]. *)
Definition runs {A} (m : Store.M A) (h : heap) (r : result A)
    (Post : heap → Prop) : Prop :=
  ∃ h', m h = (h', r) ∧ Post h'.

(** Every reference of the pairs holds the trade paired with it. *)
Definition holds (h : heap) (l : list (loc * trade)) : Prop :=
  Forall (λ xt, h !! xt.1 = Some (PTrade xt.2)) l.

(** The list object at [r] refers, in order, to the trade dicts [l]. *)
Definition list_at (h : heap) (r : loc) (l : list (loc * trade)) : Prop :=
  h !! r = Some (PList l.*1) ∧ holds h l.

Lemma runs_bind {A B} (m : Store.M A) (f : A → Store.M B) h a r P Q :
  runs m h (Ok a) P → (∀ h', P h' → runs (f a) h' r Q) → runs (m ≫= f) h r Q.
Proof.
  intros (h1 & E & HP) Hf. destruct (Hf h1 HP) as (h2 & E2 & HQ).
  exists h2. split; [|done]. unfold mbind, Store.M_bind, Store.bind. by rewrite E.
Qed.

Lemma runs_bind_raise {A B} (m : Store.M A) (f : A → Store.M B) h e (Q : heap → Prop) :
  runs m h (Raise e) Q → runs (m ≫= f) h (Raise e) Q.
Proof.
  intros (h1 & E & HQ). exists h1. split; [|done].
  unfold mbind, Store.M_bind, Store.bind. by rewrite E.
Qed.

Lemma runs_ret {A} (a : A) h (Q : heap → Prop) : Q h → runs (mret a) h (Ok a) Q.
Proof. intros HQ. by exists h. Qed.

Lemma runs_lift {A} (r : result A) h (Q : heap → Prop) : Q h → runs (Store.lift r) h r Q.
Proof. intros HQ. by exists h. Qed.

Lemma runs_lift_eq {A} (r : result A) h : runs (Store.lift r) h r (λ h', h' = h).
Proof. by apply runs_lift. Qed.

Lemma runs_mono {A} (m : Store.M A) h r (P Q : heap → Prop) :
  runs m h r P → (∀ h', P h' → Q h') → runs m h r Q.
Proof. intros (h1 & E & HP) HPQ. exists h1. auto. Qed.

Lemma runs_alloc o h : runs (Store.alloc o) h (Ok (length h)) (λ h', h' = h ++ [o]).
Proof. by exists (h ++ [o]). Qed.

Lemma runs_load_list r xs h :
  h !! r = Some (PList xs) → runs (Store.load_list r) h (Ok xs) (λ h', h' = h).
Proof. intros E. exists h. unfold Store.load_list. by rewrite E. Qed.

Lemma runs_load_trade r t h :
  h !! r = Some (PTrade t) → runs (Store.load_trade r) h (Ok t) (λ h', h' = h).
Proof. intros E. exists h. unfold Store.load_trade. by rewrite E. Qed.

Lemma runs_load_lot r l h :
  h !! r = Some (PLot l) → runs (Store.load_lot r) h (Ok l) (λ h', h' = h).
Proof. intros E. exists h. unfold Store.load_lot. by rewrite E. Qed.

Lemma runs_store_list r xs ys h :
  h !! r = Some (PList ys) →
  runs (Store.store_list r xs) h (Ok ()) (λ h', h' = <[r := PList xs]> h).
Proof. intros E. eexists. unfold Store.store_list. by rewrite E. Qed.

Lemma runs_update_lot r f l h :
  h !! r = Some (PLot l) →
  runs (Store.update_lot r f) h (Ok ()) (λ h', h' = <[r := PLot (f l)]> h).
Proof. intros E. eexists. unfold Store.update_lot. by rewrite E. Qed.

(** *** Stores that grow *)

Lemma holds_prefix h h' l : holds h l → h `prefix_of` h' → holds h' l.
Proof.
  unfold holds. intros H Hp. eapply Forall_impl; [exact H|].
  intros [x t] E. by eapply prefix_lookup_Some.
Qed.

Lemma list_at_prefix h h' r l : list_at h r l → h `prefix_of` h' → list_at h' r l.
Proof.
  intros [E H] Hp. split; [by eapply prefix_lookup_Some | by eapply holds_prefix].
Qed.

Lemma prefix_snoc (h : heap) o : h `prefix_of` h ++ [o].
Proof. by apply prefix_app_r. Qed.

Lemma lookup_snoc (h : heap) o : (h ++ [o]) !! length h = Some o.
Proof. by apply list_lookup_middle. Qed.

(** *** Lists of trades *)

Lemma runs_load_trades l h :
  holds h l → runs (Store.load_trades l.*1) h (Ok l.*2) (λ h', h' = h).
Proof.
  induction 1 as [|[x t] l E _ IH]; [by apply runs_ret|].
  cbn [fmap list_fmap fst snd Store.load_trades] in *.
  eapply runs_bind; [by apply runs_load_trade|]. intros ? ->.
  eapply runs_bind; [exact IH|]. intros ? ->.
  by apply runs_ret.
Qed.

Lemma filter_pairs (p : trade → bool) (l : list (loc * trade)) :
  (filter (λ xt, p xt.2 = true) l).*2 = filter (λ t, p t = true) l.*2.
Proof.
  induction l as [|[x t] l IH]; [reflexivity|].
  cbn [fmap list_fmap]. rewrite !filter_cons. cbn [snd].
  destruct (decide (p t = true)); cbn [fmap list_fmap]; by rewrite IH.
Qed.

Lemma insert_by_pairs (x : loc * trade) (l : list (loc * trade)) :
  (insert_by (λ xt : loc * trade, date_key xt.2) x l).*2
  = insert_by date_key x.2 l.*2.
Proof.
  induction l as [|y l IH]; [reflexivity|].
  cbn [insert_by fmap list_fmap].
  destruct (String.leb _ _); cbn [fmap list_fmap]; by rewrite ?IH.
Qed.

Lemma sort_by_pairs (l : list (loc * trade)) :
  (sort_by (λ xt : loc * trade, date_key xt.2) l).*2 = sort_by date_key l.*2.
Proof.
  induction l as [|x l IH]; [reflexivity|].
  cbn [sort_by foldr fmap list_fmap]. rewrite insert_by_pairs. f_equal. exact IH.
Qed.

Lemma holds_filter h (p : trade → bool) l :
  holds h l → holds h (filter (λ xt, p xt.2 = true) l).
Proof.
  unfold holds. rewrite !Forall_forall. intros H xt Hin.
  apply list_elem_of_filter in Hin as [_ Hin]. by apply H.
Qed.

Lemma holds_sort h l :
  holds h l → holds h (sort_by (λ xt : loc * trade, date_key xt.2) l).
Proof. apply sort_by_Forall. Qed.

(** [xs] are the references and [ts] the trades of the pairs [l]. *)
Lemma sorted_refs_pairs (l : list (loc * trade)) :
  Store.sorted_refs l.*1 l.*2 = (sort_by (λ xt : loc * trade, date_key xt.2) l).*1.
Proof. unfold Store.sorted_refs. by rewrite zip_fst_snd. Qed.

Lemma runs_list_copy r l h :
  list_at h r l →
  runs (Store.list_copy r) h (Ok (length h)) (λ h', h' = h ++ [PList l.*1]).
Proof.
  intros [E H]. unfold Store.list_copy.
  eapply runs_bind; [by apply runs_load_list|]. intros ? ->. apply runs_alloc.
Qed.

Lemma runs_list_filter (p : trade → bool) r l h :
  list_at h r l →
  runs (Store.list_filter p r) h (Ok (length h))
    (λ h', h' = h ++ [PList (filter (λ xt, p xt.2 = true) l).*1]).
Proof.
  intros [E H]. unfold Store.list_filter.
  eapply runs_bind; [by apply runs_load_list|]. intros ? ->.
  eapply runs_bind; [by apply runs_load_trades|]. intros ? ->.
  rewrite zip_fst_snd. apply runs_alloc.
Qed.

Lemma runs_sorted r l h :
  list_at h r l →
  runs (Store.sorted r) h (Ok (length h))
    (λ h', h' = h ++ [PList (sort_by (λ xt : loc * trade, date_key xt.2) l).*1]).
Proof.
  intros [E H]. unfold Store.sorted.
  eapply runs_bind; [by apply runs_load_list|]. intros ? ->.
  eapply runs_bind; [by apply runs_load_trades|]. intros ? ->.
  rewrite sorted_refs_pairs. apply runs_alloc.
Qed.

Lemma runs_sort_in_place r l h :
  list_at h r l →
  runs (Store.sort_in_place r) h (Ok ())
    (λ h', h' = <[r := PList (sort_by (λ xt : loc * trade, date_key xt.2) l).*1]> h).
Proof.
  intros [E H]. unfold Store.sort_in_place.
  eapply runs_bind; [by apply runs_load_list|]. intros ? ->.
  eapply runs_bind; [by apply runs_load_trades|]. intros ? ->.
  rewrite sorted_refs_pairs. by eapply runs_store_list.
Qed.

Lemma list_at_snoc h l : holds h l → list_at (h ++ [PList l.*1]) (length h) l.
Proof.
  intros H. split; [apply lookup_snoc|].
  eapply holds_prefix; [exact H | apply prefix_snoc].
Qed.

Lemma insert_snoc (h : heap) o o' : <[length h := o']> (h ++ [o]) = h ++ [o'].
Proof.
  rewrite insert_app_r_alt by lia. by rewrite Nat.sub_diag.
Qed.

(** The trades of [asset] in date order, as pairs. *)
Definition history_pairs (l : list (loc * trade)) (asset : string) : list (loc * trade) :=
  sort_by (λ xt : loc * trade, date_key xt.2)
    (filter (λ xt, is_asset xt.2 asset = true) l).

Lemma history_pairs_trades l asset :
  (history_pairs l asset).*2 = asset_history l.*2 asset.
Proof.
  unfold history_pairs, asset_history.
  by rewrite sort_by_pairs, (filter_pairs (λ t, is_asset t asset)).
Qed.

Lemma holds_history h l asset : holds h l → holds h (history_pairs l asset).
Proof.
  intros H. apply holds_sort. by apply (holds_filter h (λ t, is_asset t asset)).
Qed.

Lemma runs_asset_history r l asset h :
  list_at h r l →
  runs (Store.asset_history r asset) h (Ok (length h))
    (λ h', h' = h ++ [PList (history_pairs l asset).*1]).
Proof.
  intros Hl. unfold Store.asset_history.
  eapply runs_bind; [by apply runs_list_filter|]. intros ? ->.
  eapply runs_bind.
  { apply runs_sort_in_place. apply list_at_snoc.
    apply (holds_filter h (λ t, is_asset t asset)), Hl. }
  intros ? ->. rewrite insert_snoc. by apply runs_ret.
Qed.

(** *** The lots *)

(** The order in which the loop takes the lots of a list. *)
Definition ord {A} (front : bool) (l : list A) : list A :=
  if front then l else rev l.

Lemma ord_ord {A} front (l : list A) : ord front (ord front l) = l.
Proof. destruct front; [reflexivity | apply rev_involutive]. Qed.

Lemma pick_ord front x xs :
  Store.pick front (ord front (x :: xs)) = Some (x, ord front xs).
Proof.
  destruct front; [reflexivity|]. unfold Store.pick, ord.
  by rewrite rev_involutive.
Qed.

Lemma pick_nil front : Store.pick front (ord front []) = None.
Proof. by destruct front. Qed.

(** The list object [lots] refers to the lot dicts [lc], all made after the
    first [n] objects of the store; [xc] and [lc] are in the order in which
    they are taken. *)
Definition lots_rep (n : nat) (front : bool) (h : heap) (lots : loc)
    (xc : list loc) (lc : list lot) : Prop :=
  h !! lots = Some (PList (ord front xc))
  ∧ Forall2 (λ x l, h !! x = Some (PLot l)) xc lc
  ∧ NoDup xc
  ∧ (n ≤ lots)%nat ∧ Forall (λ x, (n ≤ x)%nat) xc.

Lemma rev_reverse {A} (l : list A) : rev l = reverse l.
Proof. apply rev_alt. Qed.

Lemma Forall2_rev {A B} (P : A → B → Prop) l k :
  Forall2 P l k → Forall2 P (rev l) (rev k).
Proof. rewrite !rev_reverse. apply Forall2_reverse. Qed.

Lemma lots_rep_ord n front h lots xs ls :
  lots_rep n true h lots xs ls →
  lots_rep n front h lots (ord front xs) (ord front ls).
Proof.
  intros (E & F & D & Hn & B). unfold lots_rep. rewrite ord_ord.
  destruct front; [done|]. cbn [ord] in *.
  repeat split; try done.
  - by apply Forall2_rev.
  - by rewrite rev_reverse, reverse_Permutation.
  - by apply Forall_rev.
Qed.

Lemma lots_rep_unord n front h lots xc lc :
  lots_rep n front h lots xc lc →
  lots_rep n true h lots (ord front xc) (ord front lc).
Proof.
  intros (E & F & D & Hn & B). unfold lots_rep.
  destruct front; [done|]. cbn [ord] in *.
  repeat split; try done.
  - by apply Forall2_rev.
  - by rewrite rev_reverse, reverse_Permutation.
  - by apply Forall_rev.
Qed.

Lemma prefix_insert_ge (hb h : heap) i o :
  hb `prefix_of` h → (length hb ≤ i)%nat → hb `prefix_of` <[i := o]> h.
Proof.
  intros [k ->] Hi. rewrite insert_app_r_alt by exact Hi. by eexists.
Qed.

Lemma lots_elems_insert (h : heap) i o xs ls :
  Forall2 (λ x l, h !! x = Some (PLot l)) xs ls →
  i ∉ xs →
  Forall2 (λ x l, <[i := o]> h !! x = Some (PLot l)) xs ls.
Proof.
  induction 1 as [|x l xs ls E _ IH]; intros Hi; constructor.
  - rewrite list_lookup_insert_ne; [exact E|]. intros ->. apply Hi. left.
  - apply IH. intros Hin. apply Hi. by right.
Qed.

Lemma lots_elems_snoc (h : heap) o xs ls :
  Forall2 (λ x l, h !! x = Some (PLot l)) xs ls →
  Forall2 (λ x l, (h ++ [o]) !! x = Some (PLot l)) xs ls.
Proof.
  intros H. eapply Forall2_impl; [exact H|]. intros x l E.
  eapply prefix_lookup_Some; [exact E | apply prefix_snoc].
Qed.

Lemma list_not_lot (h : heap) r ys xs ls :
  h !! r = Some (PList ys) →
  Forall2 (λ x l, h !! x = Some (PLot l)) xs ls → r ∉ xs.
Proof.
  intros E F Hin. apply list_elem_of_lookup in Hin as [i Hi].
  destruct (Forall2_lookup_l _ _ _ _ _ F Hi) as (l & _ & El). congruence.
Qed.

Section Lots.
Variable hb : heap.
Variable front : bool.
Variable lots : loc.

Lemma runs_match_lots lc : ∀ xc fuel s c h,
  (length lc < fuel)%nat →
  hb `prefix_of` h →
  lots_rep (length hb) front h lots xc lc →
  runs (Store.match_lots fuel front lots s c) h (Ok (match_lots lc s c).1)
    (λ h', hb `prefix_of` h'
           ∧ ∃ xc', lots_rep (length hb) front h' lots xc' (match_lots lc s c).2).
Proof.
  induction lc as [|l lc' IH]; intros xc fuel s c h Hfuel Hp (E & F & D & Hn & B);
    (destruct fuel as [|fuel]; [cbn in Hfuel; lia|]); cbn [Store.match_lots].
  - apply Forall2_nil_inv_r in F as ->.
    eapply runs_bind; [by apply runs_load_list|]. intros ? ->.
    rewrite pick_nil. apply runs_ret. split; [done|].
    exists []. cbn [match_lots snd]. repeat split; try done; constructor.
  - apply Forall2_cons_inv_r in F as (x & xc' & Ex & F & ->).
    apply NoDup_cons in D as [Hx D]. apply Forall_cons in B as [Bx B].
    eapply runs_bind; [by apply runs_load_list|]. intros ? ->.
    rewrite pick_ord. cbn [match_lots].
    destruct (Qltb 0 s).
    + eapply runs_bind; [by apply runs_load_lot|]. intros ? ->.
      destruct (Qle_bool (lot_quantity l) s).
      * eapply runs_bind; [by eapply runs_store_list|]. intros ? ->.
        apply (IH xc').
        -- cbn in Hfuel. lia.
        -- by apply prefix_insert_ge.
        -- repeat split; try done.
           ++ apply list_lookup_insert_eq. by eapply lookup_lt_Some.
           ++ apply lots_elems_insert; [done|]. by eapply list_not_lot.
      * eapply runs_bind; [by eapply runs_update_lot|]. intros ? ->.
        apply runs_ret. split; [by apply prefix_insert_ge|].
        exists (x :: xc'). cbn [snd]. repeat split; try done.
        -- rewrite list_lookup_insert_ne; [done|]. intros ->. congruence.
        -- constructor.
           ++ apply list_lookup_insert_eq. by eapply lookup_lt_Some.
           ++ by apply lots_elems_insert.
        -- by apply NoDup_cons.
        -- by apply Forall_cons.
    + apply runs_ret. split; [done|]. exists (x :: xc'). cbn [snd].
      repeat split; try done.
      * by constructor.
      * by apply NoDup_cons.
      * by apply Forall_cons.
Qed.

(** One turn of the replay in the functional model. *)
Definition lot_step_of (st : ledger) (t : trade) : ledger :=
  if front then fifo_step st t else lifo_step st t.

Lemma lot_step_of_eq c u ls t :
  lot_step_of (c, u, ls) t
  = if is_acquisition t then acquire (c, u, ls) t
    else if is_type t "SELL" then
      (let '(c', lc') := match_lots (ord front ls) (num0 (t_quantity t)) c in
       (c', u - num0 (t_quantity t), ord front lc'))
    else (c, u, ls).
Proof. unfold lot_step_of. by destruct front. Qed.

Lemma runs_acquire c u ls xs t h :
  hb `prefix_of` h →
  lots_rep (length hb) true h lots xs ls →
  runs (Store.acquire lots (c, u) t) h
    (Ok ((acquire (c, u, ls) t).1.1, (acquire (c, u, ls) t).1.2))
    (λ h', hb `prefix_of` h'
           ∧ ∃ xs', lots_rep (length hb) true h' lots xs' (acquire (c, u, ls) t).2).
Proof.
  intros Hp (E & F & D & Hn & B). unfold Store.acquire, acquire.
  destruct (Qltb 0 _ && Qltb 0 _); cbn [fst snd].
  - eapply runs_bind; [apply runs_alloc|]. intros ? ->.
    assert (Hlt : (lots < length h)%nat) by (by eapply lookup_lt_Some).
    eapply runs_bind.
    { unfold Store.list_append.
      eapply runs_bind.
      { apply runs_load_list. rewrite lookup_app_l by exact Hlt. exact E. }
      intros ? ->. eapply runs_store_list.
      rewrite lookup_app_l by exact Hlt. exact E. }
    intros ? ->. apply runs_ret. split.
    { apply prefix_insert_ge; [|done]. by apply prefix_app_r. }
    exists (xs ++ [length h]). repeat split; try done.
    + cbn [ord]. apply list_lookup_insert_eq. rewrite length_app. lia.
    + apply Forall2_app.
      * apply lots_elems_insert.
        -- by apply lots_elems_snoc.
        -- by eapply list_not_lot.
      * constructor; [|constructor].
        rewrite list_lookup_insert_ne by lia. apply lookup_snoc.
    + apply NoDup_app. split; [done|]. split; [|apply NoDup_singleton].
      intros x Hx Hx'. apply list_elem_of_singleton in Hx' as ->.
      apply list_elem_of_lookup in Hx as [i Hi].
      destruct (Forall2_lookup_l _ _ _ _ _ F Hi) as (l & _ & El).
      apply lookup_lt_Some in El. lia.
    + apply Forall_app. split; [done|]. constructor; [|constructor].
      apply prefix_length in Hp. lia.
  - apply runs_ret. split; [done|]. by exists xs.
Qed.

Lemma runs_lot_step c u ls xs t h :
  hb `prefix_of` h →
  lots_rep (length hb) true h lots xs ls →
  runs (Store.lot_step front lots (c, u) t) h
    (Ok ((lot_step_of (c, u, ls) t).1.1, (lot_step_of (c, u, ls) t).1.2))
    (λ h', hb `prefix_of` h'
           ∧ ∃ xs', lots_rep (length hb) true h' lots xs' (lot_step_of (c, u, ls) t).2).
Proof.
  intros Hp Hr. rewrite lot_step_of_eq. unfold Store.lot_step.
  destruct (is_acquisition t); [by apply (runs_acquire c u ls xs)|].
  destruct (is_type t "SELL").
  - unfold Store.sell.
    pose proof Hr as (E & F & _).
    eapply runs_bind; [eapply runs_load_list; exact E|]. intros ? ->.
    pose proof (lots_rep_ord _ front _ _ _ _ Hr) as Hr'.
    eapply runs_bind.
    { apply (runs_match_lots (ord front ls) (ord front xs)); [|exact Hp|exact Hr'].
      apply Forall2_length in F. cbn [ord].
      destruct front; cbn [ord]; rewrite ?length_rev; lia. }
    intros h' [Hp' [xc' Hr'']]. cbv beta in *.
    destruct (match_lots (ord front ls) (num0 (t_quantity t)) c) as [c' lc'].
    cbn [fst snd] in *. apply runs_ret. split; [done|].
    exists (ord front xc'). by apply lots_rep_unord.
  - apply runs_ret. split; [done|]. by exists xs.
Qed.

Lemma runs_lot_loop l : ∀ c u ls xs h,
  holds hb l →
  hb `prefix_of` h →
  lots_rep (length hb) true h lots xs ls →
  runs (Store.lot_loop front lots (c, u) l.*1) h
    (Ok ((foldl lot_step_of (c, u, ls) l.*2).1.1,
         (foldl lot_step_of (c, u, ls) l.*2).1.2))
    (λ h', hb `prefix_of` h'
           ∧ ∃ xs', lots_rep (length hb) true h' lots xs'
                      (foldl lot_step_of (c, u, ls) l.*2).2).
Proof.
  induction l as [|[x t] l IH]; intros c u ls xs h Hl Hp Hr.
  - apply runs_ret. split; [done|]. by exists xs.
  - apply Forall_cons in Hl as [Hx Hl].
    cbn [fmap list_fmap fst snd Store.lot_loop foldl] in *.
    eapply runs_bind.
    { apply runs_load_trade. by eapply prefix_lookup_Some. }
    intros ? ->.
    eapply runs_bind; [by apply (runs_lot_step c u ls xs)|].
    intros h' [Hp' [xs' Hr']]. cbv beta in *.
    destruct (lot_step_of (c, u, ls) t) as [[c1 u1] ls1]. cbn [fst snd] in *.
    by apply (IH c1 u1 ls1 xs').
Qed.
End Lots.

(** *** The engines *)

Definition engine_of (front : bool) : list trade → string → ledger :=
  if front then calculate_cost_basis_fifo else calculate_cost_basis_lifo.

Lemma engine_of_eq front ts a :
  engine_of front ts a = foldl (lot_step_of front) ledger0 (asset_history ts a).
Proof. by destruct front. Qed.

Lemma runs_cost_basis_lots front r l a h :
  list_at h r l →
  runs (Store.calculate_cost_basis_lots front r a) h
    (Ok ((engine_of front l.*2 a).1.1, (engine_of front l.*2 a).1.2, S (length h)))
    (λ h', h `prefix_of` h'
           ∧ ∃ xs, lots_rep (S (length h)) true h' (S (length h)) xs
                     (engine_of front l.*2 a).2).
Proof.
  intros Hl. unfold Store.calculate_cost_basis_lots.
  eapply runs_bind; [by apply runs_asset_history|]. intros ? ->.
  set (hist := history_pairs l a).
  set (h1 := h ++ [PList hist.*1]).
  assert (Hlen : length h1 = S (length h)).
  { unfold h1. rewrite length_app. cbn. lia. }
  eapply runs_bind; [apply runs_alloc|]. intros ? ->.
  eapply runs_bind.
  { eapply runs_load_list. eapply prefix_lookup_Some; [|apply prefix_snoc].
    apply lookup_snoc. }
  intros ? ->.
  assert (Hh : holds h1 hist).
  { eapply holds_prefix; [|apply prefix_snoc]. apply holds_history, Hl. }
  eapply runs_bind.
  { apply (runs_lot_loop h1 front (length h1) hist 0 0 [] [] (h1 ++ [PList []]));
      [exact Hh | apply prefix_snoc |].
    repeat split; try done; try constructor. apply lookup_snoc. }
  intros h' [Hp [xs Hr]]. cbv beta in *.
  rewrite engine_of_eq, <- history_pairs_trades. fold hist. unfold ledger0.
  rewrite Hlen in *.
  apply runs_ret. split; [|by exists xs].
  etrans; [|exact Hp]. apply prefix_snoc.
Qed.

Lemma runs_average_loop l : ∀ st h,
  holds h l →
  runs (Store.average_loop st l.*1) h (average_loop st l.*2) (λ h', h' = h).
Proof.
  induction l as [|[x t] l IH]; intros st h Hl; [by apply runs_ret|].
  apply Forall_cons in Hl as [Hx Hl].
  cbn [fmap list_fmap fst snd Store.average_loop average_loop] in *.
  eapply runs_bind; [by apply runs_load_trade|]. intros ? ->.
  destruct (average_step st t) as [st'|e]; cbn [result_bind].
  - eapply runs_bind; [apply runs_lift_eq|]. intros ? ->. by apply IH.
  - apply runs_bind_raise. by apply runs_lift.
Qed.

Lemma runs_alloc_lots ls : ∀ h,
  ∃ xs, runs (Store.alloc_lots ls) h (Ok xs) (λ h', h `prefix_of` h').
Proof.
  induction ls as [|l ls IH]; intros h; [exists []; by apply runs_ret|].
  destruct (IH (h ++ [PLot l])) as [xs Hxs].
  exists (length h :: xs). cbn [Store.alloc_lots].
  eapply runs_bind; [apply runs_alloc|]. intros ? ->.
  eapply runs_bind; [exact Hxs|]. intros h' Hp. cbv beta in *.
  apply runs_ret. etrans; [apply prefix_snoc | exact Hp].
Qed.

(** The cost basis and the units of a result of an engine. *)
Definition cost_units {X} (r : result (Q * Q * X)) : result (Q * Q) :=
  match r with
  | Ok (c, u, _) => Ok (c, u)
  | Raise e => Raise e
  end.

Lemma runs_cost_basis_average r l a h :
  list_at h r l →
  ∃ res, runs (Store.calculate_cost_basis_average r a) h res (λ h', h `prefix_of` h')
         ∧ cost_units res = cost_units (calculate_cost_basis_average l.*2 a).
Proof.
  intros Hl. unfold Store.calculate_cost_basis_average, calculate_cost_basis_average.
  set (hist := history_pairs l a).
  set (h1 := h ++ [PList hist.*1]).
  assert (Hh : holds h1 hist).
  { eapply holds_prefix; [|apply prefix_snoc]. apply holds_history, Hl. }
  pose proof (runs_average_loop hist (0, 0) h1 Hh) as Hloop.
  rewrite <- history_pairs_trades. fold hist.
  destruct (average_loop (0, 0) hist.*2) as [[c u]|e]; cbn [result_bind cost_units].
  - destruct (runs_alloc_lots (average_lots c u) h1) as (xs & h2 & Exs & Hp2).
    exists (Ok (c, u, length h2)). split; [|reflexivity].
    eapply runs_bind; [by apply runs_asset_history|]. intros ? ->.
    eapply runs_bind; [eapply runs_load_list; apply lookup_snoc|]. intros ? ->.
    eapply runs_bind; [exact Hloop|]. intros h1' Eh1. cbv beta in Eh1. subst h1'.
    eapply (runs_bind _ _ _ _ _ (λ h', h' = h2)); [by exists h2|]. intros ? ->.
    eapply runs_bind; [apply runs_alloc|]. intros ? ->.
    apply runs_ret.
    etrans; [apply prefix_snoc|]. etrans; [exact Hp2 | apply prefix_snoc].
  - exists (Raise e). split; [|reflexivity].
    eapply runs_bind; [by apply runs_asset_history|]. intros ? ->.
    eapply runs_bind; [eapply runs_load_list; apply lookup_snoc|]. intros ? ->.
    apply runs_bind_raise.
    eapply runs_mono; [exact Hloop|]. intros h1' Eh1. cbv beta in Eh1. subst h1'. apply prefix_snoc.
Qed.

Lemma runs_cost_basis_by m r l a h :
  list_at h r l →
  ∃ res, runs (Store.cost_basis_by m r a) h res (λ h', h `prefix_of` h')
         ∧ cost_units res = cost_units (cost_basis_by m l.*2 a).
Proof.
  intros Hl. unfold Store.cost_basis_by, cost_basis_by.
  destruct (String.eqb (effective_method m) "fifo").
  { eexists. split.
    - eapply runs_mono; [apply (runs_cost_basis_lots true), Hl|].
      by intros h' [Hp _].
    - cbn [cost_units engine_of].
      by destruct (calculate_cost_basis_fifo l.*2 a) as [[c u] ls]. }
  destruct (String.eqb (effective_method m) "lifo").
  { eexists. split.
    - eapply runs_mono; [apply (runs_cost_basis_lots false), Hl|].
      by intros h' [Hp _].
    - cbn [cost_units engine_of].
      by destruct (calculate_cost_basis_lifo l.*2 a) as [[c u] ls]. }
  by apply runs_cost_basis_average.
Qed.

(** *** The aggregator *)

Lemma runs_asset_step m look r l acc a h :
  list_at h r l →
  runs (Store.asset_step m look r acc a) h (asset_step m look l.*2 acc a)
    (λ h', h `prefix_of` h').
Proof.
  intros Hl. destruct acc as [[[pa cb] up] va].
  unfold Store.asset_step, asset_step.
  eapply runs_bind; [by apply runs_list_filter|]. intros ? ->.
  set (fl := filter (λ xt : loc * trade, is_asset xt.2 a = true) l).
  eapply runs_bind; [eapply runs_load_list; apply lookup_snoc|]. intros ? ->.
  rewrite <- (filter_pairs (λ t, is_asset t a) l). fold fl.
  assert (Hfl : list_at (h ++ [PList fl.*1]) (length h) fl).
  { apply list_at_snoc. apply (holds_filter h (λ t, is_asset t a)), Hl. }
  destruct fl as [|[x t] fl'] eqn:Efl.
  { apply runs_ret. apply prefix_snoc. }
  cbn [fmap list_fmap fst snd].
  change (x :: fl'.*1) with (((x, t) :: fl').*1).
  change (t :: fl'.*2) with (((x, t) :: fl').*2).
  destruct (runs_cost_basis_by m (length h) ((x, t) :: fl') a _ Hfl)
    as (res & Hrun & Hres).
  destruct (cost_basis_by m ((x, t) :: fl').*2 a) as [[[c u] ls]|e];
    destruct res as [[[c' u'] lots]|e']; cbn [cost_units result_bind] in *;
    try discriminate.
  - injection Hres as -> ->.
    eapply runs_bind; [exact Hrun|]. intros h1 Hp1. cbv beta in *.
    eapply runs_bind.
    { apply runs_load_trades. eapply holds_prefix; [apply Hfl | exact Hp1]. }
    intros ? ->. apply runs_ret.
    etrans; [apply prefix_snoc | exact Hp1].
  - injection Hres as ->. apply runs_bind_raise.
    eapply runs_mono; [exact Hrun|]. intros h1 Hp1. cbv beta in *.
    etrans; [apply prefix_snoc | exact Hp1].
Qed.

Lemma runs_asset_loop m look r l assets : ∀ acc h,
  list_at h r l →
  runs (Store.asset_loop m look r acc assets) h (asset_loop m look l.*2 acc assets)
    (λ h', h `prefix_of` h').
Proof.
  induction assets as [|a rest IH]; intros acc h Hl; [by apply runs_ret|].
  cbn [Store.asset_loop asset_loop].
  pose proof (runs_asset_step m look r l acc a h Hl) as Hstep.
  destruct (asset_step m look l.*2 acc a) as [acc'|e]; cbn [result_bind].
  - eapply runs_bind; [exact Hstep|]. intros h1 Hp1. cbv beta in *.
    eapply runs_mono; [apply IH; by eapply list_at_prefix|].
    intros h2 Hp2. cbv beta in *. by etrans.
  - by apply runs_bind_raise.
Qed.

Lemma match_nonempty {A B} (l : list A) (a b : B) :
  l ≠ [] → match l with [] => a | _ :: _ => b end = b.
Proof. by destruct l. Qed.

Lemma runs_compute_portfolio_metrics m look r l h :
  list_at h r l →
  runs (Store.compute_portfolio_metrics r m look) h
    (compute_portfolio_metrics l.*2 m look) (λ h', h `prefix_of` h').
Proof.
  intros Hl. unfold Store.compute_portfolio_metrics, compute_portfolio_metrics.
  eapply runs_bind; [eapply runs_load_list; apply Hl|]. intros ? ->.
  destruct (decide (l = [])) as [-> | Hne]; [by apply runs_ret|].
  rewrite (match_nonempty l.*1), (match_nonempty l.*2) by (by destruct l).
  eapply runs_bind; [by apply runs_sorted|]. intros ? ->.
  set (sl := sort_by (λ xt : loc * trade, date_key xt.2) l).
  assert (Hsl : list_at (h ++ [PList sl.*1]) (length h) sl).
  { apply list_at_snoc. apply holds_sort, Hl. }
  eapply runs_bind; [eapply runs_load_list; apply lookup_snoc|]. intros ? ->.
  eapply runs_bind; [apply runs_load_trades, Hsl|]. intros ? ->.
  unfold sl at 2 3 4. rewrite !sort_by_pairs. fold sl.
  destruct (crypto_asset_set (sort_by date_key l.*2)) as [s|e]; cbn [result_bind].
  - eapply runs_bind; [apply runs_lift_eq|]. intros ? ->.
    pose proof (runs_asset_loop m look (length h) sl (sorted_set s) totals0 _ Hsl)
      as Hloop.
    unfold sl at 2 in Hloop. rewrite sort_by_pairs in Hloop.
    destruct (asset_loop m look (sort_by date_key l.*2) totals0 (sorted_set s))
      as [acc|e]; cbn [result_bind].
    + eapply runs_bind; [exact Hloop|]. intros h1 Hp1. cbv beta in *.
      eapply runs_bind.
      { apply runs_load_trades. eapply holds_prefix; [apply Hsl | exact Hp1]. }
      intros ? ->. unfold sl. rewrite sort_by_pairs.
      apply runs_ret. etrans; [apply prefix_snoc | exact Hp1].
    + apply runs_bind_raise. eapply runs_mono; [exact Hloop|].
      intros h1 Hp1. cbv beta in *. etrans; [apply prefix_snoc | exact Hp1].
  - apply runs_bind_raise. apply runs_lift. apply prefix_snoc.
Qed.

(** *** The projection *)

Section ProjectionFacts.
Variable cost_basis_method : string.
Variable get_current_price : string → option Q.
Variable syn_date : nat → string.
Variable new_id : nat → string.

Lemma holds_insert_list (h : heap) r ys o l :
  h !! r = Some (PList ys) → holds h l → holds (<[r := o]> h) l.
Proof.
  intros E H. unfold holds in *. eapply Forall_impl; [exact H|].
  intros [x t] Ex. cbn [fst snd] in *.
  rewrite list_lookup_insert_ne; [exact Ex|]. intros ->. congruence.
Qed.

Lemma runs_list_append_trade tr l t h :
  list_at h tr l →
  runs (d ← Store.alloc (PTrade t); Store.list_append tr d) h (Ok ())
    (λ h', h' = <[tr := PList (l ++ [(length h, t)]).*1]> (h ++ [PTrade t])).
Proof.
  intros [E H].
  assert (Hlt : (tr < length h)%nat) by (by eapply lookup_lt_Some).
  eapply runs_bind; [apply runs_alloc|]. intros ? ->.
  unfold Store.list_append.
  eapply runs_bind.
  { eapply runs_load_list. rewrite lookup_app_l by exact Hlt. exact E. }
  intros ? ->. rewrite fmap_app. cbn [fmap list_fmap fst].
  eapply runs_store_list. rewrite lookup_app_l by exact Hlt. exact E.
Qed.

Lemma list_at_append tr l t h :
  list_at h tr l →
  list_at (<[tr := PList (l ++ [(length h, t)]).*1]> (h ++ [PTrade t])) tr
    (l ++ [(length h, t)]).
Proof.
  intros [E H].
  assert (Hlt : (tr < length h)%nat) by (by eapply lookup_lt_Some).
  assert (E' : (h ++ [PTrade t]) !! tr = Some (PList l.*1)).
  { rewrite lookup_app_l by exact Hlt. exact E. }
  split.
  - apply list_lookup_insert_eq. rewrite length_app. lia.
  - eapply holds_insert_list; [exact E'|].
    apply Forall_app. split.
    + eapply holds_prefix; [exact H | apply prefix_snoc].
    + constructor; [|constructor]. apply lookup_snoc.
Qed.

Lemma runs_add_rows hb tr rows : ∀ i l h,
  hb `prefix_of` h → (length hb ≤ tr)%nat →
  list_at h tr l →
  runs (Store.add_rows syn_date new_id tr i rows) h (Ok ())
    (λ h', hb `prefix_of` h'
           ∧ ∃ l', list_at h' tr l' ∧ l'.*2 = l.*2 ++ synthetic_trades syn_date new_id i rows).
Proof.
  induction rows as [|row rest IH]; intros i l h Hp Hn Hl.
  { apply runs_ret. split; [done|]. exists l. split; [done|].
    cbn [synthetic_trades]. by rewrite app_nil_r. }
  cbn [Store.add_rows synthetic_trades].
  assert (Hskip :
    runs (mret () ≫= λ _ : (), Store.add_rows syn_date new_id tr (S i) rest) h (Ok ())
      (λ h', hb `prefix_of` h'
             ∧ ∃ l', list_at h' tr l'
                     ∧ l'.*2 = l.*2 ++ [] ++ synthetic_trades syn_date new_id (S i) rest)).
  { eapply runs_bind; [by apply (runs_ret () h (λ h', h' = h))|].
    intros ? ->. by apply IH. }
  destruct row as [r|]; [|exact Hskip].
  destruct (Qle_bool (Store.pr_price r) 0 || Qle_bool (Store.pr_quantity r) 0);
    [exact Hskip|].
  eapply runs_bind; [by apply runs_list_append_trade|]. intros ? ->.
  eapply runs_mono.
  { apply (IH (S i) (l ++ [(length h, Store.synthetic_trade syn_date new_id i r)])).
    - apply prefix_insert_ge; [|exact Hn]. by apply prefix_app_r.
    - exact Hn.
    - by apply list_at_append. }
  intros h' [Hp' (l' & Hl' & El')]. cbv beta in *. split; [exact Hp'|].
  exists l'. split; [exact Hl'|].
  rewrite El', fmap_app. cbn [fmap list_fmap snd]. by rewrite <- app_assoc.
Qed.

Lemma runs_projection data_trades l rows h :
  list_at h data_trades l →
  runs (Store.run_projection_from_table cost_basis_method get_current_price
          syn_date new_id data_trades rows) h
    (projected_metrics cost_basis_method get_current_price syn_date new_id
       l.*2 rows) (λ h', h `prefix_of` h').
Proof.
  intros Hl. unfold Store.run_projection_from_table, projected_metrics.
  eapply runs_bind; [by apply runs_list_copy|]. intros ? ->.
  set (h1 := h ++ [PList l.*1]).
  assert (Hl1 : list_at h1 (length h) l) by apply list_at_snoc, Hl.
  eapply runs_bind; [by apply runs_list_copy|]. intros ? ->.
  assert (Hl2 : list_at (h1 ++ [PList l.*1]) (length h1) l).
  { apply list_at_snoc, Hl1. }
  eapply runs_bind.
  { apply (runs_add_rows h1 (length h1) rows 0 l); [apply prefix_snoc | lia | exact Hl2]. }
  intros h3 (Hp3 & l' & Hl' & El'). cbv beta in *.
  assert (Hp : h `prefix_of` h3).
  { etrans; [apply prefix_snoc | exact Hp3]. }
  eapply runs_bind; [eapply runs_load_list; apply Hl'|]. intros ? ->.
  rewrite <- El'.
  destruct (decide (l' = [])) as [-> | Hne]; [by apply runs_ret|].
  rewrite (match_nonempty l'.*1), (match_nonempty l'.*2) by (by destruct l').
  pose proof (runs_compute_portfolio_metrics cost_basis_method get_current_price
                (length h1) l' h3 Hl') as Hm.
  destruct (compute_portfolio_metrics l'.*2 cost_basis_method get_current_price)
    as [metrics|e]; cbn [result_bind].
  - eapply runs_bind; [exact Hm|]. intros h4 Hp4. cbv beta in *.
    apply runs_ret. by etrans.
  - apply runs_bind_raise. eapply runs_mono; [exact Hm|].
    intros h4 Hp4. cbv beta in *. by etrans.
Qed.
End ProjectionFacts.

(** The store after [m] has run in [h]. *)
Definition store_after {A} (m : Store.M A) (h : heap) : heap := (m h).1.

Lemma runs_store_after {A} (m : Store.M A) h r P :
  runs m h r P → P (store_after m h).
Proof. intros (h' & E & HP). unfold store_after. by rewrite E. Qed.

Lemma runs_result {A} (m : Store.M A) h r P : runs m h r P → (m h).2 = r.
Proof. intros (h' & E & HP). by rewrite E. Qed.

(** ** The trades passed in are left as they were *)

(** Running [m] in [h] keeps every object of [h] as it is; in particular the
    list object [trades] still refers to the same dicts, in the same order,
    and each of them holds the same trade. *)
Definition unchanged_by {A} (m : Store.M A) (h : heap) (trades : loc)
    (l : list (loc * trade)) : Prop :=
  h `prefix_of` store_after m h ∧ list_at (store_after m h) trades l.

Lemma runs_unchanged {A} (m : Store.M A) h r trades l :
  list_at h trades l →
  runs m h r (λ h', h `prefix_of` h') → unchanged_by m h trades l.
Proof.
  intros Hl Hr. apply runs_store_after in Hr.
  split; [exact Hr | by eapply list_at_prefix].
Qed.

(** The store model computes what the functional model computes: the
    aggregator and the projection return the same result, the engines the
    same cost basis and units, and no loop bound is ever reached. *)
Theorem store_refines (h : heap) (trades : loc) (l : list (loc * trade))
    (m : string) (look : string → option Q) (syn_date new_id : nat → string)
    (rows : list (option Store.proj_row)) (asset : string) :
  list_at h trades l →
  (Store.run_projection_from_table m look syn_date new_id trades rows h).2
    = projected_metrics m look syn_date new_id l.*2 rows
  ∧ (Store.compute_portfolio_metrics trades m look h).2
    = compute_portfolio_metrics l.*2 m look
  ∧ cost_units (Store.calculate_cost_basis_fifo trades asset h).2
    = cost_units (Ok (calculate_cost_basis_fifo l.*2 asset))
  ∧ cost_units (Store.calculate_cost_basis_lifo trades asset h).2
    = cost_units (Ok (calculate_cost_basis_lifo l.*2 asset))
  ∧ cost_units (Store.calculate_cost_basis_average trades asset h).2
    = cost_units (calculate_cost_basis_average l.*2 asset).
Proof.
  intros Hl. split; [|split; [|split; [|split]]].
  - eapply runs_result. by apply runs_projection.
  - eapply runs_result. by apply runs_compute_portfolio_metrics.
  - unfold Store.calculate_cost_basis_fifo.
    rewrite (runs_result _ _ _ _ (runs_cost_basis_lots true _ _ asset _ Hl)).
    cbn [cost_units engine_of].
    by destruct (calculate_cost_basis_fifo l.*2 asset) as [[c u] ls].
  - unfold Store.calculate_cost_basis_lifo.
    rewrite (runs_result _ _ _ _ (runs_cost_basis_lots false _ _ asset _ Hl)).
    cbn [cost_units engine_of].
    by destruct (calculate_cost_basis_lifo l.*2 asset) as [[c u] ls].
  - destruct (runs_cost_basis_average trades l asset h Hl) as (res & Hr & <-).
    by rewrite (runs_result _ _ _ _ Hr).
Qed.

(** C9.  When the list object [trades] refers to trade dicts, running the
    projection on it, and running the aggregator or any of the three
    cost-basis functions on it, leaves the list as it was, in length and
    in content: the list object and every dict it refers to are the same
    after the run (as is every other object that existed before). *)
Theorem original_trades_unchanged (h : heap) (trades : loc)
    (l : list (loc * trade)) (m : string) (look : string → option Q)
    (syn_date new_id : nat → string) (rows : list (option Store.proj_row))
    (asset : string) :
  list_at h trades l →
  unchanged_by (Store.run_projection_from_table m look syn_date new_id trades rows)
    h trades l
  ∧ unchanged_by (Store.compute_portfolio_metrics trades m look) h trades l
  ∧ unchanged_by (Store.calculate_cost_basis_fifo trades asset) h trades l
  ∧ unchanged_by (Store.calculate_cost_basis_lifo trades asset) h trades l
  ∧ unchanged_by (Store.calculate_cost_basis_average trades asset) h trades l.
Proof.
  intros Hl. split; [|split; [|split; [|split]]].
  - eapply runs_unchanged; [exact Hl|]. by apply runs_projection.
  - eapply runs_unchanged; [exact Hl|]. by apply runs_compute_portfolio_metrics.
  - eapply runs_unchanged; [exact Hl|].
    eapply runs_mono; [apply (runs_cost_basis_lots true), Hl|]. by intros h' [Hp _].
  - eapply runs_unchanged; [exact Hl|].
    eapply runs_mono; [apply (runs_cost_basis_lots false), Hl|]. by intros h' [Hp _].
  - destruct (runs_cost_basis_average trades l asset h Hl) as (res & Hr & _).
    by eapply runs_unchanged.
Qed.

(** A store with a ledger of two trades, and a table with a sale and a row
    that does not parse. *)
Definition sample_store : heap :=
  [PTrade paid_buy; PTrade (sale_of 1); PList [0%nat; 1%nat]].

Definition sample_rows : list (option Store.proj_row) :=
  [Some {| Store.pr_asset := "BTC"; Store.pr_type := "SELL";
           Store.pr_price := 30000; Store.pr_quantity := 1 # 2 |};
   None].

Lemma original_trades_unchanged_witness :
  let l := [(0%nat, paid_buy); (1%nat, sale_of 1)] in
  let date (i : nat) := "2025-01-01 00:00:00"%string in
  let uuid (i : nat) := "n"%string in
  unchanged_by (Store.run_projection_from_table "fifo" (λ _, None) date uuid
                  2%nat sample_rows) sample_store 2%nat l
  ∧ unchanged_by (Store.compute_portfolio_metrics 2%nat "fifo" (λ _, None))
      sample_store 2%nat l
  ∧ unchanged_by (Store.calculate_cost_basis_fifo 2%nat "BTC") sample_store 2%nat l
  ∧ unchanged_by (Store.calculate_cost_basis_lifo 2%nat "BTC") sample_store 2%nat l
  ∧ unchanged_by (Store.calculate_cost_basis_average 2%nat "BTC") sample_store 2%nat l.
Proof.
  intros l date uuid.
  apply (original_trades_unchanged sample_store 2%nat l "fifo" (λ _, None) date uuid
           sample_rows "BTC").
  split; [reflexivity | repeat constructor].
Defined.

(** On the sample the projection shows the metrics of the three trades, and
    the store has grown by the objects the run made. *)

(** On the sample the projection shows the metrics of the three trades, and
    the three objects of the store are what they were. *)
Example sample_projection :
  ∃ metrics,
    (Store.run_projection_from_table "fifo" (λ _, None)
       (λ _, "2025-01-01 00:00:00"%string) (λ _, "n"%string) 2%nat sample_rows
       sample_store).2 = Ok (Some metrics)
    ∧ total_value metrics == 15000
    ∧ usd_balance metrics == 10000
    ∧ take 3 (store_after
                (Store.run_projection_from_table "fifo" (λ _, None)
                   (λ _, "2025-01-01 00:00:00"%string) (λ _, "n"%string) 2%nat
                   sample_rows)
                sample_store) = sample_store.
Proof.
  eexists. split; [vm_compute; reflexivity|].
  split; [|split]; vm_compute; reflexivity.
Qed.

(** * Further properties of the accounting core *)

(** ** The order of strings and the sort *)

Lemma ascii_compare_refl (a : Ascii.ascii) : Ascii.compare a a = Eq.
Proof. apply N.compare_refl. Qed.

Lemma ascii_compare_lt_trans (a b c : Ascii.ascii) :
  Ascii.compare a b = Lt → Ascii.compare b c = Lt → Ascii.compare a c = Lt.
Proof.
  unfold Ascii.compare. rewrite !N.compare_lt_iff. apply N.lt_trans.
Qed.

Lemma string_compare_refl (s : string) : String.compare s s = Eq.
Proof.
  induction s as [|a s IH]; [reflexivity|].
  cbn [String.compare]. by rewrite ascii_compare_refl.
Qed.

Lemma string_compare_lt_trans (s1 : string) : ∀ s2 s3,
  String.compare s1 s2 = Lt → String.compare s2 s3 = Lt → String.compare s1 s3 = Lt.
Proof.
  induction s1 as [|a s1 IH]; intros [|b s2] [|c s3]; cbn [String.compare];
    try done.
  destruct (Ascii.compare a b) eqn:Eab; try done;
    destruct (Ascii.compare b c) eqn:Ebc; try done.
  - apply Ascii.compare_eq_iff in Eab as ->, Ebc as ->.
    rewrite ascii_compare_refl. apply IH.
  - apply Ascii.compare_eq_iff in Eab as ->. by rewrite Ebc.
  - apply Ascii.compare_eq_iff in Ebc as ->. by rewrite Eab.
  - by rewrite (ascii_compare_lt_trans _ _ _ Eab Ebc).
Qed.

Lemma string_leb_refl (s : string) : String.leb s s = true.
Proof. unfold String.leb. by rewrite string_compare_refl. Qed.

Lemma string_leb_trans (s1 s2 s3 : string) :
  String.leb s1 s2 = true → String.leb s2 s3 = true → String.leb s1 s3 = true.
Proof.
  unfold String.leb.
  destruct (String.compare s1 s2) eqn:E12; try done;
    destruct (String.compare s2 s3) eqn:E23; try done; intros _ _.
  - apply String.compare_eq_iff in E12 as ->, E23 as ->.
    by rewrite string_compare_refl.
  - apply String.compare_eq_iff in E12 as ->. by rewrite E23.
  - apply String.compare_eq_iff in E23 as ->. by rewrite E12.
  - by rewrite (string_compare_lt_trans _ _ _ E12 E23).
Qed.

Lemma string_leb_false (s1 s2 : string) :
  String.leb s1 s2 = false → String.leb s2 s1 = true.
Proof.
  intros H. destruct (String.leb_total s1 s2) as [E | E]; [congruence | exact E].
Qed.

Section SortTheory.
Context {A : Type} (key : A → string).

(** [x] may stand before [y]. *)
Definition key_le (x y : A) : Prop := String.leb (key x) (key y) = true.

Fixpoint sorted_by (l : list A) : Prop :=
  match l with
  | [] => True
  | x :: l' => Forall (key_le x) l' ∧ sorted_by l'
  end.

Lemma insert_by_first x l :
  Forall (key_le x) l → insert_by key x l = x :: l.
Proof.
  destruct 1 as [|y l Hy _]; [reflexivity|].
  cbn [insert_by]. unfold key_le in Hy. by rewrite Hy.
Qed.

Lemma insert_by_sorted x l : sorted_by l → sorted_by (insert_by key x l).
Proof.
  induction l as [|y l IH]; cbn [insert_by sorted_by]; [by split|].
  intros [Hy Hl].
  destruct (String.leb (key x) (key y)) eqn:E; cbn [sorted_by].
  - split; [|by split]. constructor; [exact E|].
    eapply Forall_impl; [exact Hy|]. intros z Hz.
    by eapply string_leb_trans.
  - split; [|by apply IH].
    rewrite (insert_by_perm key x l). constructor; [|exact Hy].
    by apply string_leb_false.
Qed.

Lemma sort_by_sorted l : sorted_by (sort_by key l).
Proof.
  induction l as [|x l IH]; [done|]. by apply insert_by_sorted.
Qed.

Lemma sorted_sort_by l : sorted_by l → sort_by key l = l.
Proof.
  induction l as [|x l IH]; [reflexivity|]. intros [Hx Hl].
  cbn [sort_by foldr]. fold (sort_by key l). rewrite IH by exact Hl.
  by apply insert_by_first.
Qed.

Lemma sort_by_idem l : sort_by key (sort_by key l) = sort_by key l.
Proof. apply sorted_sort_by, sort_by_sorted. Qed.

Lemma filter_insert_by (P : A → Prop) `{!∀ x, Decision (P x)} x l :
  sorted_by l →
  filter P (insert_by key x l)
  = if decide (P x) then insert_by key x (filter P l) else filter P l.
Proof.
  induction l as [|y l IH]; cbn [insert_by sorted_by].
  { intros _. rewrite filter_cons, filter_nil. by destruct (decide (P x)). }
  intros [Hy Hl]. specialize (IH Hl).
  destruct (String.leb (key x) (key y)) eqn:E.
  - rewrite (filter_cons P x). destruct (decide (P x)); [|reflexivity].
    symmetry. apply insert_by_first.
    apply Forall_forall. intros z Hz.
    apply list_elem_of_filter in Hz as [_ Hz].
    apply elem_of_cons in Hz as [-> | Hz]; [exact E|].
    rewrite Forall_forall in Hy. eapply string_leb_trans; [exact E | by apply Hy].
  - rewrite (filter_cons P y), IH, (filter_cons P y).
    destruct (decide (P y)), (decide (P x)); try reflexivity.
    cbn [insert_by]. by rewrite E.
Qed.

(** Filtering and sorting commute: the sort is stable. *)
Lemma filter_sort_by (P : A → Prop) `{!∀ x, Decision (P x)} l :
  filter P (sort_by key l) = sort_by key (filter P l).
Proof.
  induction l as [|x l IH]; [reflexivity|].
  cbn [sort_by foldr]. fold (sort_by key l).
  rewrite filter_insert_by by apply sort_by_sorted.
  rewrite IH, filter_cons. by destruct (decide (P x)).
Qed.

(** Two sorted lists with the same elements, no two of which have the same
    key, are the same list. *)
Lemma sorted_perm_eq l1 : ∀ l2,
  sorted_by l1 → sorted_by l2 → l1 ≡ₚ l2 → NoDup (key <$> l1) → l1 = l2.
Proof.
  induction l1 as [|a l1 IH]; intros l2 H1 H2 Hp Hk.
  { by apply Permutation_nil_l in Hp. }
  destruct l2 as [|b l2]; [by apply Permutation_nil_r in Hp|].
  destruct H1 as [Ha H1], H2 as [Hb H2].
  assert (Hab : a = b).
  { assert (Hb_in : b ∈ a :: l1) by (rewrite Hp; left).
    assert (Ha_in : a ∈ b :: l2) by (rewrite <- Hp; left).
    apply elem_of_cons in Hb_in as [-> | Hb_in]; [reflexivity|].
    apply elem_of_cons in Ha_in as [-> | Ha_in]; [reflexivity|].
    rewrite Forall_forall in Ha, Hb.
    pose proof (String.leb_antisym _ _ (Ha b Hb_in) (Hb a Ha_in)) as Ek.
    cbn [fmap list_fmap] in Hk. apply NoDup_cons in Hk as [Hk _].
    exfalso. apply Hk. rewrite Ek. by apply list_elem_of_fmap_2. }
  subst b. f_equal. apply IH; try done.
  - by eapply Permutation_cons_inv.
  - cbn [fmap list_fmap] in Hk. by apply NoDup_cons in Hk as [_ Hk].
Qed.

(** The result of the sort does not depend on the order of its input when
    no two elements have the same key. *)
Lemma sort_by_perm_eq l1 l2 :
  l1 ≡ₚ l2 → NoDup (key <$> l1) → sort_by key l1 = sort_by key l2.
Proof.
  intros Hp Hk. apply sorted_perm_eq; try apply sort_by_sorted.
  - by rewrite !sort_by_perm.
  - by rewrite (sort_by_perm key l1).
Qed.
End SortTheory.

(** ** The engines *)

Lemma fifo_lifo_step_units (st1 st2 : ledger) t :
  st1.1.2 = st2.1.2 → (fifo_step st1 t).1.2 = (lifo_step st2 t).1.2.
Proof.
  destruct st1 as [[c1 u1] l1], st2 as [[c2 u2] l2]. cbn [fst snd]. intros ->.
  unfold fifo_step, lifo_step. destruct (is_acquisition t).
  - unfold acquire. by destruct (_ && _).
  - destruct (is_type t "SELL"); [|reflexivity].
    unfold sell_fifo, sell_lifo.
    by destruct (match_lots l1 _ _), (match_lots (rev l2) _ _).
Qed.

(** X1: FIFO and LIFO report the same units held, for every list of trades
    and every asset; they can differ in the cost basis only. *)
Theorem fifo_lifo_same_units (trades : list trade) (asset : string) :
  (calculate_cost_basis_fifo trades asset).1.2
  = (calculate_cost_basis_lifo trades asset).1.2.
Proof.
  unfold calculate_cost_basis_fifo, calculate_cost_basis_lifo.
  generalize (asset_history trades asset) as l.
  assert (H : ledger0.1.2 = ledger0.1.2) by reflexivity. revert H.
  generalize ledger0 at 1 3 as st1. generalize ledger0 as st2.
  intros st2 st1 H l. revert st1 st2 H.
  induction l as [|t l IH]; intros st1 st2 H; [exact H|].
  cbn [foldl]. by apply IH, fifo_lifo_step_units.
Qed.

(** A step that does nothing outside [P] does not see the other trades. *)
Lemma foldl_filter_inert {S} (step : S → trade → S) (P : trade → Prop)
    `{!∀ t, Decision (P t)} :
  (∀ st t, ¬ P t → step st t = st) →
  ∀ l st, foldl step st (filter P l) = foldl step st l.
Proof.
  intros Hs l. induction l as [|t l IH]; intros st; [reflexivity|].
  rewrite filter_cons. destruct (decide (P t)) as [Ht | Ht]; cbn [foldl].
  - apply IH.
  - by rewrite (Hs st t Ht).
Qed.

Lemma average_loop_filter_inert (P : trade → Prop) `{!∀ t, Decision (P t)} :
  (∀ st t, ¬ P t → average_step st t = Ok st) →
  ∀ l st, average_loop st (filter P l) = average_loop st l.
Proof.
  intros Hs l. induction l as [|t l IH]; intros st; [reflexivity|].
  rewrite filter_cons. destruct (decide (P t)) as [Ht | Ht]; cbn [average_loop].
  - destruct (average_step st t); cbn [result_bind]; [apply IH | reflexivity].
  - by rewrite (Hs st t Ht).
Qed.

Lemma untracked_type t :
  ¬ (is_tracked_type t = true) → is_acquisition t = false ∧ is_type t "SELL" = false.
Proof.
  unfold is_tracked_type, is_acquisition.
  destruct (is_type t "BUY"), (is_type t "SELL"), (is_type t "Transfer");
    cbn; intros H; try done; by destruct H.
Qed.

Lemma filter_filter_comm {A} (P Q : A → Prop) `{!∀ x, Decision (P x)}
    `{!∀ x, Decision (Q x)} (l : list A) :
  filter P (filter Q l) = filter Q (filter P l).
Proof.
  induction l as [|x l IH]; [reflexivity|].
  rewrite !(filter_cons _ x).
  destruct (decide (Q x)), (decide (P x)); rewrite ?filter_cons;
    repeat case_decide; try done; by rewrite IH.
Qed.

Lemma asset_history_filter (P : trade → Prop) `{!∀ t, Decision (P t)} trades asset :
  asset_history (filter P trades) asset = filter P (asset_history trades asset).
Proof.
  unfold asset_history. by rewrite filter_sort_by, filter_filter_comm.
Qed.

(** X2: trades of a type other than BUY, SELL and Transfer (Holding,
    Deposit, Withdrawal, a missing type) have no effect on any of the three
    engines. *)
Theorem engines_ignore_other_types (trades : list trade) (asset : string) :
  let tracked := filter (λ t, is_tracked_type t = true) trades in
  calculate_cost_basis_fifo tracked asset = calculate_cost_basis_fifo trades asset
  ∧ calculate_cost_basis_lifo tracked asset = calculate_cost_basis_lifo trades asset
  ∧ calculate_cost_basis_average tracked asset
    = calculate_cost_basis_average trades asset.
Proof.
  cbn zeta.
  unfold calculate_cost_basis_fifo, calculate_cost_basis_lifo,
    calculate_cost_basis_average.
  rewrite asset_history_filter.
  split; [|split].
  - apply foldl_filter_inert. intros st t Ht.
    apply untracked_type in Ht as [Ha Hs]. unfold fifo_step. by rewrite Ha, Hs.
  - apply foldl_filter_inert. intros st t Ht.
    apply untracked_type in Ht as [Ha Hs]. unfold lifo_step. by rewrite Ha, Hs.
  - rewrite average_loop_filter_inert; [reflexivity|]. intros [c u] t Ht.
    apply untracked_type in Ht as [Ha Hs]. unfold average_step. by rewrite Ha, Hs.
Qed.

(** ** The order of the input *)

Lemma asset_history_perm trades trades' asset :
  trades ≡ₚ trades' → NoDup (date_key <$> trades) →
  asset_history trades asset = asset_history trades' asset.
Proof.
  intros Hp Hd. unfold asset_history. apply sort_by_perm_eq.
  - by rewrite Hp.
  - eapply sublist_NoDup; [exact Hd|]. apply fmap_sublist, sublist_filter.
Qed.

(** X3: when no two trades have the same date, the aggregator and the
    engines do not depend on the order in which the trades are listed. *)
Theorem metrics_order_independent (trades trades' : list trade)
    (cost_basis_method : string) (get_current_price : string → option Q) :
  trades ≡ₚ trades' →
  NoDup (date_key <$> trades) →
  compute_portfolio_metrics trades cost_basis_method get_current_price
  = compute_portfolio_metrics trades' cost_basis_method get_current_price
  ∧ ∀ asset,
      cost_basis_by cost_basis_method trades asset
      = cost_basis_by cost_basis_method trades' asset.
Proof.
  intros Hp Hd. split.
  - unfold compute_portfolio_metrics.
    destruct trades as [|t ts], trades' as [|t' ts'].
    + reflexivity.
    + by apply Permutation_nil_l in Hp.
    + by apply Permutation_nil_r in Hp.
    + by rewrite (sort_by_perm_eq date_key _ _ Hp Hd).
  - intros asset. unfold cost_basis_by, calculate_cost_basis_fifo,
      calculate_cost_basis_lifo, calculate_cost_basis_average.
    by rewrite (asset_history_perm _ _ asset Hp Hd).
Qed.

Lemma metrics_order_independent_witness :
  let trades := [scenario_deposit "d" "2024-01-01 00:00:00";
                 scenario_buy "b" "2024-01-02 00:00:00"] in
  let trades' := [scenario_buy "b" "2024-01-02 00:00:00";
                  scenario_deposit "d" "2024-01-01 00:00:00"] in
  compute_portfolio_metrics trades "fifo" (λ _, None)
  = compute_portfolio_metrics trades' "fifo" (λ _, None)
  ∧ ∀ asset, cost_basis_by "fifo" trades asset = cost_basis_by "fifo" trades' asset.
Proof.
  cbv zeta. apply metrics_order_independent.
  - apply perm_swap.
  - apply NoDup_cons. split; [|apply NoDup_singleton].
    intros H. apply list_elem_of_singleton in H. discriminate H.
Defined.

(** ** The entries of [per_asset] *)

(** Some trade of the list is in [asset], which is not the dollar. *)
Definition has_asset (trades : list trade) (asset : string) : Prop :=
  asset ≠ "USD"%string ∧ ∃ t, t ∈ trades ∧ t_asset t = Some asset.

Lemma is_asset_true t a : is_asset t a = true ↔ t_asset t = Some a.
Proof.
  unfold is_asset. destruct (t_asset t) as [x|]; [|done].
  rewrite String.eqb_eq. split; congruence.
Qed.

Lemma crypto_asset_set_spec ts : ∀ s,
  crypto_asset_set ts = Ok s → ∀ a, a ∈ s ↔ has_asset ts a.
Proof.
  unfold has_asset.
  induction ts as [|t ts IH]; intros s Hs a; cbn [crypto_asset_set] in Hs.
  { injection Hs as <-. split; [set_solver|]. intros [_ (t & Ht & _)].
    by apply elem_of_nil in Ht. }
  destruct (is_asset t "USD") eqn:Eu; cbn [negb] in Hs.
  - apply is_asset_true in Eu. rewrite (IH s Hs a). split.
    + intros [Hn (t' & Ht' & Ha)]. split; [exact Hn|]. exists t'. split; [by right|done].
    + intros [Hn (t' & Ht' & Ha)]. split; [exact Hn|].
      apply elem_of_cons in Ht' as [-> | Ht']; [congruence|]. by exists t'.
  - destruct (t_asset t) as [a0|] eqn:Ea; [|discriminate].
    destruct (crypto_asset_set ts) as [s'|e]; cbn [result_bind] in Hs; [|discriminate].
    injection Hs as <-. rewrite elem_of_union, elem_of_singleton, (IH s' eq_refl a).
    assert (Hn0 : a0 ≠ "USD"%string).
    { intros ->. unfold is_asset in Eu. rewrite Ea in Eu. by rewrite String.eqb_refl in Eu. }
    split.
    + intros [-> | [Hn (t' & Ht' & Ha)]].
      * split; [exact Hn0|]. exists t. split; [by left|done].
      * split; [exact Hn|]. exists t'. split; [by right|done].
    + intros [Hn (t' & Ht' & Ha)].
      apply elem_of_cons in Ht' as [-> | Ht']; [left; congruence|].
      right. split; [exact Hn|]. by exists t'.
Qed.

(** The entry the loop writes for an asset. *)
Definition entry_written (m : string) (look : string → option Q)
    (ts : list trade) (pa : gmap string asset_metrics) (a : string) : Prop :=
  ∃ c u ls,
    cost_basis_by m (filter (λ t, is_asset t a = true) ts) a = Ok (c, u, ls)
    ∧ pa !! a = Some (asset_entry (filter (λ t, is_asset t a = true) ts) c u (look a)).

Lemma asset_step_spec m look ts pa cb up va a acc' :
  asset_step m look ts (pa, cb, up, va) a = Ok acc' →
  (filter (λ t, is_asset t a = true) ts = [] ∧ acc' = (pa, cb, up, va))
  ∨ ∃ c u ls,
      cost_basis_by m (filter (λ t, is_asset t a = true) ts) a = Ok (c, u, ls)
      ∧ acc' =
          (<[a := asset_entry (filter (λ t, is_asset t a = true) ts) c u (look a)]> pa,
           cb + c,
           up + am_unrealized_pnl
                  (asset_entry (filter (λ t, is_asset t a = true) ts) c u (look a)),
           va + am_current_value
                  (asset_entry (filter (λ t, is_asset t a = true) ts) c u (look a))).
Proof.
  unfold asset_step.
  destruct (filter (λ t, is_asset t a = true) ts) as [|t0 ats] eqn:Hf.
  - intros [= <-]. by left.
  - destruct (cost_basis_by m (t0 :: ats) a) as [[[c u] ls]|e] eqn:Hc;
      cbn [result_bind]; [|discriminate].
    intros [= <-]. right. by exists c, u, ls.
Qed.

Lemma asset_loop_lookup m look ts assets : ∀ acc acc',
  asset_loop m look ts acc assets = Ok acc' →
  ∀ a,
    (a ∈ assets → filter (λ t, is_asset t a = true) ts ≠ [] →
     entry_written m look ts acc'.1.1.1 a)
    ∧ (a ∉ assets → acc'.1.1.1 !! a = acc.1.1.1 !! a).
Proof.
  induction assets as [|a0 rest IH]; intros acc acc' H a.
  { cbn [asset_loop] in H. injection H as <-. split; [|done].
    intros Ha. by apply elem_of_nil in Ha. }
  cbn [asset_loop] in H.
  destruct (asset_step m look ts acc a0) as [acc1|e] eqn:E;
    cbn [result_bind] in H; [|discriminate].
  destruct (IH acc1 acc' H a) as [IH1 IH2].
  destruct acc as [[[pa cb] up] va].
  apply asset_step_spec in E.
  split.
  - intros Ha Hne. destruct (decide (a ∈ rest)) as [Hr | Hr]; [by apply IH1|].
    apply elem_of_cons in Ha as [-> | Ha]; [|done].
    destruct E as [[He ->] | (c & u & ls & Hc & ->)]; [done|].
    exists c, u, ls. split; [exact Hc|]. rewrite (IH2 Hr). cbn [fst].
    apply lookup_insert_eq.
  - intros Ha. apply not_elem_of_cons in Ha as [Hne Hr]. rewrite (IH2 Hr).
    destruct E as [[_ ->] | (c & u & ls & Hc & ->)]; [done|]. cbn [fst].
    by apply lookup_insert_ne.
Qed.

Lemma filter_idem {A} (P : A → Prop) `{!∀ x, Decision (P x)} (l : list A) :
  filter P (filter P l) = filter P l.
Proof.
  induction l as [|x l IH]; [reflexivity|].
  rewrite (filter_cons P x). destruct (decide (P x)) as [Hx|Hx]; [|exact IH].
  rewrite filter_cons. destruct (decide (P x)); [|done]. by rewrite IH.
Qed.

(** The engines sort the trades of the asset themselves: on the part of the
    sorted list the aggregator hands them they see what they see on the
    list as given. *)
Lemma asset_history_of_sorted trades a :
  asset_history (filter (λ t, is_asset t a = true) (sort_by date_key trades)) a
  = asset_history trades a.
Proof.
  unfold asset_history.
  by rewrite filter_idem, filter_sort_by, sort_by_idem.
Qed.

Lemma cost_basis_by_of_sorted m trades a :
  cost_basis_by m (filter (λ t, is_asset t a = true) (sort_by date_key trades)) a
  = cost_basis_by m trades a.
Proof.
  unfold cost_basis_by, calculate_cost_basis_fifo, calculate_cost_basis_lifo,
    calculate_cost_basis_average.
  by rewrite asset_history_of_sorted.
Qed.

Lemma has_asset_dec l a : has_asset l a ∨ ¬ has_asset l a.
Proof.
  unfold has_asset.
  destruct (decide (a ≠ "USD"%string ∧ Exists (λ t, t_asset t = Some a) l))
    as [H | H]; rewrite Exists_exists in H; [by left | by right].
Qed.

Lemma has_asset_perm l l' a : l ≡ₚ l' → has_asset l a → has_asset l' a.
Proof.
  intros Hp [Hn (t & Ht & Ha)]. split; [exact Hn|]. exists t. by rewrite <- Hp.
Qed.

Lemma sorted_set_elem_of s a : a ∈ sorted_set s ↔ a ∈ s.
Proof. unfold sorted_set. by rewrite (sort_by_perm id (elements s)), elem_of_elements. Qed.

Lemma per_asset_lookup trades m look snap a :
  compute_portfolio_metrics trades m look = Ok snap →
  (has_asset trades a →
   entry_written m look (sort_by date_key trades) (per_asset snap) a)
  ∧ (¬ has_asset trades a → per_asset snap !! a = None).
Proof.
  unfold compute_portfolio_metrics. destruct trades as [|t0 ts].
  { intros [= <-]. split.
    - intros [_ (t & Ht & _)]. by apply elem_of_nil in Ht.
    - intros _. apply lookup_empty. }
  set (l := t0 :: ts).
  destruct (crypto_asset_set _) as [s|e] eqn:Es; cbn [result_bind]; [|discriminate].
  destruct (asset_loop _ _ _ _ _) as [acc|e] eqn:E; cbn [result_bind]; [|discriminate].
  intros [= <-].
  pose proof (crypto_asset_set_spec _ _ Es a) as Hs.
  destruct (asset_loop_lookup _ _ _ _ _ _ E a) as [H1 H2].
  destruct acc as [[[pa cb] up] va]. cbn [summarise per_asset].
  cbn [fst] in H1, H2. split.
  - intros Ha. apply (has_asset_perm _ (sort_by date_key l)) in Ha;
      [|by rewrite sort_by_perm].
    apply H1.
    + by apply sorted_set_elem_of, Hs.
    + destruct Ha as [_ (t & Ht & Ha)]. intros Hnil.
      assert (Hin : t ∈ filter (λ t, is_asset t a = true) (sort_by date_key l)).
      { apply list_elem_of_filter. split; [by apply is_asset_true | exact Ht]. }
      rewrite Hnil in Hin. by apply elem_of_nil in Hin.
  - intros Ha. rewrite H2; [apply lookup_empty|].
    rewrite sorted_set_elem_of, Hs. intros Hs'. apply Ha.
    eapply has_asset_perm; [|exact Hs']. apply sort_by_perm.
Qed.

(** X4: when a snapshot is returned, the keys of [per_asset] are the assets
    of the trades other than ["USD"]: every asset that was traded has an
    entry, the dollar never has one. *)
Theorem per_asset_keys (trades : list trade) (cost_basis_method : string)
    (get_current_price : string → option Q) (snap : portfolio_metrics)
    (asset : string) :
  compute_portfolio_metrics trades cost_basis_method get_current_price = Ok snap →
  (is_Some (per_asset snap !! asset)
   ↔ asset ≠ "USD"%string ∧ ∃ t, t ∈ trades ∧ t_asset t = Some asset).
Proof.
  intros H. destruct (per_asset_lookup _ _ _ _ asset H) as [H1 H2].
  fold (has_asset trades asset). split.
  - intros Hs. destruct (has_asset_dec trades asset) as [Ha | Ha]; [exact Ha|].
    rewrite (H2 Ha) in Hs. by destruct Hs.
  - intros Ha. destruct (H1 Ha) as (c & u & ls & _ & ->). eauto.
Qed.

Lemma per_asset_keys_witness :
  ∃ snap,
    compute_portfolio_metrics [paid_buy; usd_sell] "lifo" (λ _, None) = Ok snap
    ∧ (is_Some (per_asset snap !! "BTC"%string)
       ↔ "BTC"%string ≠ "USD"%string
         ∧ ∃ t, t ∈ [paid_buy; usd_sell] ∧ t_asset t = Some "BTC"%string).
Proof.
  eexists. split; [vm_compute; reflexivity|].
  apply (per_asset_keys [paid_buy; usd_sell] "lifo" (λ _, None)).
  vm_compute; reflexivity.
Defined.

(** X5: the cost basis and the units of an entry of [per_asset] are those
    the engine of the method gives on the whole list of trades, as given:
    the sort and the selection done by the aggregator do not change what
    the engine computes. *)
Theorem per_asset_from_engine (trades : list trade) (cost_basis_method : string)
    (get_current_price : string → option Q) (snap : portfolio_metrics)
    (asset : string) (e : asset_metrics) :
  compute_portfolio_metrics trades cost_basis_method get_current_price = Ok snap →
  per_asset snap !! asset = Some e →
  ∃ lots,
    cost_basis_by cost_basis_method trades asset
    = Ok (am_cost_basis e, am_units_held e, lots).
Proof.
  intros H He. destruct (per_asset_lookup _ _ _ _ asset H) as [H1 H2].
  destruct (has_asset_dec trades asset) as [Ha | Ha].
  - destruct (H1 Ha) as (c & u & ls & Hc & Hl).
    rewrite He in Hl. injection Hl as ->.
    exists ls. by rewrite <- cost_basis_by_of_sorted.
  - rewrite (H2 Ha) in He. discriminate.
Qed.

Lemma per_asset_from_engine_witness :
  ∃ snap e,
    compute_portfolio_metrics [paid_buy; sale_of 1] "lifo" (λ _, None) = Ok snap
    ∧ per_asset snap !! "BTC"%string = Some e
    ∧ ∃ lots,
        cost_basis_by "lifo" [paid_buy; sale_of 1] "BTC"
        = Ok (am_cost_basis e, am_units_held e, lots).
Proof.
  eexists _, _. split; [vm_compute; reflexivity|]. split; [vm_compute; reflexivity|].
  eapply (per_asset_from_engine [paid_buy; sale_of 1] "lifo" (λ _, None)).
  - vm_compute; reflexivity.
  - vm_compute; reflexivity.
Defined.

(** ** Sums *)

Lemma foldl_Qplus (a : Q) (l : list Q) : foldl Qplus a l == a + py_sum l.
Proof.
  unfold py_sum. revert a. induction l as [|x l IH]; intros a; cbn [foldl]; [lra|].
  rewrite (IH (a + x)), (IH (0 + x)). lra.
Qed.

Lemma py_sum_cons (x : Q) (l : list Q) : py_sum (x :: l) == x + py_sum l.
Proof. unfold py_sum at 1. cbn [foldl]. rewrite foldl_Qplus. lra. Qed.

Lemma py_sum_perm (l1 l2 : list Q) : l1 ≡ₚ l2 → py_sum l1 == py_sum l2.
Proof.
  induction 1 as [|x l1 l2 _ IH|x y l|l1 l2 l3 _ IH1 _ IH2].
  - reflexivity.
  - rewrite !py_sum_cons, IH. reflexivity.
  - rewrite !py_sum_cons. lra.
  - by rewrite IH1.
Qed.

(** The sum of [h] over the elements that pass [b]. *)
Definition sum_where {A} (h : A → Q) (b : A → bool) (l : list A) : Q :=
  py_sum (h <$> filter (λ x, b x = true) l).

Lemma sum_where_nil {A} (h : A → Q) b : sum_where h b [] = 0.
Proof. reflexivity. Qed.

Lemma sum_where_cons {A} (h : A → Q) b x l :
  sum_where h b (x :: l) == (if b x then h x else 0) + sum_where h b l.
Proof.
  unfold sum_where. rewrite filter_cons.
  destruct (decide (b x = true)) as [E | E].
  - rewrite E. cbn [fmap list_fmap]. apply py_sum_cons.
  - apply not_true_is_false in E. rewrite E. lra.
Qed.

Lemma sum_where_split {A} (h : A → Q) (r p q : A → bool) l :
  (∀ x, x ∈ l → r x = p x || q x) →
  (∀ x, x ∈ l → p x && q x = false) →
  sum_where h r l == sum_where h p l + sum_where h q l.
Proof.
  induction l as [|x l IH]; intros Hr Hd.
  { rewrite !sum_where_nil. lra. }
  rewrite !sum_where_cons, IH.
  - rewrite (Hr x) by left. specialize (Hd x ltac:(left)).
    destruct (p x), (q x); cbn in *; try discriminate; lra.
  - intros y Hy. apply Hr. by right.
  - intros y Hy. apply Hd. by right.
Qed.

Lemma sum_where_ext {A} (h : A → Q) (p q : A → bool) l :
  (∀ x, x ∈ l → p x = q x) → sum_where h p l == sum_where h q l.
Proof.
  induction l as [|x l IH]; intros H; [reflexivity|].
  rewrite !sum_where_cons, IH.
  - by rewrite (H x) by left.
  - intros y Hy. apply H. by right.
Qed.

Lemma sum_where_filter {A} (h : A → Q) (b c : A → bool) l :
  sum_where h b (filter (λ x, c x = true) l) == sum_where h (λ x, b x && c x) l.
Proof.
  induction l as [|x l IH]; [reflexivity|].
  rewrite filter_cons, (sum_where_cons h (λ x, b x && c x)).
  destruct (decide (c x = true)) as [E | E].
  - rewrite sum_where_cons, IH, E, andb_true_r. reflexivity.
  - apply not_true_is_false in E. rewrite IH, E, andb_false_r. lra.
Qed.

Lemma sum_where_perm {A} (h : A → Q) b (l1 l2 : list A) :
  l1 ≡ₚ l2 → sum_where h b l1 == sum_where h b l2.
Proof. intros Hp. unfold sum_where. apply py_sum_perm. by rewrite Hp. Qed.

(** The sum of a figure over the entries of [per_asset]. *)
Definition sum_assets (f : asset_metrics → Q) (pa : gmap string asset_metrics) : Q :=
  py_sum (f <$> (map_to_list pa).*2).

Lemma sum_assets_empty f : sum_assets f ∅ = 0.
Proof. unfold sum_assets. by rewrite map_to_list_empty. Qed.

Lemma sum_assets_insert f pa a e :
  pa !! a = None → sum_assets f (<[a := e]> pa) == f e + sum_assets f pa.
Proof.
  intros Hn. unfold sum_assets.
  rewrite (py_sum_perm _ (f <$> ((a, e) :: map_to_list pa).*2)).
  - cbn [fmap list_fmap snd]. apply py_sum_cons.
  - by rewrite (map_to_list_insert pa a e Hn).
Qed.

(** [t] is a trade of one of the assets. *)
Definition in_assets (assets : list string) (t : trade) : bool :=
  existsb (is_asset t) assets.

(** What the accumulators of the loop hold once the assets [done] are
    through. *)
Definition totals_inv (ts : list trade) (done : list string) (acc : totals) : Prop :=
  let '(pa, cb, up, va) := acc in
  (∀ a, a ∉ done → pa !! a = None)
  ∧ cb == sum_assets am_cost_basis pa
  ∧ up == sum_assets am_unrealized_pnl pa
  ∧ va == sum_assets am_current_value pa
  ∧ up == va - cb
  ∧ sum_assets am_realized_pnl pa
    == sum_where proceeds_out (λ t, is_type t "SELL" && in_assets done t) ts
       - (sum_where cost_in (λ t, is_acquisition t && in_assets done t) ts - cb).

Lemma in_assets_snoc done a t :
  in_assets (done ++ [a]) t = in_assets done t || is_asset t a.
Proof. unfold in_assets. rewrite existsb_app. cbn. by rewrite orb_false_r. Qed.

Lemma in_assets_other done a t :
  a ∉ done → in_assets done t && is_asset t a = false.
Proof.
  intros Hn. destruct (is_asset t a) eqn:Ea; [|apply andb_false_r].
  rewrite andb_true_r. apply not_true_is_false. intros Hin.
  unfold in_assets in Hin. apply existsb_exists in Hin as (b & Hb & Eb).
  apply is_asset_true in Ea, Eb. rewrite Ea in Eb. injection Eb as <-.
  apply Hn. by apply list_elem_of_In.
Qed.

Lemma sum_where_next (h : trade → Q) (b : trade → bool) ts done a :
  a ∉ done →
  sum_where h (λ t, b t && in_assets (done ++ [a]) t) ts
  == sum_where h (λ t, b t && in_assets done t) ts
     + sum_where h b (filter (λ t, is_asset t a = true) ts).
Proof.
  intros Hn. rewrite sum_where_filter. apply sum_where_split.
  - intros t _. rewrite in_assets_snoc. by destruct (b t).
  - intros t _. pose proof (in_assets_other done a t Hn) as Ho.
    destruct (b t), (in_assets done t), (is_asset t a); cbn in *; congruence.
Qed.

Lemma asset_entry_unrealized ats c u p :
  am_unrealized_pnl (asset_entry ats c u p)
  = am_current_value (asset_entry ats c u p) - c.
Proof. reflexivity. Qed.

Lemma asset_step_inv m look ts done acc a acc' :
  a ∉ done → totals_inv ts done acc →
  asset_step m look ts acc a = Ok acc' → totals_inv ts (done ++ [a]) acc'.
Proof.
  intros Hn HI H. destruct acc as [[[pa cb] up] va].
  destruct HI as (Hfresh & Hcb & Hup & Hva & Hsub & Hre).
  pose proof (sum_where_next proceeds_out (λ t, is_type t "SELL") ts done a Hn) as Hsp.
  pose proof (sum_where_next cost_in is_acquisition ts done a Hn) as Hbc.
  apply asset_step_spec in H as [[He ->] | (c & u & ls & Hc & ->)].
  - rewrite He in Hsp, Hbc. rewrite sum_where_nil in Hsp, Hbc.
    split; [|repeat split; try done].
    + intros b Hb. apply Hfresh. intros Hd. apply Hb, elem_of_app. by left.
    + rewrite Hre, Hsp, Hbc. lra.
  - set (ats := filter (λ t, is_asset t a = true) ts) in *.
    set (e := asset_entry ats c u (look a)).
    pose proof (Hfresh a Hn) as Ha.
    split; [|split; [|split; [|split; [|split]]]].
    + intros b Hb. rewrite lookup_insert_ne.
      * apply Hfresh. intros Hd. apply Hb, elem_of_app. by left.
      * intros ->. apply Hb, elem_of_app. right. by left.
    + rewrite sum_assets_insert by exact Ha. rewrite Hcb. subst e. cbn. lra.
    + rewrite sum_assets_insert by exact Ha. rewrite Hup. lra.
    + rewrite sum_assets_insert by exact Ha. rewrite Hva. lra.
    + subst e. rewrite asset_entry_unrealized. lra.
    + rewrite sum_assets_insert by exact Ha. rewrite Hre, Hsp, Hbc.
      change (am_realized_pnl e) with (realized_of ats c).
      unfold realized_of, sell_proceeds, buy_cost.
      fold (sum_where proceeds_out (λ t, is_type t "SELL") ats).
      fold (sum_where cost_in is_acquisition ats). lra.
Qed.

Lemma asset_loop_totals m look ts assets : ∀ done acc acc',
  NoDup (done ++ assets) → totals_inv ts done acc →
  asset_loop m look ts acc assets = Ok acc' → totals_inv ts (done ++ assets) acc'.
Proof.
  induction assets as [|a rest IH]; intros done acc acc' Hd HI H.
  { cbn [asset_loop] in H. injection H as <-. by rewrite app_nil_r. }
  cbn [asset_loop] in H.
  destruct (asset_step m look ts acc a) as [acc1|e] eqn:E;
    cbn [result_bind] in H; [|discriminate].
  rewrite (cons_middle a done rest), app_assoc in Hd |- *.
  apply (IH _ acc1 acc' Hd); [|exact H].
  eapply asset_step_inv; [|exact HI|exact E].
  apply NoDup_app in Hd as (Hd & _ & _). apply NoDup_app in Hd as (_ & Hd & _).
  intros Hin. apply (Hd a Hin). by left.
Qed.

Lemma sum_where_none {A} (h : A → Q) (b : A → bool) l :
  (∀ x, x ∈ l → b x = false) → sum_where h b l == 0.
Proof.
  induction l as [|x l IH]; intros H; [reflexivity|].
  rewrite sum_where_cons, IH.
  - rewrite (H x) by left. lra.
  - intros y Hy. apply H. by right.
Qed.

Lemma totals0_inv ts : totals_inv ts [] totals0.
Proof.
  unfold totals_inv, totals0. rewrite !sum_assets_empty.
  split; [intros; apply lookup_empty|].
  repeat split; try lra.
  rewrite (sum_where_none proceeds_out), (sum_where_none cost_in).
  - lra.
  - intros t _. apply andb_false_r.
  - intros t _. apply andb_false_r.
Qed.

Lemma crypto_asset_set_some ts : ∀ s,
  crypto_asset_set ts = Ok s →
  ∀ t, t ∈ ts → is_asset t "USD" = false → is_Some (t_asset t).
Proof.
  induction ts as [|t0 ts IH]; intros s Hs t Ht Hu.
  { by apply elem_of_nil in Ht. }
  cbn [crypto_asset_set] in Hs.
  destruct (is_asset t0 "USD") eqn:Eu; cbn [negb] in Hs.
  - apply elem_of_cons in Ht as [-> | Ht]; [congruence|]. by apply (IH s Hs).
  - destruct (t_asset t0) as [a0|] eqn:Ea; [|discriminate].
    destruct (crypto_asset_set ts) as [s'|e]; cbn [result_bind] in Hs; [|discriminate].
    apply elem_of_cons in Ht as [-> | Ht]; [by rewrite Ea|]. by apply (IH s' eq_refl).
Qed.

Lemma in_assets_crypto ts s t :
  crypto_asset_set ts = Ok s → t ∈ ts →
  in_assets (sorted_set s) t = negb (is_asset t "USD").
Proof.
  intros Hs Ht. destruct (is_asset t "USD") eqn:Eu; cbn [negb].
  - apply not_true_is_false. intros Hin.
    apply existsb_exists in Hin as (a & Ha & Ea).
    apply list_elem_of_In, sorted_set_elem_of in Ha.
    apply (crypto_asset_set_spec _ _ Hs) in Ha as [Hn _].
    apply is_asset_true in Eu, Ea. congruence.
  - destruct (crypto_asset_set_some _ _ Hs t Ht Eu) as [a Ea].
    apply existsb_exists. exists a. split; [|by apply is_asset_true].
    apply list_elem_of_In, sorted_set_elem_of, (crypto_asset_set_spec _ _ Hs).
    split; [|by exists t].
    intros ->. apply is_asset_true in Ea. congruence.
Qed.

Lemma sorted_set_NoDup s : NoDup (sorted_set s).
Proof. unfold sorted_set. rewrite (sort_by_perm id (elements s)). apply NoDup_elements. Qed.

(** A snapshot other than the empty one comes from the loop, which leaves
    its accumulators as [totals_inv] says. *)
Lemma metrics_totals trades m look snap :
  compute_portfolio_metrics trades m look = Ok snap →
  trades ≠ [] →
  ∃ acc,
    snap = summarise (sort_by date_key trades)
             (external_cash (sort_by date_key trades)) acc
    ∧ acc.1.1.2 == sum_assets am_cost_basis acc.1.1.1
    ∧ acc.1.2 == sum_assets am_unrealized_pnl acc.1.1.1
    ∧ acc.2 == sum_assets am_current_value acc.1.1.1
    ∧ acc.1.2 == acc.2 - acc.1.1.2
    ∧ sum_assets am_realized_pnl acc.1.1.1
      == sum_where proceeds_out
           (λ t, is_type t "SELL" && negb (is_asset t "USD")) (sort_by date_key trades)
         - (sum_where cost_in
              (λ t, is_acquisition t && negb (is_asset t "USD")) (sort_by date_key trades)
            - acc.1.1.2).
Proof.
  unfold compute_portfolio_metrics. destruct trades as [|t0 ts]; [done|]. intros H _.
  destruct (crypto_asset_set _) as [s|e] eqn:Es; cbn [result_bind] in H; [|discriminate].
  destruct (asset_loop _ _ _ _ _) as [acc|e] eqn:E; cbn [result_bind] in H; [|discriminate].
  injection H as <-. exists acc. split; [reflexivity|].
  pose proof (asset_loop_totals _ _ _ _ [] _ _ (sorted_set_NoDup s)
                (totals0_inv _) E) as HI.
  cbn [app] in HI. destruct acc as [[[pa cb] up] va].
  destruct HI as (_ & Hcb & Hup & Hva & Hsub & Hre). cbn [fst snd].
  repeat split; try done.
  rewrite Hre.
  rewrite (sum_where_ext proceeds_out _
             (λ t, is_type t "SELL" && negb (is_asset t "USD"))),
          (sum_where_ext cost_in _
             (λ t, is_acquisition t && negb (is_asset t "USD"))).
  - reflexivity.
  - intros t Ht. by rewrite (in_assets_crypto _ _ _ Es Ht).
  - intros t Ht. by rewrite (in_assets_crypto _ _ _ Es Ht).
Qed.

(** X6: the totals of a snapshot are the sums of the figures of its
    entries: cost basis, unrealized and realized P&L over [per_asset], and
    the total value is the value of the assets plus the cash. *)
Theorem totals_are_sums (trades : list trade) (cost_basis_method : string)
    (get_current_price : string → option Q) (snap : portfolio_metrics) :
  compute_portfolio_metrics trades cost_basis_method get_current_price = Ok snap →
  total_cost_basis_assets snap == sum_assets am_cost_basis (per_asset snap)
  ∧ unrealized_pnl snap == sum_assets am_unrealized_pnl (per_asset snap)
  ∧ realized_pnl snap == sum_assets am_realized_pnl (per_asset snap)
  ∧ total_value snap
    == sum_assets am_current_value (per_asset snap) + usd_balance snap.
Proof.
  intros H. destruct trades as [|t0 ts].
  { injection H as <-. cbn [zero_metrics total_cost_basis_assets unrealized_pnl
      realized_pnl total_value usd_balance per_asset].
    rewrite !sum_assets_empty. repeat split; lra. }
  destruct (metrics_totals _ _ _ _ H) as (acc & -> & Hcb & Hup & Hva & _ & Hre);
    [done|].
  destruct acc as [[[pa cb] up] va]. cbn [fst snd] in *.
  cbn [summarise total_cost_basis_assets unrealized_pnl realized_pnl total_value
       usd_balance per_asset].
  split; [exact Hcb|]. split; [exact Hup|]. split; [|rewrite Hva; reflexivity].
  rewrite Hre. reflexivity.
Qed.

Lemma totals_are_sums_witness :
  ∃ snap,
    compute_portfolio_metrics [paid_buy; sale_of 1] "average" (λ _, Some 12000)
    = Ok snap
    ∧ total_cost_basis_assets snap == sum_assets am_cost_basis (per_asset snap)
    ∧ unrealized_pnl snap == sum_assets am_unrealized_pnl (per_asset snap)
    ∧ realized_pnl snap == sum_assets am_realized_pnl (per_asset snap)
    ∧ total_value snap
      == sum_assets am_current_value (per_asset snap) + usd_balance snap.
Proof.
  eexists. split; [vm_compute; reflexivity|].
  apply (totals_are_sums [paid_buy; sale_of 1] "average" (λ _, Some 12000)).
  vm_compute; reflexivity.
Defined.

(** ** Cash and the accounting identity *)

(** The trade has a [total_value], or its price times its quantity is
    zero: the cash replay, which falls back on the product, and the cost,
    which does not, see the same amount. *)
Definition total_value_recorded (t : trade) : Prop :=
  num0 (t_total_value t) == 0 → num0 (t_price t) * num0 (t_quantity t) == 0.

Lemma py_or_recorded t :
  total_value_recorded t →
  py_or (t_total_value t) (num0 (t_price t) * num0 (t_quantity t))
  == num0 (t_total_value t).
Proof.
  unfold total_value_recorded, py_or, num0.
  destruct (t_total_value t) as [v|]; cbn.
  - destruct (Qeq_bool v 0) eqn:E; [|reflexivity].
    apply Qeq_bool_iff in E. intros H. rewrite (H E). by rewrite E.
  - intros H. apply H. reflexivity.
Qed.

Lemma usd_step_recorded u t :
  total_value_recorded t →
  usd_step u t
  == u - (if is_type t "BUY" && negb (is_asset t "USD") then cost_in t else 0)
       + (if is_type t "SELL" && negb (is_asset t "USD") then proceeds_out t else 0).
Proof.
  intros Hr. unfold usd_step.
  destruct (is_asset t "USD"); cbn [orb negb]; rewrite ?andb_false_r; [lra|].
  rewrite !andb_true_r.
  destruct (is_type t "BUY") eqn:Eb, (is_type t "SELL") eqn:Es; cbn [orb negb].
  - pose proof (is_type_inj _ _ _ Eb Es). discriminate.
  - rewrite (py_or_recorded t Hr). unfold cost_in. lra.
  - rewrite (py_or_recorded t Hr). unfold proceeds_out. lra.
  - lra.
Qed.

Lemma usd_balance_closed ts :
  Forall total_value_recorded ts → ∀ u,
  foldl usd_step u ts
  == u - sum_where cost_in (λ t, is_type t "BUY" && negb (is_asset t "USD")) ts
       + sum_where proceeds_out (λ t, is_type t "SELL" && negb (is_asset t "USD")) ts.
Proof.
  induction 1 as [|t ts Ht _ IH]; intros u.
  { rewrite !sum_where_nil. cbn. lra. }
  cbn [foldl]. rewrite IH, !sum_where_cons, (usd_step_recorded u t Ht). lra.
Qed.

(** The cost of the assets that came in by a Transfer. *)
Definition transferred_in (trades : list trade) : Q :=
  sum_where cost_in (λ t, is_type t "Transfer" && negb (is_asset t "USD")) trades.

Lemma pnl_value_cash (trades : list trade) (cost_basis_method : string)
    (get_current_price : string → option Q) (snap : portfolio_metrics) :
  Forall total_value_recorded trades →
  compute_portfolio_metrics trades cost_basis_method get_current_price = Ok snap →
  total_pnl snap
  == total_value snap - total_external_cash snap - transferred_in trades.
Proof.
  intros Hr H. destruct trades as [|t0 ts].
  { injection H as <-. cbn. lra. }
  destruct (metrics_totals _ _ _ _ H) as (acc & -> & _ & _ & _ & Hsub & _);
    [done|].
  set (l := t0 :: ts) in *. set (sl := sort_by date_key l).
  destruct acc as [[[pa cb] up] va]. cbn [fst snd] in *.
  cbn [summarise total_pnl total_value total_external_cash].
  rewrite (usd_balance_closed sl) by (by apply sort_by_Forall).
  unfold transferred_in.
  rewrite <- (sum_where_perm cost_in _ sl l) by apply sort_by_perm.
  fold (sum_where cost_in (λ t, is_acquisition t && negb (is_asset t "USD")) sl).
  fold (sum_where proceeds_out (λ t, is_type t "SELL" && negb (is_asset t "USD")) sl).
  rewrite (sum_where_split cost_in
             (λ t, is_acquisition t && negb (is_asset t "USD"))
             (λ t, is_type t "BUY" && negb (is_asset t "USD"))
             (λ t, is_type t "Transfer" && negb (is_asset t "USD"))).
  - rewrite Hsub. lra.
  - intros t _. unfold is_acquisition.
    by destruct (is_type t "BUY"), (is_type t "Transfer"), (is_asset t "USD").
  - intros t _.
    destruct (is_type t "BUY") eqn:Eb, (is_type t "Transfer") eqn:Et;
      [|by destruct (is_asset t "USD")..].
    pose proof (is_type_inj _ _ _ Eb Et). discriminate.
Qed.

(** X7: the accounting identity, in exact arithmetic.  When every trade
    has its [total_value] recorded, the total P&L of a snapshot is what the
    portfolio is worth beyond the cash that was put in, less the cost of
    the assets transferred in (which are bought with no cash); with no
    Transfer of an asset, [total_pnl == total_value - total_external_cash].
    In binary64 the two sides are computed along different paths and can
    differ by rounding ([accounting_identity_rounding]). *)
Theorem accounting_identity (trades : list trade) (cost_basis_method : string)
    (get_current_price : string → option Q) (snap : portfolio_metrics) :
  Forall total_value_recorded trades →
  compute_portfolio_metrics trades cost_basis_method get_current_price = Ok snap →
  total_pnl snap
  == total_value snap - total_external_cash snap - transferred_in trades.
Proof. apply pnl_value_cash. Qed.

(** ** Buy profit per trade *)

Lemma sorted_by_app {A} (key : A → string) (l1 : list A) x l2 :
  sorted_by key (l1 ++ x :: l2) → Forall (λ y, key_le key y x) l1.
Proof.
  induction l1 as [|y l1 IH]; cbn [app sorted_by]; [constructor|].
  intros [Hy Hs]. constructor; [|by apply IH].
  rewrite Forall_forall in Hy. apply Hy, elem_of_app. right. by left.
Qed.

Lemma accounting_identity_witness :
  ∃ snap,
    compute_portfolio_metrics [paid_buy; sale_of 1] "fifo" (λ _, Some 12000) = Ok snap
    ∧ total_pnl snap
      == total_value snap - total_external_cash snap
         - transferred_in [paid_buy; sale_of 1].
Proof.
  eexists. split; [vm_compute; reflexivity|].
  apply (accounting_identity [paid_buy; sale_of 1] "fifo" (λ _, Some 12000)).
  - repeat constructor; intros H; vm_compute in H; discriminate H.
  - vm_compute; reflexivity.
Defined.

(** In binary64 the identity holds up to rounding only: a deposit of 1000,
    three tenths of a unit bought for 100 with a fee of 0.1, at the price
    350. *)
Definition deposit_1000 : Float64.trade :=
  {| Float64.t_id := Some "d"%string;
     Float64.t_date := Some "2024-01-01 00:00:00"%string;
     Float64.t_asset := Some "USD"%string; Float64.t_type := Some "Deposit"%string;
     Float64.t_price := None; Float64.t_quantity := Some 1000%float;
     Float64.t_fee := None; Float64.t_total_value := None |}.

Definition buy_with_fee : Float64.trade :=
  trade64 "b" "2024-01-02 00:00:00" "BTC" "BUY" 333.33 0.3 0.1 100.

Example accounting_identity_rounding :
  ∃ snap,
    Float64.compute_portfolio_metrics [deposit_1000; buy_with_fee] "fifo"
      (λ _, Some 350%float) = Ok snap
    ∧ Float64.total_pnl snap = 4.900000000000006%float
    ∧ (Float64.total_value snap - Float64.total_external_cash snap)%float
      = 4.899999999999977%float.
Proof.
  eexists. split; [vm_compute; reflexivity|]. split; vm_compute; reflexivity.
Qed.

(** [b] is a purchase entered under [k] with the profit [v] against the
    sale [s]. *)
Definition buy_against_sale (b s : trade) (k : string) (v : Q) : Prop :=
  tid_of b = k
  ∧ is_type b "BUY" = true ∧ is_type s "SELL" = true
  ∧ asset_of b ≠ "USD"%string ∧ asset_of s = asset_of b
  ∧ String.leb (date_key s) (date_key b) = true
  ∧ 0 < num0 (t_price s) ∧ 0 < num0 (t_price b) ∧ 0 < num0 (t_quantity b)
  ∧ v = (num0 (t_price s) - num0 (t_price b)) * num0 (t_quantity b).

Definition buy_profit_inv (pre : list trade) (st : buy_profit_state) : Prop :=
  (∀ a p, bp_last_sell_price st !! a = Some p →
     ∃ s, s ∈ pre ∧ is_type s "SELL" = true ∧ asset_of s = a
          ∧ a ≠ "USD"%string ∧ p = num0 (t_price s) ∧ 0 < p)
  ∧ (∀ k v, bp_result st !! k = Some v →
       ∃ b s, b ∈ pre ∧ s ∈ pre ∧ buy_against_sale b s k v).

Lemma buy_profit_inv_mono pre t st :
  buy_profit_inv pre st → buy_profit_inv (pre ++ [t]) st.
Proof.
  intros [H1 H2]. split.
  - intros a p Hp. destruct (H1 a p Hp) as (s & Hs & H). exists s.
    split; [|exact H]. apply elem_of_app. by left.
  - intros k v Hk. destruct (H2 k v Hk) as (b & s & Hb & Hs & H). exists b, s.
    split; [apply elem_of_app; by left|]. split; [apply elem_of_app; by left|done].
Qed.

Lemma buy_profit_step_inv pre t st :
  Forall (λ y, key_le date_key y t) pre →
  buy_profit_inv pre st → buy_profit_inv (pre ++ [t]) (buy_profit_step st t).
Proof.
  intros Hle HI. pose proof (buy_profit_inv_mono pre t st HI) as HI'.
  assert (Ht : t ∈ pre ++ [t]) by (apply elem_of_app; right; by left).
  unfold buy_profit_step.
  destruct (String.eqb (asset_of t) "USD") eqn:Eu; [exact HI'|].
  apply String.eqb_neq in Eu.
  destruct (is_type t "SELL") eqn:Es.
  { destruct (Qltb 0 (num0 (t_price t))) eqn:Ep; [|exact HI'].
    apply Qltb_lt in Ep. destruct HI' as [H1 H2]. split; [|exact H2].
    cbn [bp_last_sell_price]. intros a p Hp.
    destruct (decide (a = asset_of t)) as [-> | Hne].
    - rewrite lookup_insert_eq in Hp. injection Hp as <-. by exists t.
    - rewrite lookup_insert_ne in Hp by done. by apply H1. }
  destruct (is_type t "BUY") eqn:Eb; [|exact HI'].
  destruct (bp_last_sell_price st !! asset_of t) as [last|] eqn:El; [|exact HI'].
  destruct (Qltb 0 (num0 (t_price t)) && Qltb 0 (num0 (t_quantity t))) eqn:Eg;
    [|exact HI'].
  apply andb_true_iff in Eg as [Ep Eq]. apply Qltb_lt in Ep, Eq.
  destruct HI' as [H1 H2]. split; [exact H1|].
  cbn [bp_result]. intros k v Hk.
  destruct (decide (k = tid_of t)) as [-> | Hne].
  - rewrite lookup_insert_eq in Hk. injection Hk as <-.
    destruct HI as [H0 _]. destruct (H0 _ _ El) as (s & Hs & Hss & Ha & _ & -> & Hp).
    exists t, s. split; [exact Ht|]. split; [apply elem_of_app; by left|].
    rewrite Forall_forall in Hle. by repeat split; try apply Hle.
  - rewrite lookup_insert_ne in Hk by done. by apply H2.
Qed.

Lemma buy_profit_fold rest : ∀ pre st,
  sorted_by date_key (pre ++ rest) → buy_profit_inv pre st →
  buy_profit_inv (pre ++ rest) (foldl buy_profit_step st rest).
Proof.
  induction rest as [|t rest IH]; intros pre st Hs HI.
  { by rewrite app_nil_r. }
  cbn [foldl]. rewrite (cons_middle t pre rest), app_assoc in Hs |- *.
  apply IH; [exact Hs|]. apply buy_profit_step_inv; [|exact HI].
  rewrite <- app_assoc in Hs. by apply sorted_by_app in Hs.
Qed.

Lemma sorted_by_date_strict_ok trades sorted_trades :
  sorted_by_date_strict trades = Ok sorted_trades →
  sorted_trades = sort_by date_key trades
  ∧ Forall (λ t, is_Some (t_date t)) trades.
Proof.
  unfold sorted_by_date_strict. destruct (forallb _ trades) eqn:E; [|discriminate].
  intros [= <-]. split; [reflexivity|].
  apply Forall_forall. intros t Ht.
  rewrite forallb_forall in E. apply list_elem_of_In in Ht.
  specialize (E t Ht). by apply bool_decide_eq_true in E.
Qed.

(** X8: every entry of the buy-profit map belongs to a BUY of an asset
    other than the dollar, with a positive price and quantity, for which
    the list has a SELL of the same asset with a positive price that is
    not dated later; the entry is the difference of the two prices times
    the quantity bought. *)
Theorem buy_profit_entries (trades : list trade) (res : gmap string Q)
    (k : string) (v : Q) :
  compute_buy_profit_per_trade trades = Ok res →
  res !! k = Some v →
  ∃ b s, b ∈ trades ∧ s ∈ trades ∧ buy_against_sale b s k v.
Proof.
  unfold compute_buy_profit_per_trade. intros H Hk.
  destruct (sorted_by_date_strict trades) as [sl|e] eqn:Es; [|discriminate].
  injection H as <-. apply sorted_by_date_strict_ok in Es as [-> _].
  assert (HI : buy_profit_inv [] buy_profit_state0).
  { split; intros ? ? Hl; cbn in Hl; by rewrite lookup_empty in Hl. }
  apply (buy_profit_fold (sort_by date_key trades) []) in HI;
    [|apply sort_by_sorted].
  destruct HI as [_ H2]. destruct (H2 k v Hk) as (b & s & Hb & Hs & H).
  cbn [app] in Hb, Hs. rewrite sort_by_perm in Hb, Hs. by exists b, s.
Qed.

(** A sale at 15000 and a later purchase at 12000. *)
Definition later_buy : trade :=
  {| t_id := Some "r"%string; t_date := Some "2024-01-03 00:00:00"%string;
     t_asset := Some "BTC"%string; t_type := Some "BUY"%string;
     t_price := Some 12000; t_quantity := Some 1; t_fee := Some 0;
     t_total_value := Some 12000 |}.

Lemma buy_profit_entries_witness :
  ∃ res v,
    compute_buy_profit_per_trade [later_buy; sale_of 1] = Ok res
    ∧ res !! "r"%string = Some v
    ∧ ∃ b s, b ∈ [later_buy; sale_of 1] ∧ s ∈ [later_buy; sale_of 1]
             ∧ buy_against_sale b s "r" v.
Proof.
  eexists _, _. split; [vm_compute; reflexivity|]. split; [vm_compute; reflexivity|].
  eapply (buy_profit_entries [later_buy; sale_of 1]).
  - vm_compute; reflexivity.
  - vm_compute; reflexivity.
Defined.

(** ** Quantities held and available *)

Definition quantity_of (t : trade) : Q := num0 (t_quantity t).

Lemma is_type_some t ty s : t_type t = Some ty → is_type t s = String.eqb ty s.
Proof. unfold is_type. by intros ->. Qed.

Lemma is_asset_some t a s : t_asset t = Some a → is_asset t s = String.eqb a s.
Proof. unfold is_asset. by intros ->. Qed.

Lemma holding_terms_sum trades asset : ∀ terms,
  holding_terms trades asset = Ok terms →
  py_sum terms
  == sum_where quantity_of (λ t, is_asset t asset && is_type t "Holding") trades.
Proof.
  induction trades as [|t ts IH]; intros terms H; cbn [holding_terms] in H.
  { by injection H as <-. }
  rewrite sum_where_cons.
  destruct (t_asset t) as [a|] eqn:Ea; [|discriminate].
  cbn [subscript mbind result_mbind result_bind] in H.
  rewrite (is_asset_some _ _ _ Ea).
  destruct (String.eqb a asset); cbn [andb]; [|rewrite (IH _ H); lra].
  destruct (t_type t) as [ty|] eqn:Et; [|discriminate].
  cbn [subscript mbind result_mbind result_bind] in H.
  rewrite (is_type_some _ _ _ Et).
  destruct (String.eqb ty "Holding"); [|rewrite (IH _ H); lra].
  destruct (t_quantity t) as [q|] eqn:Eq; [|discriminate].
  cbn [subscript mbind result_mbind result_bind] in H.
  destruct (holding_terms ts asset) as [rest|e]; [|discriminate].
  cbn [result_bind] in H. injection H as <-.
  rewrite py_sum_cons, (IH rest eq_refl). unfold quantity_of, num0. rewrite Eq.
  reflexivity.
Qed.

Lemma holding_qty_of_entry trades asset c u p :
  am_holding_qty
    (asset_entry (filter (λ t, is_asset t asset = true) (sort_by date_key trades))
       c u p)
  == sum_where quantity_of (λ t, is_asset t asset && is_type t "Holding") trades.
Proof.
  cbn [asset_entry am_holding_qty].
  fold quantity_of.
  fold (sum_where quantity_of (λ t, is_type t "Holding")
          (filter (λ t, is_asset t asset = true) (sort_by date_key trades))).
  rewrite sum_where_filter, (sum_where_perm _ _ _ trades) by apply sort_by_perm.
  apply sum_where_ext. intros t _. apply andb_comm.
Qed.

(** X9: the quantity [get_holding_quantity] returns for an asset is the
    [holding_qty] of the asset's entry in the snapshot. *)
Theorem holding_quantity_agrees (trades : list trade) (cost_basis_method : string)
    (get_current_price : string → option Q) (asset : string) (h : Q)
    (snap : portfolio_metrics) (e : asset_metrics) :
  get_holding_quantity trades asset = Ok h →
  compute_portfolio_metrics trades cost_basis_method get_current_price = Ok snap →
  per_asset snap !! asset = Some e →
  am_holding_qty e == h.
Proof.
  unfold get_holding_quantity. intros Hh Hm He.
  destruct (holding_terms trades asset) as [terms|x] eqn:Et; [|discriminate].
  injection Hh as <-. rewrite (holding_terms_sum _ _ _ Et).
  destruct (per_asset_lookup _ _ _ _ asset Hm) as [H1 H2].
  destruct (has_asset_dec trades asset) as [Ha | Ha].
  - destruct (H1 Ha) as (c & u & ls & _ & Hl). rewrite He in Hl. injection Hl as ->.
    apply holding_qty_of_entry.
  - rewrite (H2 Ha) in He. discriminate.
Qed.

(** Half a unit locked in a Holding trade. *)
Definition held_half : trade :=
  {| t_id := Some "h"%string; t_date := Some "2024-01-02 12:00:00"%string;
     t_asset := Some "BTC"%string; t_type := Some "Holding"%string;
     t_price := Some 10000; t_quantity := Some (1 # 2); t_fee := Some 0;
     t_total_value := Some 5000 |}.

Lemma holding_quantity_agrees_witness :
  ∃ h snap e,
    get_holding_quantity [paid_buy; held_half] "BTC" = Ok h
    ∧ compute_portfolio_metrics [paid_buy; held_half] "average" (λ _, None) = Ok snap
    ∧ per_asset snap !! "BTC"%string = Some e
    ∧ am_holding_qty e == h.
Proof.
  eexists _, _, _. split; [vm_compute; reflexivity|].
  split; [vm_compute; reflexivity|]. split; [vm_compute; reflexivity|].
  eapply (holding_quantity_agrees [paid_buy; held_half] "average" (λ _, None) "BTC").
  - vm_compute; reflexivity.
  - vm_compute; reflexivity.
  - vm_compute; reflexivity.
Defined.

Lemma strict_asset_filter_ok trades asset : ∀ l,
  strict_asset_filter trades asset = Ok l →
  l = filter (λ t, is_asset t asset = true) trades
  ∧ Forall (λ t, is_Some (t_asset t)) trades.
Proof.
  induction trades as [|t ts IH]; intros l H; cbn [strict_asset_filter] in H.
  { injection H as <-. by split. }
  destruct (t_asset t) as [a|] eqn:Ea; [|discriminate].
  cbn [subscript mbind result_mbind result_bind] in H.
  destruct (strict_asset_filter ts asset) as [rest|e]; [|discriminate].
  cbn [result_bind] in H. injection H as <-.
  destruct (IH rest eq_refl) as [-> Hf].
  split; [|constructor; [by rewrite Ea | exact Hf]].
  rewrite filter_cons, (is_asset_some _ _ _ Ea).
  by destruct (String.eqb a asset); destruct (decide _).
Qed.

(** What a trade must have for the loop of [get_available_quantity]. *)
Definition quantity_readable (t : trade) : Prop :=
  is_Some (t_type t)
  ∧ (is_type t "Holding" = true → is_Some (t_quantity t)).

Lemma available_step_units q0 t q1 c0 u0 c1 u1 :
  available_step q0 t = Ok q1 →
  average_step (c0, u0) t = Ok (c1, u1) →
  quantity_readable t
  ∧ q1 - q0 == (u1 - u0)
               - (if is_type t "Holding" then quantity_of t else 0).
Proof.
  unfold available_step, average_step, quantity_readable, is_acquisition.
  destruct (t_type t) as [ty|] eqn:Et; [|discriminate].
  cbn [subscript mbind result_mbind result_bind].
  rewrite !(is_type_some _ _ _ Et).
  destruct (String.eqb ty "BUY") eqn:Eb.
  { apply String.eqb_eq in Eb as ->. cbn [orb String.eqb Ascii.eqb Bool.eqb andb].
    destruct (t_quantity t) as [q|] eqn:Eq; [|discriminate].
    cbn [subscript mbind result_mbind result_bind num0 from_option id].
    intros [= <-] [= <- <-]. split; [split; [eauto|done]|]. cbn. lra. }
  destruct (String.eqb ty "Transfer") eqn:Etr.
  { apply String.eqb_eq in Etr as ->. cbn [orb String.eqb Ascii.eqb Bool.eqb andb].
    destruct (t_quantity t) as [q|] eqn:Eq; [|discriminate].
    cbn [subscript mbind result_mbind result_bind num0 from_option id].
    intros [= <-] [= <- <-]. split; [split; [eauto|done]|]. cbn. lra. }
  cbn [orb].
  destruct (String.eqb ty "SELL") eqn:Es.
  { apply String.eqb_eq in Es as ->. cbn [String.eqb Ascii.eqb Bool.eqb andb].
    destruct (t_quantity t) as [q|] eqn:Eq; [|discriminate].
    cbn [subscript mbind result_mbind result_bind num0 from_option id].
    intros [= <-] H. split; [split; [eauto|done]|].
    destruct (Qltb 0 (u0 - q)).
    - destruct (py_div c0 (u0 - q + q)); cbn [result_bind] in H; [|discriminate].
      injection H as <- <-. lra.
    - injection H as <- <-. lra. }
  destruct (String.eqb ty "Holding") eqn:Eh.
  { destruct (t_quantity t) as [q|] eqn:Eq; [|discriminate].
    cbn [subscript mbind result_mbind result_bind].
    intros [= <-] [= <- <-]. split; [split; eauto|].
    unfold quantity_of, num0. rewrite Eq. cbn. lra. }
  intros [= <-] [= <- <-]. split; [split; [eauto|done]|]. lra.
Qed.

Lemma available_loop_units l : ∀ q0 q c0 u0 c u,
  available_loop q0 l = Ok q →
  average_loop (c0, u0) l = Ok (c, u) →
  Forall quantity_readable l
  ∧ q - q0 == (u - u0) - sum_where quantity_of (λ t, is_type t "Holding") l.
Proof.
  induction l as [|t l IH]; intros q0 q c0 u0 c u Hq Hu.
  { cbn in Hq, Hu. injection Hq as <-. injection Hu as <- <-.
    split; [constructor|]. rewrite sum_where_nil. lra. }
  cbn [available_loop average_loop] in Hq, Hu.
  destruct (available_step q0 t) as [q1|e] eqn:E1; [|discriminate].
  destruct (average_step (c0, u0) t) as [[c1 u1]|e] eqn:E2; [|discriminate].
  cbn [mbind result_mbind result_bind] in Hq, Hu.
  destruct (available_step_units _ _ _ _ _ _ _ E1 E2) as [Hr Hs].
  destruct (IH _ _ _ _ _ _ Hq Hu) as [Hf Hl].
  split; [by constructor|]. rewrite sum_where_cons. lra.
Qed.

Lemma holding_terms_returns trades asset :
  Forall (λ t, is_Some (t_asset t)) trades →
  Forall quantity_readable (filter (λ t, is_asset t asset = true) trades) →
  ∃ terms, holding_terms trades asset = Ok terms.
Proof.
  induction 1 as [|t ts [a Ea] _ IH]; intros Hq; [by eexists|].
  cbn [holding_terms]. rewrite Ea.
  cbn [subscript mbind result_mbind result_bind].
  rewrite filter_cons, (is_asset_some _ _ _ Ea) in Hq.
  destruct (String.eqb a asset); [|destruct (decide (false = true)); [done | by apply IH]].
  destruct (decide (true = true)); [|done].
  apply Forall_cons in Hq as [[[ty Et] Hh] Hq]. rewrite Et.
  cbn [subscript mbind result_mbind result_bind].
  rewrite (is_type_some _ _ _ Et) in Hh.
  destruct (String.eqb ty "Holding"); [|by apply IH].
  destruct (Hh eq_refl) as [q ->]. cbn [subscript result_bind].
  destruct (IH Hq) as [rest ->]. cbn [result_bind]. eauto.
Qed.

Lemma py_max0_proper x y : x == y → py_max0 x == py_max0 y.
Proof.
  intros E. unfold py_max0.
  destruct (Qltb 0 x) eqn:Ex, (Qltb 0 y) eqn:Ey; try done.
  - apply Qltb_lt in Ex. apply Qltb_ge in Ey. lra.
  - apply Qltb_lt in Ey. apply Qltb_ge in Ex. lra.
Qed.

Lemma py_max0_nonneg x : 0 <= py_max0 x.
Proof.
  unfold py_max0. destruct (Qltb 0 x) eqn:E; [|lra]. apply Qltb_lt in E. lra.
Qed.

(** X10: for an asset other than the dollar, in exact arithmetic the
    quantity available is the units held under the average method less
    the quantity in Holding trades, and never less than zero: when
    [get_available_quantity] and the average engine return, so does
    [get_holding_quantity], and the three figures agree.  (The code
    subtracts in the order of the dates, so in binary64 the two sides can
    differ by rounding: [available_quantity_rounding].) *)
Theorem available_quantity_agrees (trades : list trade) (cost_basis_method : string)
    (get_current_price : string → option Q) (asset : string)
    (q cost units : Q) (lots : list lot) :
  asset ≠ "USD"%string →
  get_available_quantity trades cost_basis_method get_current_price asset = Ok q →
  calculate_cost_basis_average trades asset = Ok (cost, units, lots) →
  ∃ h, get_holding_quantity trades asset = Ok h
       ∧ q == py_max0 (units - h) ∧ 0 <= q.
Proof.
  intros Hn Hq Hu. unfold get_available_quantity in Hq.
  apply String.eqb_neq in Hn. rewrite Hn in Hq.
  destruct (strict_asset_filter trades asset) as [l|e] eqn:El; [|discriminate].
  cbn [mbind result_mbind result_bind] in Hq.
  apply strict_asset_filter_ok in El as [-> Hall].
  destruct (sorted_by_date_strict _) as [sl|e] eqn:Es; [|discriminate].
  cbn [mbind result_mbind result_bind] in Hq.
  apply sorted_by_date_strict_ok in Es as [-> _].
  fold (asset_history trades asset) in Hq.
  destruct (available_loop 0 _) as [qty|e] eqn:Eq; [|discriminate].
  cbn [mbind result_mbind result_bind] in Hq. injection Hq as <-.
  unfold calculate_cost_basis_average in Hu.
  destruct (average_loop (0, 0) _) as [[c u]|e] eqn:Ea; [|discriminate].
  cbn [result_bind] in Hu. injection Hu as <- <- <-.
  destruct (available_loop_units _ _ _ _ _ _ _ Eq Ea) as [Hr Hs].
  destruct (holding_terms_returns trades asset Hall) as [terms Ht].
  { unfold asset_history in Hr. by rewrite sort_by_perm in Hr. }
  exists (py_sum terms). unfold get_holding_quantity. rewrite Ht.
  split; [reflexivity|]. split; [|apply py_max0_nonneg].
  apply py_max0_proper. rewrite (holding_terms_sum _ _ _ Ht).
  unfold asset_history in Hs.
  rewrite (sum_where_perm _ _ _ (filter (λ t, is_asset t asset = true) trades)),
    sum_where_filter in Hs by apply sort_by_perm.
  rewrite (sum_where_ext quantity_of _
             (λ t, is_type t "Holding" && is_asset t asset))
    by (intros t _; apply andb_comm).
  lra.
Qed.

Lemma available_quantity_agrees_witness :
  ∃ q cost units lots,
    get_available_quantity [paid_buy; held_half; sale_of 1] "average" (λ _, None) "BTC"
    = Ok q
    ∧ calculate_cost_basis_average [paid_buy; held_half; sale_of 1] "BTC"
      = Ok (cost, units, lots)
    ∧ ∃ h, get_holding_quantity [paid_buy; held_half; sale_of 1] "BTC" = Ok h
           ∧ q == py_max0 (units - h) ∧ 0 <= q.
Proof.
  eexists _, _, _, _. split; [vm_compute; reflexivity|].
  split; [vm_compute; reflexivity|].
  eapply (available_quantity_agrees [paid_buy; held_half; sale_of 1] "average"
            (λ _, None) "BTC").
  - discriminate.
  - vm_compute; reflexivity.
  - vm_compute; reflexivity.
Defined.

(** In binary64 the two figures can differ in the last place: one unit
    bought, a tenth held, seven tenths sold. *)
Definition buy_one : Float64.trade :=
  trade64 "b" "2024-01-01 00:00:00" "BTC" "BUY" 100 1 0 100.

Definition hold_tenth : Float64.trade :=
  trade64 "h" "2024-01-02 00:00:00" "BTC" "Holding" 100 0.1 0 10.

Definition sell_seven_tenths : Float64.trade :=
  trade64 "s" "2024-01-03 00:00:00" "BTC" "SELL" 100 0.7 0 70.

Example available_quantity_rounding :
  let trades := [buy_one; hold_tenth; sell_seven_tenths] in
  Float64.get_available_quantity trades "average" (λ _, None) "BTC"
  = Ok 0.20000000000000007%float
  ∧ Float64.get_holding_quantity trades "BTC" = Ok 0.1%float
  ∧ ∃ c l, Float64.calculate_cost_basis_average trades "BTC"
           = Ok (c, 0.30000000000000004%float, l)
           ∧ Float64.py_max0 (0.30000000000000004 - 0.1)%float
             = 0.20000000000000004%float.
Proof.
  cbv zeta. split; [vm_compute; reflexivity|]. split; [vm_compute; reflexivity|].
  eexists _, _. split; vm_compute; reflexivity.
Qed.

(** ** The scope of the metrics *)

Lemma filter_filter_sub {A} (P Q : A → Prop) `{!∀ x, Decision (P x)}
    `{!∀ x, Decision (Q x)} (l : list A) :
  (∀ x, Q x → P x) → filter Q (filter P l) = filter Q l.
Proof.
  intros Hsub. induction l as [|x l IH]; [reflexivity|].
  rewrite (filter_cons P x), (filter_cons Q x).
  destruct (decide (P x)) as [Hp|Hp], (decide (Q x)) as [Hq|Hq];
    rewrite ?filter_cons; repeat case_decide; try done; try (by rewrite IH).
  by destruct Hp; apply Hsub.
Qed.

Lemma asset_loop_ok m look ts assets :
  (∀ a, a ∈ assets → filter (λ t, is_asset t a = true) ts ≠ [] →
        ∃ r, cost_basis_by m (filter (λ t, is_asset t a = true) ts) a = Ok r) →
  ∀ acc, ∃ acc', asset_loop m look ts acc assets = Ok acc'.
Proof.
  induction assets as [|a rest IH]; intros H acc; [by eexists|].
  cbn [asset_loop].
  assert (∃ acc1, asset_step m look ts acc a = Ok acc1) as [acc1 ->].
  { unfold asset_step. destruct acc as [[[pa cb] up] va].
    specialize (H a ltac:(left)).
    destruct (filter _ ts) as [|t0 ats]; [by eexists|].
    destruct H as [[[c u] ls] ->]; [done|]. cbn [result_bind]. by eexists. }
  cbn [result_bind]. apply IH. intros b Hb. apply H. by right.
Qed.

Lemma external_cash_sum ts :
  external_cash ts
  = sum_where quantity_of (λ t, is_asset t "USD" && is_type t "Deposit") ts
    - sum_where quantity_of (λ t, is_asset t "USD" && is_type t "Withdrawal") ts.
Proof. reflexivity. Qed.

Definition in_scope (a : string) (t : trade) : bool :=
  is_asset t a || is_asset t "USD".

Lemma sum_where_scope (h : trade → Q) (b : trade → bool) a trades :
  (∀ t, b t = true → in_scope a t = true) →
  sum_where h b (sort_by date_key (filter (λ t, in_scope a t = true) trades))
  == sum_where h b (sort_by date_key trades).
Proof.
  intros Hb. rewrite !(sum_where_perm h b (sort_by date_key _) _ (sort_by_perm _ _)).
  rewrite sum_where_filter. apply sum_where_ext. intros t _.
  destruct (b t) eqn:E; [|reflexivity]. by rewrite (Hb t E).
Qed.

Lemma external_cash_scope a trades :
  external_cash (sort_by date_key (filter (λ t, in_scope a t = true) trades))
  == external_cash (sort_by date_key trades).
Proof.
  rewrite !external_cash_sum.
  rewrite !(sum_where_scope quantity_of _ a trades); [reflexivity|..];
    intros t Ht; apply andb_true_iff in Ht as [Hu _]; unfold in_scope;
    rewrite Hu; apply orb_true_r.
Qed.

Lemma filter_asset_scope a trades :
  filter (λ t, is_asset t a = true)
    (sort_by date_key (filter (λ t, in_scope a t = true) trades))
  = filter (λ t, is_asset t a = true) (sort_by date_key trades).
Proof.
  rewrite !filter_sort_by. f_equal. apply filter_filter_sub.
  intros t Ht. unfold in_scope. by rewrite Ht.
Qed.

Lemma has_asset_scope a trades b :
  has_asset (filter (λ t, in_scope a t = true) trades) b
  ↔ b = a ∧ has_asset trades a.
Proof.
  unfold has_asset. split.
  - intros [Hn (t & Ht & Hb)]. apply list_elem_of_filter in Ht as [Hs Ht].
    unfold in_scope in Hs. apply orb_true_iff in Hs as [Hs | Hs];
      apply is_asset_true in Hs; [|congruence].
    assert (b = a) as -> by congruence. split; [reflexivity|]. split; [exact Hn|].
    by exists t.
  - intros [-> [Hn (t & Ht & Ha)]]. split; [exact Hn|]. exists t. split; [|exact Ha].
    apply list_elem_of_filter. split; [|exact Ht].
    unfold in_scope. apply is_asset_true in Ha. by rewrite Ha.
Qed.

Lemma metrics_assets_present trades m look snap :
  compute_portfolio_metrics trades m look = Ok snap →
  Forall (λ t, is_Some (t_asset t)) trades.
Proof.
  unfold compute_portfolio_metrics. destruct trades as [|t0 ts]; [constructor|].
  destruct (crypto_asset_set _) as [s|e] eqn:Es; cbn [result_bind]; [|discriminate].
  intros _. rewrite <- (sort_by_perm date_key (t0 :: ts)).
  apply Forall_forall. intros t Ht.
  destruct (is_asset t "USD") eqn:Eu.
  - apply is_asset_true in Eu. by rewrite Eu.
  - by apply (crypto_asset_set_some _ _ Es).
Qed.

Lemma metrics_external_cash trades m look snap :
  compute_portfolio_metrics trades m look = Ok snap →
  total_external_cash snap == external_cash (sort_by date_key trades).
Proof.
  intros H. destruct trades as [|t0 ts].
  { injection H as <-. reflexivity. }
  destruct (metrics_totals _ _ _ _ H) as (acc & -> & _); [done|].
  by destruct acc as [[[pa cb] up] va].
Qed.

(** X11: restricting the trades to one asset and the dollar, as
    [_trades_for_metric_scope] does, keeps the metrics computable, the
    external cash and the entry of that asset; no other asset has an entry
    then. *)
Theorem metric_scope_keeps (trades : list trade) (cost_basis_method : string)
    (get_current_price : string → option Q) (asset : string)
    (snap : portfolio_metrics) :
  nonempty asset = true →
  compute_portfolio_metrics trades cost_basis_method get_current_price = Ok snap →
  ∃ snap',
    compute_portfolio_metrics (_trades_for_metric_scope trades (Some asset))
      cost_basis_method get_current_price = Ok snap'
    ∧ total_external_cash snap' == total_external_cash snap
    ∧ per_asset snap' !! asset = per_asset snap !! asset
    ∧ ∀ b, b ≠ asset → per_asset snap' !! b = None.
Proof.
  intros Hne H. unfold _trades_for_metric_scope. rewrite Hne.
  change (λ t, is_asset t asset || is_asset t "USD" = true)
    with (λ t, in_scope asset t = true).
  set (l' := filter (λ t, in_scope asset t = true) trades).
  pose proof (metrics_assets_present _ _ _ _ H) as Hall.
  assert (Hall' : Forall (λ t, is_Some (t_asset t)) l') by (by apply filter_Forall).
  (* the scoped list is computable *)
  assert (Hok : ∃ snap', compute_portfolio_metrics l' cost_basis_method
                           get_current_price = Ok snap').
  { unfold compute_portfolio_metrics. destruct l' as [|t0' ts'] eqn:El'; [by eexists|].
    rewrite <- El' in *.
    destruct (crypto_asset_set_returns (sort_by date_key l')) as [s' Es'];
      [by apply sort_by_Forall|].
    rewrite Es'. cbn [result_bind].
    destruct (asset_loop_ok cost_basis_method get_current_price
                (sort_by date_key l') (sorted_set s')) with (acc := totals0)
      as [acc' ->]; [|cbn [result_bind]; by eexists].
    intros b Hb _. apply sorted_set_elem_of, (crypto_asset_set_spec _ _ Es') in Hb.
    apply (has_asset_perm _ l') in Hb; [|apply sort_by_perm].
    apply has_asset_scope in Hb as [-> Ha]. subst l'. rewrite filter_asset_scope.
    destruct (per_asset_lookup _ _ _ _ asset H) as [H1 _].
    destruct (H1 Ha) as (c & u & ls & Hc & _). eauto. }
  destruct Hok as [snap' H']. exists snap'. split; [exact H'|].
  split; [|split].
  - (* external cash *)
    rewrite (metrics_external_cash _ _ _ _ H), (metrics_external_cash _ _ _ _ H').
    apply external_cash_scope.
  - (* the entry of the asset *)
    destruct (per_asset_lookup _ _ _ _ asset H) as [H1 H2].
    destruct (per_asset_lookup _ _ _ _ asset H') as [H1' H2'].
    destruct (has_asset_dec trades asset) as [Ha | Ha].
    + destruct (H1 Ha) as (c & u & ls & Hc & ->).
      destruct H1' as (c' & u' & ls' & Hc' & ->).
      { apply has_asset_scope. by split. }
      subst l'. rewrite filter_asset_scope in *. rewrite Hc in Hc'.
      by injection Hc' as <- <- <-.
    + rewrite (H2 Ha), H2'; [reflexivity|].
      intros Ha'. apply has_asset_scope in Ha' as [_ Ha']. by apply Ha.
  - intros b Hb. destruct (per_asset_lookup _ _ _ _ b H') as [_ H2'].
    apply H2'. intros Ha'. apply has_asset_scope in Ha' as [-> _]. by apply Hb.
Qed.

Lemma metric_scope_keeps_witness :
  ∃ snap snap',
    compute_portfolio_metrics [paid_buy; usd_sell; sale_of 1] "fifo" (λ _, None)
    = Ok snap
    ∧ compute_portfolio_metrics
        (_trades_for_metric_scope [paid_buy; usd_sell; sale_of 1] (Some "BTC"%string))
        "fifo" (λ _, None) = Ok snap'
    ∧ total_external_cash snap' == total_external_cash snap
    ∧ per_asset snap' !! "BTC"%string = per_asset snap !! "BTC"%string
    ∧ ∀ b, b ≠ "BTC"%string → per_asset snap' !! b = None.
Proof.
  destruct (metric_scope_keeps [paid_buy; usd_sell; sale_of 1] "fifo" (λ _, None)
              "BTC" _ eq_refl ltac:(vm_compute; reflexivity))
    as (snap' & H1 & H2).
  eexists _, snap'. split; [vm_compute; reflexivity|]. split; [exact H1 | exact H2].
Defined.

(** ** The order of the exchanges *)

(** X12: when the keys of the fee structure are distinct, as the keys of
    a dict are, the list of exchanges has each of them once; Bitstamp
    comes first when it is among them, and Wallet comes first when it is
    and Bitstamp is not. *)
Theorem ordered_exchanges_complete {V} (fee_structure : list (string * V)) :
  NoDup fee_structure.*1 →
  _ordered_exchanges fee_structure ≡ₚ fee_structure.*1
  ∧ ("Bitstamp"%string ∈ fee_structure.*1 →
     head (_ordered_exchanges fee_structure) = Some "Bitstamp"%string)
  ∧ ("Wallet"%string ∈ fee_structure.*1 → "Bitstamp"%string ∉ fee_structure.*1 →
     head (_ordered_exchanges fee_structure) = Some "Wallet"%string).
Proof.
  intros Hd. unfold _ordered_exchanges. set (keys := fee_structure.*1) in *.
  set (front := filter (λ x, x ∈ keys) ["Bitstamp"; "Wallet"]%string).
  set (back := sort_by id (filter (λ x, x ∉ ["Bitstamp"; "Wallet"]%string) keys)).
  assert (Hp : front ++ back ≡ₚ keys).
  { subst back. rewrite sort_by_perm.
    etrans;
      [|apply (filter_app_complement (λ x, x ∈ ["Bitstamp"; "Wallet"]%string) keys)].
    apply Permutation_app; [|reflexivity].
    apply NoDup_Permutation.
    - apply NoDup_filter, NoDup_cons. split; [|apply NoDup_singleton].
      intros Hin. by apply list_elem_of_singleton in Hin.
    - by apply NoDup_filter.
    - intros x. subst front. rewrite !list_elem_of_filter. tauto. }
  split; [|split].
  - destruct (front ++ back) eqn:E; [|exact Hp].
    by apply Permutation_nil_l in Hp as <-.
  - intros Hb. subst front. rewrite filter_cons.
    destruct (decide ("Bitstamp"%string ∈ keys)); [reflexivity | done].
  - intros Hw Hb. subst front. rewrite filter_cons.
    destruct (decide ("Bitstamp"%string ∈ keys)); [done|].
    rewrite filter_cons. destruct (decide ("Wallet"%string ∈ keys)); [reflexivity | done].
Qed.

Lemma ordered_exchanges_complete_witness :
  let fee_structure := [("Kraken", 1); ("Wallet", 0); ("Bitstamp", 2)]%string in
  _ordered_exchanges fee_structure ≡ₚ fee_structure.*1
  ∧ ("Bitstamp"%string ∈ fee_structure.*1 →
     head (_ordered_exchanges fee_structure) = Some "Bitstamp"%string)
  ∧ ("Wallet"%string ∈ fee_structure.*1 → "Bitstamp"%string ∉ fee_structure.*1 →
     head (_ordered_exchanges fee_structure) = Some "Wallet"%string).
Proof.
  cbv zeta.
  apply (ordered_exchanges_complete [("Kraken", 1); ("Wallet", 0); ("Bitstamp", 2)]%string).
  cbn. repeat (apply NoDup_cons; split; [|]); try apply NoDup_nil_2;
    intros H; repeat (apply elem_of_cons in H as [H | H]; [discriminate H|]);
    by apply elem_of_nil in H.
Defined.

(** ** Change over 24 hours *)

(** The asset counts in the average: it has a percentage and a positive
    value. *)
Definition contributes (get_24h_pct : string → option Q)
    (item : string * asset_metrics) (pct : Q) : Prop :=
  get_24h_pct item.1 = Some pct ∧ 0 < am_current_value item.2.

Lemma pct_step_cases g acc item :
  (∃ pct, contributes g item pct
          ∧ pct_step g acc item
            = (acc.1 + am_current_value item.2,
               acc.2 + am_current_value item.2 * pct))
  ∨ ((∀ pct, ¬ contributes g item pct) ∧ pct_step g acc item = acc).
Proof.
  unfold pct_step, contributes. destruct acc as [tv ws].
  destruct (g item.1) as [pct|]; [|right; split; [by intros ? [? _]|done]].
  destruct (Qltb 0 _) eqn:E.
  - apply Qltb_lt in E. left. by exists pct.
  - apply Qltb_ge in E. right. split; [|done]. intros ? [_ ?]. lra.
Qed.

Lemma pct_fold_bounds g lo hi items : ∀ acc,
  (∀ item pct, item ∈ items → contributes g item pct → lo <= pct <= hi) →
  0 <= acc.1 → lo * acc.1 <= acc.2 <= hi * acc.1 →
  let acc' := foldl (pct_step g) acc items in
  0 <= acc'.1 ∧ lo * acc'.1 <= acc'.2 <= hi * acc'.1.
Proof.
  induction items as [|item items IH]; intros acc Hb H0 Hw; [done|].
  cbn [foldl]. apply IH.
  - intros i p Hi. apply Hb. by right.
  - destruct (pct_step_cases g acc item) as [(pct & [_ Hv] & ->) | [_ ->]];
      cbn [fst]; lra.
  - destruct (pct_step_cases g acc item) as [(pct & Hc & ->) | [_ ->]];
      [|exact Hw].
    pose proof (Hb item pct ltac:(left) Hc) as Hp. destruct Hc as [_ Hv].
    cbn [fst snd]. nra.
Qed.

(** X13: in exact arithmetic the percentage of the portfolio lies between
    the smallest and the largest percentage of the assets that count: it
    is a weighted average of them.  (In binary64 the quotient can leave
    the bounds by rounding: [portfolio_24h_pct_rounding].) *)
Theorem portfolio_24h_pct_bounds (get_24h_pct : string → option Q)
    (per_asset : list (string * asset_metrics)) (lo hi r : Q) :
  (∀ item pct, item ∈ per_asset → contributes get_24h_pct item pct →
               lo <= pct <= hi) →
  portfolio_24h_pct get_24h_pct per_asset = Some r →
  lo <= r <= hi.
Proof.
  intros Hb. unfold portfolio_24h_pct.
  pose proof (pct_fold_bounds get_24h_pct lo hi per_asset (0, 0) Hb) as H.
  cbn [fst snd] in H. specialize (H ltac:(lra) ltac:(lra)). cbn zeta in H.
  destruct (foldl _ _ _) as [tv ws]. cbn [fst snd] in H.
  destruct (Qle_bool tv 0) eqn:E; [discriminate|]. intros [= <-].
  apply Qle_bool_gt in E. destruct H as (_ & Hl & Hh).
  split.
  - apply Qle_shift_div_l; [exact E | lra].
  - apply Qle_shift_div_r; [exact E | lra].
Qed.

(** An entry of [per_asset] worth [v]. *)
Definition entry_worth (v : Q) : asset_metrics :=
  {| am_units_held := 1; am_holding_qty := 0; am_price := Some v;
     am_current_value := v; am_cost_basis := v; am_unrealized_pnl := 0;
     am_realized_pnl := 0; am_lifetime_pnl := 0; am_roi_pct := 0 |}.

Definition sample_pct (asset : string) : option Q :=
  if String.eqb asset "BTC" then Some 2
  else if String.eqb asset "ETH" then Some (-1) else None.

Definition sample_items : list (string * asset_metrics) :=
  [("BTC"%string, entry_worth 300); ("ETH"%string, entry_worth 100);
   ("SOL"%string, entry_worth 50)].

Lemma portfolio_24h_pct_bounds_witness :
  ∃ r, portfolio_24h_pct sample_pct sample_items = Some r ∧ -1 <= r <= 2.
Proof.
  eexists. split; [vm_compute; reflexivity|].
  apply (portfolio_24h_pct_bounds sample_pct sample_items (-1) 2).
  - intros item pct Hin [Hg _].
    repeat (apply elem_of_cons in Hin as [-> | Hin]);
      [| |discriminate Hg|by apply elem_of_nil in Hin];
      injection Hg as <-; split; discriminate.
  - vm_compute; reflexivity.
Defined.

(** In binary64 two assets at 2.5 percent, worth 0.1 and 0.2, give a
    percentage just below 2.5. *)
(** An entry of [per_asset] worth [v], in binary64. *)
Definition entry_worth64 (v : float) : Float64.asset_metrics :=
  {| Float64.am_units_held := 1; Float64.am_holding_qty := 0;
     Float64.am_price := Some v; Float64.am_current_value := v;
     Float64.am_cost_basis := v; Float64.am_unrealized_pnl := 0;
     Float64.am_realized_pnl := 0; Float64.am_lifetime_pnl := 0;
     Float64.am_roi_pct := 0 |}.

Example portfolio_24h_pct_rounding :
  Float64.portfolio_24h_pct (λ _, Some 2.5%float)
    [("BTC"%string, entry_worth64 0.1); ("ETH"%string, entry_worth64 0.2)]
  = Some 2.4999999999999996%float.
Proof. vm_compute. reflexivity. Qed.

Lemma pct_fold_positive g items : ∀ acc,
  0 <= acc.1 →
  let acc' := foldl (pct_step g) acc items in
  0 <= acc'.1
  ∧ (0 < acc'.1 ↔ 0 < acc.1 ∨ ∃ item pct, item ∈ items ∧ contributes g item pct).
Proof.
  induction items as [|item items IH]; intros acc H0; cbn [foldl].
  { split; [exact H0|]. split; [by left|]. intros [H | (i & p & Hi & _)]; [exact H|].
    by apply elem_of_nil in Hi. }
  destruct (pct_step_cases g acc item) as [(pct & Hc & E) | [Hn E]]; rewrite E.
  - destruct (IH (acc.1 + am_current_value item.2, acc.2 + am_current_value item.2 * pct))
      as [H1 H2]; [destruct Hc; cbn [fst]; lra|].
    split; [exact H1|]. rewrite H2. split.
    + intros _. right. exists item, pct. split; [by left|exact Hc].
    + intros _. left. destruct Hc. cbn [fst]. lra.
  - destruct (IH acc H0) as [H1 H2]. split; [exact H1|]. rewrite H2. split.
    + intros [H | (i & p & Hi & Hc)]; [by left|]. right. exists i, p.
      split; [by right|exact Hc].
    + intros [H | (i & p & Hi & Hc)]; [by left|].
      apply elem_of_cons in Hi as [-> | Hi]; [by destruct (Hn p)|].
      right. by exists i, p.
Qed.

(** X14: [portfolio_24h_pct] gives no percentage exactly when no asset
    counts: none has both a percentage and a positive value. *)
Theorem portfolio_24h_pct_none (get_24h_pct : string → option Q)
    (per_asset : list (string * asset_metrics)) :
  portfolio_24h_pct get_24h_pct per_asset = None
  ↔ ∀ item pct, item ∈ per_asset → ¬ contributes get_24h_pct item pct.
Proof.
  unfold portfolio_24h_pct.
  pose proof (pct_fold_positive get_24h_pct per_asset (0, 0)) as H.
  cbn [fst] in H. specialize (H ltac:(lra)). cbn zeta in H.
  destruct (foldl _ _ _) as [tv ws]. cbn [fst] in H. destruct H as [H0 H].
  destruct (Qle_bool tv 0) eqn:E.
  - apply Qle_bool_iff in E. split; [|done]. intros _ item pct Hi Hc.
    assert (0 < tv); [|lra]. apply H. right. by exists item, pct.
  - apply Qle_bool_gt in E. split; [done|]. intros Hn. exfalso.
    apply H in E as [E | (i & p & Hi & Hc)]; [lra|]. by apply (Hn i p).
Qed.

Lemma usd_24h_step_cases g total item :
  (∃ pct, contributes g item pct
          ∧ usd_24h_step g total item
            = if Qeq_bool (100 + pct) 0 then Raise ZeroDivisionError
              else Ok (total + am_current_value item.2 * (pct / (100 + pct))))
  ∨ ((∀ pct, ¬ contributes g item pct) ∧ usd_24h_step g total item = Ok total).
Proof.
  unfold usd_24h_step, contributes.
  destruct (g item.1) as [pct|]; [|right; split; [by intros ? [? _]|done]].
  destruct (Qltb 0 _) eqn:E.
  - apply Qltb_lt in E. left. exists pct. split; [done|].
    unfold py_div. by destruct (Qeq_bool (100 + pct) 0).
  - apply Qltb_ge in E. right. split; [|done]. intros ? [_ ?]. lra.
Qed.

Lemma usd_24h_loop_raises g items : ∀ total,
  (∃ e, usd_24h_loop g total items = Raise e)
  ↔ ∃ item pct, item ∈ items ∧ contributes g item pct ∧ pct == -100.
Proof.
  induction items as [|item items IH]; intros total; cbn [usd_24h_loop].
  { split; [by intros [e ?]|]. intros (i & p & Hi & _). by apply elem_of_nil in Hi. }
  destruct (usd_24h_step_cases g total item) as [(pct & Hc & E) | [Hn E]]; rewrite E.
  - destruct (Qeq_bool (100 + pct) 0) eqn:Ez.
    + apply Qeq_bool_iff in Ez. split; [|by eexists]. intros _.
      exists item, pct. split; [by left|]. split; [exact Hc | lra].
    + apply Qeq_bool_neq in Ez. cbn [mbind result_mbind result_bind].
      rewrite IH. split.
      * intros (i & p & Hi & H). exists i, p. split; [by right|exact H].
      * intros (i & p & Hi & Hc' & Hp).
        apply elem_of_cons in Hi as [-> | Hi]; [|by exists i, p].
        destruct Hc as [Hg _], Hc' as [Hg' _]. rewrite Hg in Hg'.
        injection Hg' as <-. exfalso. apply Ez. lra.
  - cbn [mbind result_mbind result_bind]. rewrite IH. split.
    + intros (i & p & Hi & H). exists i, p. split; [by right|exact H].
    + intros (i & p & Hi & Hc & Hp).
      apply elem_of_cons in Hi as [-> | Hi]; [by destruct (Hn p)|]. by exists i, p.
Qed.

Lemma usd_24h_loop_exn g items : ∀ total e,
  usd_24h_loop g total items = Raise e → e = ZeroDivisionError.
Proof.
  induction items as [|item items IH]; intros total e; cbn [usd_24h_loop]; [done|].
  destruct (usd_24h_step_cases g total item) as [(pct & Hc & E) | [Hn E]]; rewrite E.
  - destruct (Qeq_bool (100 + pct) 0); cbn [mbind result_mbind result_bind].
    + by intros [= <-].
    + apply IH.
  - cbn [mbind result_mbind result_bind]. apply IH.
Qed.

(** X15: [portfolio_24h_usd] divides by [100 + pct] unguarded: it raises
    ZeroDivisionError exactly when an asset that counts has lost all of
    its value in the 24 hours (a percentage of -100), and raises nothing
    else. *)
Theorem portfolio_24h_usd_raises (get_24h_pct : string → option Q)
    (per_asset : list (string * asset_metrics)) :
  (portfolio_24h_usd get_24h_pct per_asset = Raise ZeroDivisionError
   ↔ ∃ item pct, item ∈ per_asset ∧ contributes get_24h_pct item pct
                 ∧ pct == -100)
  ∧ ∀ e, portfolio_24h_usd get_24h_pct per_asset = Raise e → e = ZeroDivisionError.
Proof.
  unfold portfolio_24h_usd.
  pose proof (usd_24h_loop_raises get_24h_pct per_asset 0) as Hr.
  pose proof (usd_24h_loop_exn get_24h_pct per_asset 0) as He.
  destruct (usd_24h_loop get_24h_pct 0 per_asset) as [total|e];
    cbn [mbind result_mbind result_bind].
  - split; [|done]. split; [done|]. intros H. apply Hr in H as [e H]. discriminate.
  - rewrite (He e eq_refl) in *. split; [|by intros ? [= <-]].
    split; [|done]. intros _. apply Hr. by eexists.
Qed.

(** ** The colour of a value *)

(** X16: a value is shown in the colour of a profit exactly when it is at
    least [1e-9], in the colour of a loss exactly when it is at most
    [-1e-9], and in the neutral colour otherwise: amounts smaller than the
    threshold are neutral, not only zero. *)
Theorem color_for_value_sign (v : Q) :
  (color_for_value (Some v) = APPLE_COLOR_PROFIT ↔ (1 # 1000000000) <= v)
  ∧ (color_for_value (Some v) = APPLE_COLOR_LOSS ↔ v <= - (1 # 1000000000))
  ∧ (color_for_value (Some v) = SUMMARY_DESC_COLOR
     ↔ - (1 # 1000000000) < v < (1 # 1000000000)).
Proof.
  unfold color_for_value.
  destruct (Qltb (Qabs v) (1 # 1000000000)) eqn:Ea.
  - apply Qltb_lt, Qabs_Qlt_condition in Ea.
    repeat split; try discriminate; try lra.
  - apply Qltb_ge in Ea.
    assert (Hc : v <= - (1 # 1000000000) ∨ (1 # 1000000000) <= v).
    { destruct (Qlt_le_dec v 0) as [Hv | Hv].
      - left. rewrite (Qabs_neg v) in Ea by lra. lra.
      - right. by rewrite (Qabs_pos v) in Ea. }
    destruct (Qltb 0 v) eqn:Ev.
    + apply Qltb_lt in Ev. repeat split; try discriminate; try lra.
    + apply Qltb_ge in Ev. repeat split; try discriminate; try lra.
Qed.

(** ** Accounts and groups *)

Lemma entry_is_true x s : entry_is x s = true ↔ x = Some s.
Proof.
  unfold entry_is. destruct x as [v|]; [|done].
  rewrite String.eqb_eq. split; congruence.
Qed.

Lemma find_group_cons g groups gid :
  find_group (g :: groups) gid
  = if entry_is (grp_id g) gid then Some g else find_group groups gid.
Proof.
  unfold find_group. rewrite filter_cons.
  destruct (entry_is (grp_id g) gid); by destruct (decide _).
Qed.

(** The members of the group found for [gid], as [get_accounts] reads
    them. *)
Definition member_ids_of (groups : list account_group) (gid : string) : list string :=
  match find_group groups gid with
  | Some g => default [] (grp_accounts g)
  | None => []
  end.

Lemma member_ids_add_member groups gid aid :
  member_ids_of (add_member groups gid aid) gid
  = match find_group groups gid with
    | Some g =>
        if bool_decide (aid ∈ default [] (grp_accounts g))
        then default [] (grp_accounts g)
        else default [] (grp_accounts g) ++ [aid]
    | None => []
    end.
Proof.
  unfold member_ids_of. induction groups as [|g groups IH]; [reflexivity|].
  cbn [add_member]. rewrite (find_group_cons g).
  destruct (entry_is (grp_id g) gid) eqn:E.
  - rewrite find_group_cons.
    destruct (bool_decide _); cbn [grp_id]; by rewrite E.
  - by rewrite find_group_cons, E.
Qed.

Lemma get_accounts_group data gid :
  nonempty gid = true →
  get_accounts data (Some gid)
  = match member_ids_of (default [] (d_account_groups data)) gid with
    | (_ :: _) as ids =>
        filter (λ a, entry_is (acc_group_id a) gid && member_of (acc_id a) ids = true)
          (default [] (d_accounts data))
    | [] => filter (λ a, entry_is (acc_group_id a) gid = true)
              (default [] (d_accounts data))
    end.
Proof.
  intros Hne. unfold get_accounts, member_ids_of. rewrite Hne. cbn [negb].
  destruct (find_group _ gid) as [g|]; [|reflexivity].
  by destruct (default [] (grp_accounts g)).
Qed.

Definition new_account (name : string) (group_id : option string)
    (account_id created_date : string) : account :=
  {| acc_id := Some account_id; acc_name := Some name;
     acc_group_id := group_id; acc_created_date := Some created_date |}.

Lemma created_accounts data name group_id aid created :
  d_accounts (create_account_in_data data name group_id aid created)
  = Some (default [] (d_accounts data) ++ [new_account name group_id aid created]).
Proof.
  unfold create_account_in_data.
  destruct group_id as [gid|], (d_account_groups data) as [groups|]; try done.
  by destruct (nonempty gid).
Qed.

Lemma created_members data name gid aid created :
  nonempty gid = true →
  let ids := member_ids_of
               (default [] (d_account_groups
                  (create_account_in_data data name (Some gid) aid created))) gid in
  ids = [] ∨ aid ∈ ids.
Proof.
  intros Hne. cbn zeta. unfold create_account_in_data.
  destruct (d_account_groups data) as [groups|]; [|by left].
  rewrite Hne. cbn [d_account_groups default from_option id].
  rewrite member_ids_add_member.
  destruct (find_group groups gid) as [g|]; [|by left]. right.
  destruct (bool_decide (aid ∈ default [] (grp_accounts g))) eqn:E.
  - by apply bool_decide_eq_true in E.
  - apply elem_of_app. right. by left.
Qed.

(** X17: an account created in a group is among the accounts
    [get_accounts] lists for that group, whatever the data held before, and
    it comes last in the list of all accounts, which is otherwise as it
    was. *)
Theorem created_account_listed (data : account_data) (name gid aid created : string) :
  nonempty gid = true →
  let data' := create_account_in_data data name (Some gid) aid created in
  new_account name (Some gid) aid created ∈ get_accounts data' (Some gid)
  ∧ get_accounts data' None
    = get_accounts data None ++ [new_account name (Some gid) aid created].
Proof.
  intros Hne. cbn zeta. split.
  - rewrite get_accounts_group by exact Hne.
    pose proof (created_members data name gid aid created Hne) as Hm. cbn zeta in Hm.
    rewrite created_accounts. cbn [default from_option id].
    assert (Hin : new_account name (Some gid) aid created
                  ∈ default [] (d_accounts data)
                    ++ [new_account name (Some gid) aid created])
      by (apply elem_of_app; right; by left).
    assert (Hg : entry_is (Some gid) gid = true) by by apply entry_is_true.
    destruct (member_ids_of _ gid) as [|i ids] eqn:E.
    + apply list_elem_of_filter. by split.
    + destruct Hm as [Hm | Hm]; [done|].
      apply list_elem_of_filter. split; [|exact Hin].
      cbn [new_account acc_group_id acc_id member_of]. rewrite Hg.
      by apply bool_decide_eq_true.
  - unfold get_accounts. by rewrite created_accounts.
Qed.

Definition no_accounts : account_data :=
  {| d_account_groups := None; d_accounts := None |}.

Lemma created_account_listed_witness :
  let data' := create_account_in_data no_accounts "Main" (Some "g"%string)
                 "a" "2024-01-01 00:00:00" in
  new_account "Main" (Some "g"%string) "a" "2024-01-01 00:00:00"
    ∈ get_accounts data' (Some "g"%string)
  ∧ get_accounts data' None
    = get_accounts no_accounts None
      ++ [new_account "Main" (Some "g"%string) "a" "2024-01-01 00:00:00"].
Proof.
  cbv zeta.
  apply (created_account_listed no_accounts "Main" "g" "a" "2024-01-01 00:00:00").
  reflexivity.
Defined.

Lemma find_group_fresh groups gid g :
  Forall (λ g, grp_id g ≠ Some gid) groups →
  find_group (groups ++ [g]) gid = if entry_is (grp_id g) gid then Some g else None.
Proof.
  induction 1 as [|g0 groups Hg _ IH]; cbn [app].
  - by rewrite find_group_cons.
  - rewrite find_group_cons.
    destruct (entry_is (grp_id g0) gid) eqn:E; [|exact IH].
    by apply entry_is_true in E.
Qed.

Lemma add_member_fresh groups gid aid g :
  Forall (λ g, grp_id g ≠ Some gid) groups →
  add_member (groups ++ [g]) gid aid = groups ++ add_member [g] gid aid.
Proof.
  induction 1 as [|g0 groups Hg _ IH]; cbn [app]; [reflexivity|].
  cbn [add_member].
  destruct (entry_is (grp_id g0) gid) eqn:E; [by apply entry_is_true in E|].
  fold (add_member (groups ++ [g]) gid aid). by rewrite IH.
Qed.

(** X18: a new group with one new account, as [get_default_data] and the
    migration make them: when no group has the id of the new group yet and
    no account refers to it, [get_accounts] lists for the group exactly the
    new account. *)
Theorem new_group_lists_its_account (data : account_data)
    (group_name name gid aid created : string) :
  nonempty gid = true →
  Forall (λ g, grp_id g ≠ Some gid) (default [] (d_account_groups data)) →
  Forall (λ a, acc_group_id a ≠ Some gid) (default [] (d_accounts data)) →
  get_accounts
    (create_account_in_data (create_account_group_in_data data group_name gid)
       name (Some gid) aid created)
    (Some gid)
  = [new_account name (Some gid) aid created].
Proof.
  intros Hne Hg Ha. rewrite get_accounts_group by exact Hne.
  rewrite created_accounts.
  unfold create_account_in_data, create_account_group_in_data.
  cbn [d_account_groups d_accounts]. rewrite Hne.
  cbn [d_account_groups default from_option id].
  rewrite member_ids_add_member, (find_group_fresh _ _ _ Hg).
  cbn [grp_id grp_accounts default from_option id].
  assert (Hgid : entry_is (Some gid) gid = true) by by apply entry_is_true.
  rewrite Hgid. cbn [grp_accounts default from_option id].
  assert (Hnil : bool_decide (aid ∈ @nil string) = false).
  { apply bool_decide_eq_false. by intros H%elem_of_nil. }
  rewrite Hnil. cbn [app]. rewrite filter_app.
  assert (Hold : filter (λ a, entry_is (acc_group_id a) gid
                              && member_of (acc_id a) [aid] = true)
                   (default [] (d_accounts data)) = []).
  { induction Ha as [|a l Hx _ IH]; [reflexivity|].
    rewrite filter_cons.
    destruct (entry_is (acc_group_id a) gid) eqn:E;
      [by apply entry_is_true in E|].
    cbn [andb]. by destruct (decide (false = true)). }
  rewrite Hold. cbn [app]. rewrite filter_cons.
  cbn [new_account acc_group_id acc_id member_of]. rewrite Hgid.
  assert (Hin : bool_decide (aid ∈ [aid]) = true)
    by (apply bool_decide_eq_true; by left).
  rewrite Hin. cbn [andb]. by destruct (decide (true = true)).
Qed.

Lemma new_group_lists_its_account_witness :
  get_accounts
    (create_account_in_data
       (create_account_group_in_data no_accounts "My Portfolio" "g")
       "Main" (Some "g"%string) "a" "2024-01-01 00:00:00")
    (Some "g"%string)
  = [new_account "Main" (Some "g"%string) "a" "2024-01-01 00:00:00"].
Proof.
  apply (new_group_lists_its_account no_accounts "My Portfolio" "Main" "g" "a"
           "2024-01-01 00:00:00").
  - reflexivity.
  - constructor.
  - constructor.
Defined.

(** X19: [get_accounts] for a group lists only accounts of the data that
    refer to the group, in the order they have in the data. *)
Theorem get_accounts_of_group (data : account_data) (gid : string) :
  nonempty gid = true →
  get_accounts data (Some gid) `sublist_of` get_accounts data None
  ∧ Forall (λ a, acc_group_id a = Some gid) (get_accounts data (Some gid)).
Proof.
  intros Hne. rewrite get_accounts_group by exact Hne.
  change (get_accounts data None) with (default [] (d_accounts data)).
  destruct (member_ids_of _ gid) as [|i ids].
  - split; [apply sublist_filter|].
    apply Forall_forall. intros a Hin. apply list_elem_of_filter in Hin as [H _].
    by apply entry_is_true.
  - split; [apply sublist_filter|].
    apply Forall_forall. intros a Hin. apply list_elem_of_filter in Hin as [H _].
    apply andb_true_iff in H as [H _]. by apply entry_is_true.
Qed.

Lemma get_accounts_of_group_witness :
  let data := create_account_in_data no_accounts "Main" (Some "g"%string)
                "a" "2024-01-01 00:00:00" in
  get_accounts data (Some "g"%string) `sublist_of` get_accounts data None
  ∧ Forall (λ a, acc_group_id a = Some "g"%string)
      (get_accounts data (Some "g"%string)).
Proof.
  cbv zeta. apply get_accounts_of_group. reflexivity.
Defined.

(** ** Assigning a trade to an account *)

(** X20: [assign_trade_to_account] reports whether a trade has the id; if
    so, the first such trade, and no other, gets the account; the trades
    themselves are never changed. *)
Theorem assign_trade_first (trades : list (trade * option string))
    (trade_id account_id : string) :
  let '(trades', found) := assign_trade_to_account trades trade_id account_id in
  trades'.*1 = trades.*1
  ∧ (found = false →
     trades' = trades ∧ Forall (λ x, t_id x.1 ≠ Some trade_id) trades)
  ∧ (found = true →
     ∃ pre t acc post,
       trades = pre ++ (t, acc) :: post
       ∧ trades' = pre ++ (t, Some account_id) :: post
       ∧ t_id t = Some trade_id
       ∧ Forall (λ x, t_id x.1 ≠ Some trade_id) pre).
Proof.
  induction trades as [|[t acc] rest IH]; cbn [assign_trade_to_account].
  { split; [reflexivity|]. split; [by split|discriminate]. }
  destruct (entry_is (t_id t) trade_id) eqn:E.
  - split; [reflexivity|]. split; [discriminate|]. intros _.
    exists [], t, acc, rest. repeat split; try done. by apply entry_is_true.
  - destruct (assign_trade_to_account rest trade_id account_id) as [rest' found].
    destruct IH as (H1 & H2 & H3).
    assert (Hn : t_id t ≠ Some trade_id).
    { intros H. apply entry_is_true in H. congruence. }
    split; [cbn [fmap list_fmap fst]; by f_equal|]. split.
    + intros Hf. destruct (H2 Hf) as [-> Hall]. split; [reflexivity|].
      by constructor.
    + intros Hf. destruct (H3 Hf) as (pre & t' & acc' & post & -> & -> & Hid & Hall).
      exists ((t, acc) :: pre), t', acc', post. repeat split; try done.
      by constructor.
Qed.

(** ** Migration of the fees *)

(** X21: [migrate_exchange_fees] keeps the exchanges, gives every one of
    them a maker and a taker fee, and changes nothing when it is run
    again. *)
Theorem migrate_exchange_fees_idempotent (old_exchanges : gmap string fee_value) :
  migrate_exchange_fees (migrate_exchange_fees old_exchanges)
  = migrate_exchange_fees old_exchanges
  ∧ dom (migrate_exchange_fees old_exchanges) = dom old_exchanges
  ∧ ∀ exchange fee,
      migrate_exchange_fees old_exchanges !! exchange = Some fee →
      ∃ maker taker, fee = FeeDict (Some maker) (Some taker).
Proof.
  unfold migrate_exchange_fees. split; [|split].
  - rewrite <- map_fmap_compose. apply map_fmap_ext. intros k fee _.
    destruct fee as [f|[m|] [t|]]; reflexivity.
  - apply dom_fmap_L.
  - intros k fee H. rewrite lookup_fmap in H.
    destruct (old_exchanges !! k) as [old|]; [|discriminate].
    injection H as <-. destruct old as [f|[m|] [t|]]; cbn; eauto.
Qed.

(** ** The projection *)

Section ProjectionIdentity.
Variable cost_basis_method : string.
Variable get_current_price : string → option Q.
Variable syn_date : nat → string.
Variable new_id : nat → string.

Lemma synthetic_trades_recorded rows : ∀ i,
  Forall total_value_recorded (synthetic_trades syn_date new_id i rows).
Proof.
  induction rows as [|row rows IH]; intros i; cbn [synthetic_trades]; [constructor|].
  apply Forall_app. split; [|apply IH].
  destruct row as [r|]; [|constructor].
  destruct (_ || _); constructor; [|constructor].
  unfold total_value_recorded. cbn. intros H. exact H.
Qed.

(** X22: what the projection shows adds up, in exact arithmetic.  When
    the real trades have their [total_value] recorded, the P&L of a
    projection is its value less its cost (the external cash), less the
    cost of the assets transferred in by the real trades and by the rows
    of the table.  (In binary64 up to rounding, as for
    [accounting_identity_rounding].) *)
Theorem projection_adds_up (real_trades : list trade)
    (rows : list (option Store.proj_row)) (metrics : portfolio_metrics) :
  Forall total_value_recorded real_trades →
  projected_metrics cost_basis_method get_current_price syn_date new_id
    real_trades rows = Ok (Some metrics) →
  total_pnl metrics
  == total_value metrics - total_external_cash metrics
     - transferred_in (real_trades ++ synthetic_trades syn_date new_id 0 rows).
Proof.
  intros Hr. unfold projected_metrics.
  set (trades := real_trades ++ synthetic_trades syn_date new_id 0 rows).
  assert (Hall : Forall total_value_recorded trades).
  { apply Forall_app. split; [exact Hr | apply synthetic_trades_recorded]. }
  destruct trades as [|t0 ts] eqn:E; [discriminate|]. rewrite <- E in *.
  destruct (compute_portfolio_metrics trades _ _) as [m|e] eqn:Em;
    cbn [result_bind]; [|discriminate].
  intros [= <-]. by apply (pnl_value_cash trades cost_basis_method get_current_price).
Qed.
End ProjectionIdentity.

Lemma projection_adds_up_witness :
  ∃ metrics,
    projected_metrics "fifo" (λ _, None) (λ _, "2025-01-01 00:00:00"%string)
      (λ _, "n"%string) [paid_buy; sale_of 1] sample_rows = Ok (Some metrics)
    ∧ total_pnl metrics
      == total_value metrics - total_external_cash metrics
         - transferred_in
             ([paid_buy; sale_of 1]
              ++ synthetic_trades (λ _, "2025-01-01 00:00:00"%string)
                   (λ _, "n"%string) 0 sample_rows).
Proof.
  eexists. split; [vm_compute; reflexivity|].
  apply (projection_adds_up "fifo" (λ _, None) (λ _, "2025-01-01 00:00:00"%string)
           (λ _, "n"%string) [paid_buy; sale_of 1] sample_rows).
  - repeat constructor; intros H; vm_compute in H; discriminate H.
  - vm_compute; reflexivity.
Defined.

(** ** The cost basis is not clamped *)






(** ** Valuation at cost *)

(** X23: whenever a snapshot is returned, an asset of the trades whose
    price is [None] or not greater than 0 has an entry, and the entry is
    valued at the cost basis the engine of the method computes for the
    asset on the trades: its cost basis and its current value are that
    cost, its units are the engine's, and its unrealized P&L is 0. *)
Theorem fallback_at_engine_cost (trades : list trade) (cost_basis_method : string)
    (get_current_price : string → option Q) (snap : portfolio_metrics)
    (asset : string) :
  compute_portfolio_metrics trades cost_basis_method get_current_price = Ok snap →
  has_asset trades asset →
  price_unavailable (get_current_price asset) →
  ∃ e cost units lots,
    per_asset snap !! asset = Some e
    ∧ cost_basis_by cost_basis_method trades asset = Ok (cost, units, lots)
    ∧ am_cost_basis e = cost
    ∧ am_current_value e = cost
    ∧ am_units_held e = units
    ∧ am_unrealized_pnl e == 0.
Proof.
  intros Hm Ha Hp.
  destruct (per_asset_lookup _ _ _ _ asset Hm) as [H1 _].
  destruct (H1 Ha) as (c & u & ls & Hc & Hl).
  rewrite cost_basis_by_of_sorted in Hc.
  eexists _, c, u, ls. split; [exact Hl|]. split; [exact Hc|].
  destruct (asset_entry_at_cost get_current_price asset
              (filter (λ t, is_asset t asset = true) (sort_by date_key trades))
              c u Hp) as [Hv Hu].
  by repeat split.
Qed.

Lemma fallback_at_engine_cost_witness :
  ∃ snap,
    compute_portfolio_metrics [paid_buy; sale_of 1] "lifo" (λ _, None) = Ok snap
    ∧ ∃ e cost units lots,
        per_asset snap !! "BTC"%string = Some e
        ∧ cost_basis_by "lifo" [paid_buy; sale_of 1] "BTC" = Ok (cost, units, lots)
        ∧ am_cost_basis e = cost
        ∧ am_current_value e = cost
        ∧ am_units_held e = units
        ∧ am_unrealized_pnl e == 0.
Proof.
  eexists. split; [vm_compute; reflexivity|].
  apply (fallback_at_engine_cost [paid_buy; sale_of 1] "lifo" (λ _, None)).
  - vm_compute; reflexivity.
  - split; [discriminate|]. exists paid_buy. split; [left | reflexivity].
  - exact I.
Defined.
